(** * Sudoku engine of the GameCenter component: model and verification

    The puzzle engine lives in the [GameCenter] React component
    (generateSudoku, fillDiagonalBox, isSafeInBox, isSafe, solveSudoku,
    checkWin).  Boards are JavaScript arrays of arrays holding numbers or
    [null]; the functions are embedded here as Rocq functions over lists,
    with an explicit result type for the [TypeError] raised when a row
    that does not exist is indexed, explicit board passing for the
    in-place updates, fuel for the recursion depth of the solver and a
    list of draws for [Math.random]. *)

From Stdlib Require Import ZArith List Lia Bool Arith ZifyNat Finite.
From stdpp Require Import base list gmap.

Local Open Scope nat_scope.

(** ** JavaScript values and boards *)

(** What an array slot can hold at run time: [undefined] (a hole, or a
    read past the end), [null], or a number. *)
Inductive value : Type :=
  | VUndef
  | VNull
  | VNum (n : Z).

#[global] Instance value_eq_dec : EqDecision value.
Proof. solve_decision. Defined.

(** [type Board = (number | null)[][]] *)
Abbreviation Board := (list (list value)).

(** Strict equality [===] on these values. *)
Definition strict_eq (a b : value) : bool :=
  match a, b with
  | VUndef, VUndef => true
  | VNull, VNull => true
  | VNum x, VNum y => Z.eqb x y
  | _, _ => false
  end.

(** Result of running a piece of code: a value, or a thrown [TypeError]. *)
Inductive res (A : Type) : Type :=
  | Ok (a : A)
  | Throw.
Arguments Ok {A} a.
Arguments Throw {A}.

#[global] Instance res_ret : MRet res := λ A a, Ok a.
#[global] Instance res_bind : MBind res :=
  λ A B f m, match m with Ok a => f a | Throw => Throw end.

(** [b[i][j]]: indexing a missing row throws, a missing column reads
    [undefined]. *)
Definition rd (b : Board) (i j : nat) : res value :=
  match b !! i with
  | None => Throw
  | Some row => Ok (default VUndef (row !! j))
  end.

(** [row[j] = v]: an assignment past the end extends the array with
    holes. *)
Definition wr_row (row : list value) (j : nat) (v : value) : list value :=
  if decide (j < length row) then <[j := v]> row
  else row ++ replicate (j - length row) VUndef ++ [v].

(** [b[i][j] = v] *)
Definition wr (b : Board) (i j : nat) (v : value) : res Board :=
  match b !! i with
  | None => Throw
  | Some row => Ok (<[i := wr_row row j v]> b)
  end.

(** A loop whose body may [return] early: [anyM f l] runs [f] on the
    elements of [l] in order and stops at the first one that answers
    [true] (or throws). *)
Fixpoint anyM {A : Type} (f : A → res bool) (l : list A) : res bool :=
  match l with
  | [] => Ok false
  | x :: l' =>
      match f x with
      | Throw => Throw
      | Ok true => Ok true
      | Ok false => anyM f l'
      end
  end.

(** The first element, in order, on which [f] answers [true]. *)
Fixpoint findM {A : Type} (f : A → res bool) (l : list A) : res (option A) :=
  match l with
  | [] => Ok None
  | x :: l' =>
      match f x with
      | Throw => Throw
      | Ok true => Ok (Some x)
      | Ok false => findM f l'
      end
  end.

(** The index pairs visited by [for i < n) for (j < n)], in visiting order. *)
Definition grid_cells (n : nat) : list (nat * nat) :=
  i ← seq 0 n; j ← seq 0 n; [(i, j)].

(** ** The source functions *)

(** [isSafeInBox(b, rowStart, colStart, num)] *)
Definition isSafeInBox (b : Board) (rowStart colStart : nat) (num : value)
  : res bool :=
  found ← anyM (λ '(i, j),
                  v ← rd b (rowStart + i) (colStart + j);
                  Ok (strict_eq v num))
               (grid_cells 3);
  Ok (negb found).

(** [isSafe(b, row, col, num)] *)
Definition isSafe (b : Board) (row col : nat) (num : value) : res bool :=
  inLine ← anyM (λ x,
                   v1 ← rd b row x;
                   if strict_eq v1 num then Ok true
                   else v2 ← rd b x col; Ok (strict_eq v2 num))
                (seq 0 9);
  if (inLine : bool) then Ok false
  else
    let startRow := row - row mod 3 in
    let startCol := col - col mod 3 in
    inBox ← anyM (λ '(i, j),
                    v ← rd b (i + startRow) (j + startCol);
                    Ok (strict_eq v num))
                 (grid_cells 3);
    Ok (negb inBox).

(** The scan at the head of [solveSudoku]: the first [null] cell in
    row-major order, if any. *)
Definition findEmpty (b : Board) : res (option (nat * nat)) :=
  findM (λ '(i, j), v ← rd b i j; Ok (strict_eq v VNull)) (grid_cells 9).

(** [for (let num = 1; num <= 9; num++)] *)
Definition digits : list Z := [1; 2; 3; 4; 5; 6; 7; 8; 9]%Z.

(** The digit loop of [solveSudoku] at the cell [(row, col)], with the
    recursive call abstracted as [rec].  The board is threaded through:
    the recursive call returns the board as it left it. *)
Fixpoint tryNums (rec : Board → option (res (bool * Board)))
    (row col : nat) (nums : list Z) (b : Board)
  : option (res (bool * Board)) :=
  match nums with
  | [] => Some (Ok (false, b))
  | num :: rest =>
      match isSafe b row col (VNum num) with
      | Throw => Some Throw
      | Ok false => tryNums rec row col rest b
      | Ok true =>
          match wr b row col (VNum num) with
          | Throw => Some Throw
          | Ok b1 =>
              match rec b1 with
              | None => None
              | Some Throw => Some Throw
              | Some (Ok (true, b2)) => Some (Ok (true, b2))
              | Some (Ok (false, b2)) =>
                  match wr b2 row col VNull with
                  | Throw => Some Throw
                  | Ok b3 => tryNums rec row col rest b3
                  end
              end
          end
      end
  end.

(** [solveSudoku(b)].  [fuel] bounds the depth of nested recursive calls;
    [None] means the bound was hit. *)
Fixpoint solveSudoku (fuel : nat) (b : Board) : option (res (bool * Board)) :=
  match findEmpty b with
  | Throw => Some Throw
  | Ok None => Some (Ok (true, b))
  | Ok (Some (row, col)) =>
      match fuel with
      | 0 => None
      | S fuel' => tryNums (solveSudoku fuel') row col digits b
      end
  end.

(** [checkWin(current)].  [temp] is [current] with the row [i] copied
    and its cell [j] set to [null]. *)
Definition checkWin (current : Board) : res bool :=
  lost ← anyM (λ '(i, j),
                 v ← rd current i j;
                 if strict_eq v VNull then Ok true
                 else
                   temp ← wr current i j VNull;
                   safe ← isSafe temp i j v;
                   Ok (negb safe))
              (grid_cells 9);
  Ok (negb lost).

(** *** Generation *)

Inductive Difficulty : Type := easy | medium | hard.

(** [diff === 'easy' ? 30 : diff === 'medium' ? 45 : 56] *)
Definition attempts (diff : Difficulty) : nat :=
  match diff with
  | easy => 30
  | medium => 45
  | hard => 56
  end.

(** Code that draws from [Math.random]: the argument is the list of the
    successive values of [Math.floor(Math.random() * 9)] still to come,
    and [None] means that the list ran out. *)
Definition Gen (A : Type) : Type := list nat → option (res (A * list nat)).

(** The [do ... while] of [fillDiagonalBox]: draw until the number is
    not yet in the box. *)
Fixpoint drawFresh (b : Board) (startRow : nat) (rs : list nat)
  : option (res (Z * list nat)) :=
  match rs with
  | [] => None
  | k :: rs' =>
      let num := (Z.of_nat k + 1)%Z in
      match isSafeInBox b startRow startRow (VNum num) with
      | Throw => Some Throw
      | Ok true => Some (Ok (num, rs'))
      | Ok false => drawFresh b startRow rs'
      end
  end.

(** The two nested loops of [fillDiagonalBox] over the cells still to
    be filled. *)
Fixpoint fillCells (startRow : nat) (cells : list (nat * nat)) (b : Board)
    (rs : list nat) : option (res (Board * list nat)) :=
  match cells with
  | [] => Some (Ok (b, rs))
  | (i, j) :: cells' =>
      match drawFresh b startRow rs with
      | None => None
      | Some Throw => Some Throw
      | Some (Ok (num, rs1)) =>
          match wr b (startRow + i) (startRow + j) (VNum num) with
          | Throw => Some Throw
          | Ok b1 => fillCells startRow cells' b1 rs1
          end
      end
  end.

(** [fillDiagonalBox(b, startRow)] *)
Definition fillDiagonalBox (b : Board) (startRow : nat) : Gen Board :=
  fillCells startRow (grid_cells 3) b.

(** [JSON.parse(JSON.stringify(b))]: a fresh structure with the same
    numbers and [null]s; [undefined] slots come back as [null]. *)
Definition deepCopy (b : Board) : Board :=
  map (map (λ v, match v with VUndef => VNull | _ => v end)) b.

(** The carving loop: [count] cells still to clear. *)
Fixpoint carve (count : nat) (p : Board) (rs : list nat)
  : option (res (Board * list nat)) :=
  match count with
  | 0 => Some (Ok (p, rs))
  | S count' =>
      match rs with
      | i :: j :: rs' =>
          match rd p i j with
          | Throw => Some Throw
          | Ok v =>
              if strict_eq v VNull then carve count p rs'
              else
                match wr p i j VNull with
                | Throw => Some Throw
                | Ok p' => carve count' p' rs'
                end
          end
      | _ => None
      end
  end.

Record PuzzleInstance : Type := { solved : Board; puzzle : Board }.

(** [Array(9).fill(null).map(() => Array(9).fill(null))] *)
Definition emptyBoard : Board := replicate 9 (replicate 9 VNull).

(** Recursion depth granted to the solver inside [generateSudoku]; the
    solver never needs more on a 9×9 board (see [solveSudoku_total]). *)
Definition depth_bound : nat := 81.

(** [generateSudoku(diff)] *)
Definition generateSudoku (diff : Difficulty) : Gen PuzzleInstance :=
  λ rs,
    match fillDiagonalBox emptyBoard 0 rs with
    | None => None | Some Throw => Some Throw
    | Some (Ok (b1, rs1)) =>
    match fillDiagonalBox b1 3 rs1 with
    | None => None | Some Throw => Some Throw
    | Some (Ok (b2, rs2)) =>
    match fillDiagonalBox b2 6 rs2 with
    | None => None | Some Throw => Some Throw
    | Some (Ok (b3, rs3)) =>
    match solveSudoku depth_bound b3 with
    | None => None | Some Throw => Some Throw
    | Some (Ok (_, newBoard)) =>
    match carve (attempts diff) (deepCopy newBoard) rs3 with
    | None => None | Some Throw => Some Throw
    | Some (Ok (puzzleBoard, rs4)) =>
        Some (Ok ({| solved := newBoard; puzzle := puzzleBoard |}, rs4))
    end end end end end.

(** ** Vocabulary of the specification *)

(** The content of cell [(i, j)]; [undefined] outside the arrays. *)
Definition cell (b : Board) (i j : nat) : value :=
  default VUndef (row ← b !! i; row !! j).

(** A well-formed board: nine rows of nine cells, each a number or
    [null]. *)
Definition grid9 (b : Board) : Prop :=
  length b = 9 ∧
  Forall (λ row : list value, length row = 9 ∧ Forall (λ v, v ≠ VUndef) row) b.

(** The board with cell [(i, j)] replaced by [v]. *)
Definition setCell (b : Board) (i j : nat) (v : value) : Board :=
  alter (λ row : list value, <[j := v]> row) i b.

(** [(i, j)] lies in the row, the column or the 3×3 box of [(r, c)]. *)
Definition sameUnit (r c i j : nat) : Prop :=
  i = r ∨ j = c ∨ (i / 3 = r / 3 ∧ j / 3 = c / 3).

#[global] Instance sameUnit_dec r c i j : Decision (sameUnit r c i j).
Proof. unfold sameUnit. apply _. Defined.

(** [num] occurs in some cell of the row, column or box of [(r, c)]. *)
Definition occursInUnits (b : Board) (r c : nat) (num : value) : Prop :=
  ∃ i j, i < 9 ∧ j < 9 ∧ sameUnit r c i j ∧ cell b i j = num.

(** [num] occurs in a cell of the row, column or box of [(r, c)] other
    than [(r, c)] itself. *)
Definition occursInPeers (b : Board) (r c : nat) (num : value) : Prop :=
  ∃ i j, i < 9 ∧ j < 9 ∧ (i, j) ≠ (r, c) ∧ sameUnit r c i j ∧ cell b i j = num.

(** Every cell holds a number. *)
Definition full (b : Board) : Prop :=
  ∀ i j, i < 9 → j < 9 → ∃ n, cell b i j = VNum n.

(** No two distinct cells of a common row, column or box hold the same
    number. *)
Definition legal (b : Board) : Prop :=
  ∀ i j i' j' n, i < 9 → j < 9 → i' < 9 → j' < 9 →
    (i, j) ≠ (i', j') → sameUnit i j i' j' →
    cell b i j = VNum n → cell b i' j' ≠ VNum n.

(** The number of [null] cells. *)
Definition countNull (b : Board) : nat :=
  length (filter (λ v, v = VNull) (concat b)).

(** The number of cells that are not [null]. *)
Definition countClues (b : Board) : nat :=
  length (filter (λ v, v ≠ VNull) (concat b)).

(** The cells of row [i], of column [j] and of the box with top-left
    corner [(3p, 3q)], as lists of values. *)
Definition rowOf (b : Board) (i : nat) : list value :=
  map (λ j, cell b i j) (seq 0 9).
Definition colOf (b : Board) (j : nat) : list value :=
  map (λ i, cell b i j) (seq 0 9).
Definition boxOf (b : Board) (p q : nat) : list value :=
  map (λ '(i, j), cell b (3 * p + i) (3 * q + j)) (grid_cells 3).

(** The digits 1–9 as board values. *)
Definition digitValues : list value := map VNum digits.

(** A complete valid solution: every row, column and box is a
    permutation of 1–9. *)
Definition validSolution (b : Board) : Prop :=
  (∀ i, i < 9 → rowOf b i ≡ₚ digitValues) ∧
  (∀ j, j < 9 → colOf b j ≡ₚ digitValues) ∧
  (∀ p q, p < 3 → q < 3 → boxOf b p q ≡ₚ digitValues).

(** [b'] keeps every number that [b] already had. *)
Definition extends (b b' : Board) : Prop :=
  ∀ i j, i < 9 → j < 9 → cell b i j ≠ VNull → cell b' i j = cell b i j.

(** Every cell that is empty in [b] holds a digit 1–9 in [b']. *)
Definition digitsPlaced (b b' : Board) : Prop :=
  ∀ i j, i < 9 → j < 9 → cell b i j = VNull →
    ∃ d, cell b' i j = VNum d ∧ (1 ≤ d ≤ 9)%Z.

(** What a successful [solveSudoku] leaves behind. *)
Definition solvedFrom (b b' : Board) : Prop :=
  grid9 b' ∧ full b' ∧ extends b b' ∧ digitsPlaced b b' ∧ (legal b → legal b').

(** Outcome of a solver call on [b]: it returns, without throwing;
    on [true] the board is a completion of [b], on [false] the board is
    [b] again. *)
Definition solverPost (b : Board) (out : option (res (bool * Board))) : Prop :=
  ∃ ok b', out = Some (Ok (ok, b')) ∧ if (ok : bool) then solvedFrom b b' else b' = b.

(** A complete assignment of digits that respects the three
    constraint groups. *)
Definition validAssign (sol : nat → nat → Z) : Prop :=
  (∀ i j, i < 9 → j < 9 → (1 ≤ sol i j ≤ 9)%Z) ∧
  (∀ i j i' j', i < 9 → j < 9 → i' < 9 → j' < 9 →
     (i, j) ≠ (i', j') → sameUnit i j i' j' → sol i j ≠ sol i' j').

(** The filled cells of [b] are those of [sol]. *)
Definition agrees (sol : nat → nat → Z) (b : Board) : Prop :=
  ∀ i j, i < 9 → j < 9 → cell b i j = VNull ∨ cell b i j = VNum (sol i j).

(** On a well-formed board [isSafe] reads the nine cells of the row,
    the nine of the column and the nine of the box, and answers whether
    [num] is absent from all of them; [unitScan] is that scan. *)
Definition unitScan (b : Board) (r c : nat) (num : value) : bool :=
  existsb (λ x, strict_eq (cell b r x) num || strict_eq (cell b x c) num) (seq 0 9)
  || existsb (λ '(i, j), strict_eq (cell b (i + (r - r mod 3)) (j + (c - c mod 3))) num)
       (grid_cells 3).

(** What [checkWin] computes for one cell of a well-formed board. *)
Definition cellLost (b : Board) (ij : nat * nat) : bool :=
  let '(i, j) := ij in
  strict_eq (cell b i j) VNull
  || unitScan (setCell b i j VNull) i j (cell b i j).

(** ** Boards as objects in the JavaScript heap

    [checkWin] builds its scratch board with spread copies, so whether
    the caller's board is modified depends on which arrays are shared.
    This second model keeps the arrays in a store and passes references
    around. *)
Module Heap.

(** A slot of an array in the store: a primitive or a reference to
    another array. *)
Inductive hval : Type :=
  | HUndef
  | HNull
  | HNum (n : Z)
  | HRef (l : nat).

#[global] Instance hval_eq_dec : EqDecision hval.
Proof. solve_decision. Defined.

Abbreviation heap := (gmap nat (list hval)).

(** [===]: references are equal when they are the same object. *)
Definition strict_eq (a b : hval) : bool := bool_decide (a = b).

(** [a[i]]: [undefined] and [null] cannot be indexed, a number has no
    such property. *)
Definition get (σ : heap) (a : hval) (i : nat) : res hval :=
  match a with
  | HRef l =>
      match σ !! l with
      | Some arr => Ok (default HUndef (arr !! i))
      | None => Throw
      end
  | HNum _ => Ok HUndef
  | HUndef | HNull => Throw
  end.

Definition set_slot (arr : list hval) (i : nat) (v : hval) : list hval :=
  if decide (i < length arr) then <[i := v]> arr
  else arr ++ replicate (i - length arr) HUndef ++ [v].

(** [a[i] = v] (strict mode: storing into a primitive throws). *)
Definition set (σ : heap) (a : hval) (i : nat) (v : hval) : res heap :=
  match a with
  | HRef l =>
      match σ !! l with
      | Some arr => Ok (<[l := set_slot arr i v]> σ)
      | None => Throw
      end
  | _ => Throw
  end.

(** [[...a]]: a new array with the elements of [a]. *)
Definition spread (σ : heap) (a : hval) : res (hval * heap) :=
  match a with
  | HRef l =>
      match σ !! l with
      | Some arr => let l' := fresh (dom σ) in Ok (HRef l', <[l' := arr]> σ)
      | None => Throw
      end
  | _ => Throw
  end.

(** [b[i][j]] *)
Definition rd (σ : heap) (b : hval) (i j : nat) : res hval :=
  row ← get σ b i; get σ row j.

(** [isSafe(b, row, col, num)] on a board in the store; the store is
    handed back with the answer. *)
Definition isSafe (b : hval) (row col : nat) (num : hval) (σ : heap)
  : res (bool * heap) :=
  inLine ← anyM (λ x,
                   v1 ← rd σ b row x;
                   if strict_eq v1 num then Ok true
                   else v2 ← rd σ b x col; Ok (strict_eq v2 num))
                (seq 0 9);
  if (inLine : bool) then Ok (false, σ)
  else
    let startRow := row - row mod 3 in
    let startCol := col - col mod 3 in
    inBox ← anyM (λ '(i, j),
                    v ← rd σ b (i + startRow) (j + startCol);
                    Ok (strict_eq v num))
                 (grid_cells 3);
    Ok (negb inBox, σ).

(** The body of the two loops of [checkWin] for the cell [(i, j)]:
    [Some answer] when the function returns from inside the body. *)
Definition checkCell (current : hval) (i j : nat) (σ : heap)
  : res (option bool * heap) :=
  v ← rd σ current i j;
  if strict_eq v HNull then Ok (Some false, σ)
  else
    '(temp, σ1) ← spread σ current;
    row ← get σ1 current i;
    '(rowCopy, σ2) ← spread σ1 row;
    σ3 ← set σ2 temp i rowCopy;
    tempRow ← get σ3 temp i;
    σ4 ← set σ3 tempRow j HNull;
    '(safe, σ5) ← isSafe temp i j v σ4;
    if (safe : bool) then Ok (None, σ5) else Ok (Some false, σ5).

Fixpoint checkCells (current : hval) (cells : list (nat * nat)) (σ : heap)
  : res (bool * heap) :=
  match cells with
  | [] => Ok (true, σ)
  | (i, j) :: cells' =>
      match checkCell current i j σ with
      | Throw => Throw
      | Ok (Some answer, σ') => Ok (answer, σ')
      | Ok (None, σ') => checkCells current cells' σ'
      end
  end.

(** [checkWin(current)] *)
Definition checkWin (current : hval) (σ : heap) : res (bool * heap) :=
  checkCells current (grid_cells 9) σ.

(** The store does not change on the arrays that already existed. *)
Definition preserved (σ σ' : heap) : Prop :=
  ∀ l, l ∈ dom σ → σ' !! l = σ !! l.

(** The value a slot stands for in the list model. *)
Definition toValue (v : hval) : option value :=
  match v with
  | HUndef => Some VUndef
  | HNull => Some VNull
  | HNum n => Some (VNum n)
  | HRef _ => None
  end.

(** The board that the reference [b] denotes in the store [σ], when
    [b] is an array of arrays of primitives. *)
Definition boardAt (σ : heap) (b : hval) : option Board :=
  match b with
  | HRef l =>
      outer ← σ !! l;
      mapM (λ r, match r with
                 | HRef lr => row ← σ !! lr; mapM toValue row
                 | _ => None
                 end) outer
  | _ => None
  end.

End Heap.

(** ** Completing the three diagonal boxes: the combinatorial data

    A box of a complete grid is described by two maps from the nine
    digits to 0–2, the row and the column of the digit inside the box;
    a map is a list of nine numbers below three.  The three boxes of a
    band place every digit in three different rows, the three boxes of
    a stack in three different columns.  The search below is run with
    the digits named by their cell in the top-left box, whose maps are
    then [r0] and [c0]. *)
Module Comb.

Abbreviation dmap := (list nat).

Definition at_ (u : dmap) (d : nat) : nat := nth d u 0.

(** Row and column of the digits in the top-left box itself. *)
Definition r0 : dmap := [0; 0; 0; 1; 1; 1; 2; 2; 2].
Definition c0 : dmap := [0; 1; 2; 0; 1; 2; 0; 1; 2].

Fixpoint memb (n : nat) (l : list nat) : bool :=
  match l with
  | [] => false
  | x :: t => if x =? n then true else memb n t
  end.

Fixpoint nodupb (l : list nat) : bool :=
  match l with
  | [] => true
  | x :: t => if memb x t then false else nodupb t
  end.

(** The cell [3 * row + column] of each digit. *)
Fixpoint codes (u v : dmap) : list nat :=
  match u, v with
  | a :: u', b :: v' => (3 * a + b) :: codes u' v'
  | _, _ => []
  end.

(** [u] and [v] together place the nine digits in nine different cells. *)
Definition orthb (u v : dmap) : bool := nodupb (codes u v).

Definition orthP (u v : dmap) : Prop :=
  ∀ d d', d < 9 → d' < 9 → at_ u d = at_ u d' → at_ v d = at_ v d' → d = d'.

(** The digits that [u] sends to [a] are those that [v] sends to [b]. *)
Fixpoint sameBlockb (a b : nat) (u v : dmap) : bool :=
  match u, v with
  | x :: u', y :: v' =>
      if Bool.eqb (x =? a) (y =? b) then sameBlockb a b u' v' else false
  | _, _ => true
  end.

Definition three : list nat := [0; 1; 2].

(** [existsb] and [forallb] that stop at the first decisive element
    under every evaluation order. *)
Fixpoint anyb {A : Type} (f : A → bool) (l : list A) : bool :=
  match l with
  | [] => false
  | x :: t => if f x then true else anyb f t
  end.
Fixpoint allb {A : Type} (f : A → bool) (l : list A) : bool :=
  match l with
  | [] => true
  | x :: t => if f x then allb f t else false
  end.

(** Some row of [u] holds the same three digits as some row of [v]. *)
Definition sharesb (u v : dmap) : bool :=
  anyb (λ a, anyb (λ b, sameBlockb a b u v) three) three.

Definition shareP (u v : dmap) : Prop :=
  ∃ a b, a < 3 ∧ b < 3 ∧ ∀ d, d < 9 → (at_ u d = a ↔ at_ v d = b).

(** Each of 0, 1, 2 is taken three times. *)
Definition count (a : nat) (u : dmap) : nat := length (List.filter (λ x, x =? a) u).
Definition balancedb (u : dmap) : bool :=
  (count 0 u =? 3) && (count 1 u =? 3) && (count 2 u =? 3).

Definition wfmapb (u : dmap) : bool :=
  (length u =? 9) && forallb (λ x, x <? 3) u && balancedb u.

(** A map: nine values below three. *)
Definition wf (u : dmap) : Prop := length u = 9 ∧ ∀ d, at_ u d < 3.

(** A map that can be the row map of a box: some column map places the
    digits in nine different cells with it. *)
Definition balanced (u : dmap) : Prop := wf u ∧ ∃ v, wf v ∧ orthP u v.

(** All lists of length [n] over 0, 1, 2. *)
Fixpoint all_maps (n : nat) : list dmap :=
  match n with
  | 0 => [[]]
  | S k => flat_map (λ l, [0 :: l; 1 :: l; 2 :: l]) (all_maps k)
  end.

(** The 1680 balanced maps. *)
Definition bals : list dmap :=
  Eval vm_compute in List.filter balancedb (all_maps 9).

(** Renaming the values of a map: [vmap τ u] sends a digit to [τ] of
    where [u] sends it. *)
Definition perms3 : list (list nat) :=
  [[0; 1; 2]; [0; 2; 1]; [1; 0; 2]; [1; 2; 0]; [2; 0; 1]; [2; 1; 0]].
Definition vmap (τ : list nat) (u : dmap) : dmap := map (λ a, nth a τ 0) u.

(** Canonical naming of the three blocks: first seen, first numbered. *)
Fixpoint firstNonZero (u : dmap) : option nat :=
  match u with
  | [] => None
  | 0 :: t => firstNonZero t
  | x :: _ => Some x
  end.
Definition is_canonb (u : dmap) : bool :=
  match u with
  | 0 :: t => match firstNonZero t with Some 1 => true | _ => false end
  | _ => false
  end.

(** The 280 partitions of the digits into three triples. *)
Definition parts : list dmap := Eval vm_compute in List.filter is_canonb bals.

Fixpoint list_eqb (l k : list nat) : bool :=
  match l, k with
  | [], [] => true
  | x :: l', y :: k' => if x =? y then list_eqb l' k' else false
  | _, _ => false
  end.

(** [u] is [vmap τ n] for a canonical [n] (namely [n = vmap ρ u]). *)
Definition normalizes (u : dmap) (τρ : list nat * list nat) : bool :=
  let n := vmap τρ.2 u in
  if is_canonb n then if wfmapb n then list_eqb (vmap τρ.1 n) u else false else false.
Definition perm_pairs : list (list nat * list nat) :=
  Eval vm_compute in list_prod perms3 perms3.

(** *** Siblings: the other two maps of a band or stack *)

(** [r], [x], [x'] send every digit to three different values. *)
Definition sibP (r x x' : dmap) : Prop :=
  length x = 9 ∧ length x' = 9 ∧
  ∀ d, d < 9 → at_ x d < 3 ∧ at_ x' d < 3 ∧
                at_ r d ≠ at_ x d ∧ at_ r d ≠ at_ x' d ∧ at_ x d ≠ at_ x' d.

Fixpoint apartb (r x : dmap) : bool :=
  match r, x with
  | a :: r', b :: x' => if a =? b then false else apartb r' x'
  | _, _ => true
  end.

Fixpoint thirds (r x : dmap) : dmap :=
  match r, x with
  | a :: r', b :: x' => (3 - a - b) :: thirds r' x'
  | _, _ => []
  end.

(** The sibling pairs [(x, x')] of [r] with [x] taken from [base]. *)
Definition sibs (base : list dmap) (r : dmap) : list (dmap * dmap) :=
  map (λ x, (x, thirds r x)) (List.filter (apartb r) base).

(** The balanced maps orthogonal to [c0], and to [r0]. *)
Definition orthC0 : list dmap := Eval vm_compute in List.filter (λ x, orthb x c0) bals.
Definition orthR0 : list dmap := Eval vm_compute in List.filter (λ x, orthb x r0) bals.

(** *** The hub lemma, as a check over all pairs of partitions

    For row data [r] and column data [c] we look for siblings
    [(x, x')] of [r] and [(y, y')] of [c] with [x] orthogonal to
    [c0], [y] orthogonal to [r0] and [x'] orthogonal to [y']. *)
Definition hubcond (r c : dmap) : bool :=
  if sharesb r c0 then false
  else if sharesb c r0 then false
  else if orthb r r0 then negb (orthb c c0) else true.

Definition hubFind (xs ys : list (dmap * dmap)) : bool :=
  anyb (λ xx : dmap * dmap, anyb (λ yy : dmap * dmap, orthb xx.2 yy.2) ys) xs.

Definition rowData (bx : list dmap) (r : dmap) : bool * bool * list (dmap * dmap) :=
  (negb (sharesb r c0), orthb r r0, sibs bx r).
Definition colData (bz : list dmap) (c : dmap) : bool * bool * list (dmap * dmap) :=
  (negb (sharesb c r0), orthb c c0, sibs bz c).

Definition hubEntry (rd cd : bool * bool * list (dmap * dmap)) : bool :=
  let '(p1, q1, xs) := rd in
  let '(p2, q2, ys) := cd in
  if p1 && p2 && negb (q1 && q2) then hubFind xs ys else true.

(** The check of all rows against all columns, with the sibling
    candidates taken from [bx] and [bz]; it is run on [orthC0],
    [orthR0] and the partitions. *)
Definition hubCheck (bx bz rows cols : list dmap) : bool :=
  let cds := map (colData bz) cols in
  allb (λ r, let rd := rowData bx r in allb (hubEntry rd) cds) rows.

(** *** Frames: the choices for band 0 and stack 0 *)

(** [(x0, y0)]: the rows of box (0,1) and the columns of box (1,0);
    box (0,2) gets the rows [thirds r0 x0], box (2,0) the columns
    [thirds c0 y0]. *)
Definition frames : list (dmap * dmap) :=
  [ ([1;1;2;0;2;2;0;1;0], [2;0;0;1;0;1;2;2;1]);
    ([1;1;2;2;0;2;1;0;0], [1;2;1;1;0;0;2;2;0]);
    ([1;2;1;0;2;2;0;0;1], [1;0;0;2;2;0;1;2;1]);
    ([1;2;1;2;2;0;1;0;0], [2;2;1;2;0;0;1;0;1]);
    ([1;2;2;0;0;2;1;0;1], [1;0;1;2;0;0;2;2;1]);
    ([1;2;2;0;2;0;1;1;0], [2;2;0;1;0;0;1;2;1]);
    ([2;1;1;2;0;2;0;0;1], [1;0;1;2;2;1;2;0;0]);
    ([2;1;1;2;2;0;0;1;0], [2;2;0;1;2;1;1;0;0]);
    ([2;1;2;0;0;2;0;1;1], [1;0;0;1;2;1;2;2;0]);
    ([2;1;2;2;0;0;1;1;0], [2;2;1;1;0;1;2;0;0]);
    ([2;2;1;0;2;0;0;1;1], [2;0;0;2;2;1;1;0;1]);
    ([2;2;1;2;0;0;1;0;1], [1;2;1;2;2;0;1;0;0]);
    ([1;1;1;2;2;2;0;0;0], [1;2;0;1;2;0;2;0;1]) ].

(** Renaming the digits: [(compose u π) d = u (π d)]. *)
Definition compose (u π : list nat) : list nat :=
  map (λ i, at_ u (at_ π i)) (seq 0 9).

Fixpoint index_of (n : nat) (l : list nat) : nat :=
  match l with
  | [] => 0
  | x :: t => if x =? n then 0 else S (index_of n t)
  end.
Definition invperm (ρ : list nat) : list nat := map (λ i, index_of i ρ) (seq 0 9).

Record frame : Type := {
  fx : dmap; fx' : dmap; fy : dmap; fy' : dmap;
  (** digits named by their cell in the frame [(fx', fy)], and back *)
  ρA : list nat; πA : list nat;
  (** digits named by their cell in the frame [(fx, fy')], and back *)
  ρB : list nat; πB : list nat
}.

Definition mkFrame (xy : dmap * dmap) : frame :=
  let x := xy.1 in let y := xy.2 in
  let x' := thirds r0 x in let y' := thirds c0 y in
  {| fx := x; fx' := x'; fy := y; fy' := y';
     ρA := codes x' y; πA := invperm (codes x' y);
     ρB := codes x y'; πB := invperm (codes x y') |}.

Definition frameList : list frame := Eval vm_compute in map mkFrame frames.

Definition apart3b (r x x' : dmap) : bool :=
  (length x =? 9) && (length x' =? 9) && forallb (λ a, a <? 3) x
  && forallb (λ a, a <? 3) x' && apartb r x && apartb r x' && apartb x x'.

Definition permPairb (ρ π : list nat) : bool :=
  forallb (λ d, (at_ ρ d <? 9) && (at_ π (at_ ρ d) =? d)) (seq 0 9).

Definition frame_okb (f : frame) : bool :=
  apart3b r0 (fx f) (fx' f) && apart3b c0 (fy f) (fy' f)
  && permPairb (ρA f) (πA f) && permPairb (πA f) (ρA f)
  && permPairb (ρB f) (πB f) && permPairb (πB f) (ρB f)
  && list_eqb (compose r0 (ρA f)) (fx' f) && list_eqb (compose c0 (ρA f)) (fy f)
  && list_eqb (compose r0 (ρB f)) (fx f) && list_eqb (compose c0 (ρB f)) (fy' f).

(** The property of the listed maps that is settled by evaluation. *)
Definition orthWith (v x : dmap) : bool := if orthb x v then wfmapb x else false.

(** *** Every seed is served by some frame *)

(** A set of bit vectors, to list the distinct ones. *)
Inductive trie : Type :=
  | TLeaf
  | TNode (mark : bool) (f t : trie).

Fixpoint tinsert (k : list bool) (tr : trie) : trie :=
  match k with
  | [] =>
      match tr with
      | TLeaf => TNode true TLeaf TLeaf
      | TNode _ f t => TNode true f t
      end
  | b :: k' =>
      match tr with
      | TLeaf =>
          if b then TNode false TLeaf (tinsert k' TLeaf)
          else TNode false (tinsert k' TLeaf) TLeaf
      | TNode m f t =>
          if b then TNode m f (tinsert k' t) else TNode m (tinsert k' f) t
      end
  end.

Fixpoint telems (tr : trie) : list (list bool) :=
  match tr with
  | TLeaf => []
  | TNode m f t =>
      (if m then [[]] else [])
      ++ map (cons false) (telems f) ++ map (cons true) (telems t)
  end.

(** For each frame, whether the hub lemma applies to the row data [r]
    and the column data [c] once the digits are renamed by [π]. *)
Definition hubAt (π : frame → list nat) (r c : dmap) (f : frame) : bool :=
  hubcond (compose r (π f)) (compose c (π f)).

Definition rowSig (π : frame → list nat) (fl : list frame) (r : dmap)
  : list (bool * bool) :=
  map (λ f, let u := compose r (π f) in (negb (sharesb u c0), orthb u r0)) fl.
Definition colSig (π : frame → list nat) (fl : list frame) (c : dmap)
  : list (bool * bool) :=
  map (λ f, let u := compose c (π f) in (negb (sharesb u r0), orthb u c0)) fl.

Fixpoint sigMask (s t : list (bool * bool)) : list bool :=
  match s, t with
  | (p1, q1) :: s', (p2, q2) :: t' => (p1 && p2 && negb (q1 && q2)) :: sigMask s' t'
  | _, _ => []
  end.

Definition maskSet (π : frame → list nat) (fl : list frame)
    (rows cols : list dmap) : trie :=
  let cs := map (colSig π fl) cols in
  fold_left (λ tr r, let s := rowSig π fl r in
                     fold_left (λ tr t, tinsert (sigMask s t) tr) cs tr)
            rows TLeaf.

Fixpoint meetb (a b : list bool) : bool :=
  match a, b with
  | x :: a', y :: b' => if x && y then true else meetb a' b'
  | _, _ => false
  end.

(** Every mask of [la] meets every mask of [lb]; it is run on the
    masks of the two halves over all pairs of partitions. *)
Definition coverCheck (la lb : list (list bool)) : bool :=
  allb (λ a, allb (meetb a) lb) la.

(** What a hub witness is: siblings of [r] and of [c] that fit the
    frame [(rf, cf)] and each other. *)
Definition hubWitness (rf cf r c : dmap) : Prop :=
  ∃ x x' y y', sibP r x x' ∧ sibP c y y' ∧
               orthP x cf ∧ orthP y rf ∧ orthP x' y'.

(** What evaluation establishes about a listed frame. *)
Record frameFacts (f : frame) : Prop := {
  ff_x : sibP r0 (fx f) (fx' f);
  ff_y : sibP c0 (fy f) (fy' f);
  ff_ρA : ∀ d, d < 9 → at_ (ρA f) d < 9;
  ff_πρA : ∀ d, d < 9 → at_ (πA f) (at_ (ρA f) d) = d;
  ff_πA : ∀ d, d < 9 → at_ (πA f) d < 9;
  ff_ρπA : ∀ d, d < 9 → at_ (ρA f) (at_ (πA f) d) = d;
  ff_ρB : ∀ d, d < 9 → at_ (ρB f) d < 9;
  ff_πρB : ∀ d, d < 9 → at_ (πB f) (at_ (ρB f) d) = d;
  ff_πB : ∀ d, d < 9 → at_ (πB f) d < 9;
  ff_ρπB : ∀ d, d < 9 → at_ (ρB f) (at_ (πB f) d) = d;
  ff_rA : compose r0 (ρA f) = fx' f;
  ff_cA : compose c0 (ρA f) = fy f;
  ff_rB : compose r0 (ρB f) = fx f;
  ff_cB : compose c0 (ρB f) = fy' f
}.

End Comb.

(** ** Seeded boards and the layout of a completion *)

(** The board on which the generator calls the solver: each of the
    three diagonal boxes holds a permutation of 1–9, every other cell
    is empty. *)
Definition seeded (b : Board) : Prop :=
  grid9 b ∧
  (∀ p, p < 3 → boxOf b p p ≡ₚ digitValues) ∧
  (∀ i j, i < 9 → j < 9 → i / 3 ≠ j / 3 → cell b i j = VNull).

(** Position of the first occurrence of [v] in [l]. *)
Fixpoint posOf (v : value) (l : list value) : nat :=
  match l with
  | [] => 0
  | x :: t => if decide (x = v) then 0 else S (posOf v t)
  end.

(** The digit [d] of the combinatorial data stands for the number
    [d + 1]. *)
Definition numOf (d : nat) : Z := Z.of_nat d + 1.

(** Row and column, inside the diagonal box [p], of every digit. *)
Definition rowMap (b : Board) (p : nat) : Comb.dmap :=
  map (λ d, posOf (VNum (numOf d)) (boxOf b p p) / 3) (seq 0 9).
Definition colMap (b : Board) (p : nat) : Comb.dmap :=
  map (λ d, posOf (VNum (numOf d)) (boxOf b p p) mod 3) (seq 0 9).

(** A layout gives every box its row map and its column map. *)
Definition layout : Type := nat → nat → Comb.dmap * Comb.dmap.

Definition mkLayout (m00 m01 m02 m10 m11 m12 m20 m21 m22 : Comb.dmap * Comb.dmap)
  : layout :=
  λ p q,
    match p, q with
    | 0, 0 => m00 | 0, 1 => m01 | 0, _ => m02
    | 1, 0 => m10 | 1, 1 => m11 | 1, _ => m12
    | _, 0 => m20 | _, 1 => m21 | _, _ => m22
    end.

(** The number that a layout puts in cell [(i, j)]: the digit whose
    place in the box of the cell is the cell. *)
Definition solOf (lay : layout) (i j : nat) : Z :=
  numOf (Comb.index_of (3 * (i mod 3) + j mod 3)
           (Comb.codes (lay (i / 3) (j / 3)).1 (lay (i / 3) (j / 3)).2)).

(** In every box the two maps place the digits in nine different
    cells; along a band the row maps differ at every digit, along a
    stack the column maps do. *)
Definition goodLayout (lay : layout) : Prop :=
  (∀ p q, p < 3 → q < 3 →
     Comb.wf (lay p q).1 ∧ Comb.wf (lay p q).2 ∧ Comb.orthP (lay p q).1 (lay p q).2) ∧
  (∀ p q q' d, p < 3 → q < 3 → q' < 3 → q ≠ q' → d < 9 →
     Comb.at_ (lay p q).1 d ≠ Comb.at_ (lay p q').1 d) ∧
  (∀ p p' q d, p < 3 → p' < 3 → q < 3 → p ≠ p' → d < 9 →
     Comb.at_ (lay p q).2 d ≠ Comb.at_ (lay p' q).2 d).

(** State of [fillDiagonalBox] on the diagonal box [p] while the cells
    [pending] are still to be filled: they are empty, the other cells
    of the box hold different numbers of 1–9. *)
Definition fillState (b : Board) (p : nat) (pending : list (nat * nat)) : Prop :=
  grid9 b ∧
  (∀ a c, (a, c) ∈ pending → a < 3 ∧ c < 3 ∧ cell b (3 * p + a) (3 * p + c) = VNull) ∧
  (∀ a c, a < 3 → c < 3 → (a, c) ∉ pending →
     ∃ d, d < 9 ∧ cell b (3 * p + a) (3 * p + c) = VNum (numOf d)) ∧
  (∀ a c a' c', a < 3 → c < 3 → a' < 3 → c' < 3 →
     (a, c) ∉ pending → (a', c') ∉ pending →
     cell b (3 * p + a) (3 * p + c) = cell b (3 * p + a') (3 * p + c') →
     (a, c) = (a', c')).

(** The values that [Math.floor(Math.random() * 9)] can take. *)
Definition draws (rs : list nat) : Prop := Forall (λ k, k < 9) rs.

(** [p'] is [s] with some cells cleared. *)
Definition carvedFrom (s p' : Board) : Prop :=
  ∀ i j, i < 9 → j < 9 → cell p' i j = VNull ∨ cell p' i j = cell s i j.

(** ** Concrete boards and runs *)

(** Draws that fill each diagonal box with 1–9 in order, then clear the
    first [n] cells in reading order. *)
Definition fillDraws : list nat := seq 0 9 ++ seq 0 9 ++ seq 0 9.
Definition carveDraws (n : nat) : list nat :=
  flat_map (λ k, [k / 9; k mod 9]) (seq 0 n).
Definition rs_easy : list nat := fillDraws ++ carveDraws 30.
Definition rs_hard : list nat := fillDraws ++ carveDraws 56.

(** The board after the three calls of [fillDiagonalBox] on these
    draws. *)
Definition seed0 : Board :=
  let n := VNum in let o := VNull in
  [ [n 1; n 2; n 3; o; o; o; o; o; o];
    [n 4; n 5; n 6; o; o; o; o; o; o];
    [n 7; n 8; n 9; o; o; o; o; o; o];
    [o; o; o; n 1; n 2; n 3; o; o; o];
    [o; o; o; n 4; n 5; n 6; o; o; o];
    [o; o; o; n 7; n 8; n 9; o; o; o];
    [o; o; o; o; o; o; n 1; n 2; n 3];
    [o; o; o; o; o; o; n 4; n 5; n 6];
    [o; o; o; o; o; o; n 7; n 8; n 9] ]%Z.

(** What the solver makes of it. *)
Definition solved0 : Board :=
  let n := VNum in
  [ [n 1; n 2; n 3; n 5; n 4; n 7; n 6; n 9; n 8];
    [n 4; n 5; n 6; n 2; n 9; n 8; n 3; n 1; n 7];
    [n 7; n 8; n 9; n 3; n 6; n 1; n 2; n 4; n 5];
    [n 5; n 6; n 8; n 1; n 2; n 3; n 9; n 7; n 4];
    [n 9; n 1; n 7; n 4; n 5; n 6; n 8; n 3; n 2];
    [n 2; n 3; n 4; n 7; n 8; n 9; n 5; n 6; n 1];
    [n 6; n 9; n 5; n 8; n 7; n 4; n 1; n 2; n 3];
    [n 8; n 7; n 1; n 9; n 3; n 2; n 4; n 5; n 6];
    [n 3; n 4; n 2; n 6; n 1; n 5; n 7; n 8; n 9] ]%Z.

(** [solved0] with its first [n] cells in reading order cleared. *)
Definition cleared (n : nat) : Board :=
  fold_left (λ b k, setCell b (k / 9) (k mod 9) VNull) (seq 0 n) solved0.

(** A board without solution: the two empty cells of the first row
    need 1 and 2, and neither fits the second one. *)
Definition stuck0 : Board :=
  let n := VNum in let o := VNull in
  [ [o; o; n 3; n 4; n 5; n 6; n 7; n 8; n 9];
    [o; o; o; o; o; o; o; o; o];
    [o; o; o; o; o; o; o; o; o];
    [o; n 1; o; o; o; o; o; o; o];
    [o; n 2; o; o; o; o; o; o; o];
    [o; o; o; o; o; o; o; o; o];
    [o; o; o; o; o; o; o; o; o];
    [o; o; o; o; o; o; o; o; o];
    [o; o; o; o; o; o; o; o; o] ]%Z.

(** A full board that breaks every constraint. *)
Definition ones : Board := replicate 9 (replicate 9 (VNum 1)).

(** A board whose only number is a 5 in the top-left cell. *)
Definition lone5 : Board := setCell emptyBoard 0 0 (VNum 5).

(** The store that holds the board [b] as the object [HRef 0], its
    rows being the objects [HRef 1] … *)
Definition ofValue (v : value) : Heap.hval :=
  match v with
  | VUndef => Heap.HUndef
  | VNull => Heap.HNull
  | VNum n => Heap.HNum n
  end.
Definition heapOf (b : Board) : Heap.heap :=
  list_to_map ((0, map Heap.HRef (seq 1 (length b)))
               :: imap (λ k row, (S k, map ofValue row)) b).

From stdpp Require Import strings.

(** ** Puzzles and their completions *)

(** Every cell is empty or holds one of 1–9. *)
Definition digitBoard (b : Board) : Prop :=
  ∀ i j, i < 9 → j < 9 → cell b i j = VNull ∨ cell b i j ∈ digitValues.

(** [s] is a complete valid grid that keeps the numbers of [b]. *)
Definition completionOf (b s : Board) : Prop :=
  grid9 s ∧ validSolution s ∧ extends b s.

(** The number in a cell (0 for an empty cell). *)
Definition numAt (s : Board) (i j : nat) : Z :=
  match cell s i j with
  | VNum n => n
  | _ => 0
  end.

(** [(i', j')] comes before [(i, j)] in reading order. *)
Definition before (i' j' i j : nat) : Prop := i' < i ∨ (i' = i ∧ j' < j).

(** [b'] is [s], or holds the smaller number in the first cell, in
    reading order, where the two differ. *)
Definition lexLe (b' s : Board) : Prop :=
  (∀ i j, i < 9 → j < 9 → cell b' i j = cell s i j) ∨
  ∃ i j, i < 9 ∧ j < 9 ∧
    (∀ i' j', i' < 9 → j' < 9 → before i' j' i j → cell b' i' j' = cell s i' j') ∧
    (numAt b' i j < numAt s i j)%Z.

(** ** The scholar level shown by [App] *)
Module App.




End App.

(** ** The [GameCenter] component

    The component keeps its state with [useState]; a handler reads the
    state of the current render and asks for updates, which React
    applies for the next render.  A handler is embedded as a function
    from the [stats] prop and the state to the argument passed to
    [onUpdateStats], if it was called, and the state of the next
    render. *)
Module GameCenter.

(** The fields of [UserStats] that the application sets up. *)
Record UserStats : Type := {
  points : Z;
  papersRead : Z;
  minutesStudied : Z;
  quizzesTaken : Z
}.

(** [{ ...stats, points: p }] *)
Definition withPoints (stats : UserStats) (p : Z) : UserStats :=
  {| points := p; papersRead := papersRead stats;
     minutesStudied := minutesStudied stats; quizzesTaken := quizzesTaken stats |}.

Definition COST_TO_PLAY_SUDOKU : Z := 50.

Record State : Type := {
  isPlayingSudoku : bool;
  difficulty : Difficulty;
  initialBoard : Board;
  board : Board;
  selectedCell : option (nat * nat);
  message : string;
  isWon : bool
}.

(** The values given to [useState]. *)
Definition initialState : State :=
  {| isPlayingSudoku := false; difficulty := easy; initialBoard := []; board := [];
     selectedCell := None; message := ""; isWon := false |}.

(** The setters. *)
Definition setIsPlayingSudoku (v : bool) (st : State) : State :=
  {| isPlayingSudoku := v; difficulty := difficulty st; initialBoard := initialBoard st;
     board := board st; selectedCell := selectedCell st; message := message st;
     isWon := isWon st |}.
Definition setDifficulty (v : Difficulty) (st : State) : State :=
  {| isPlayingSudoku := isPlayingSudoku st; difficulty := v; initialBoard := initialBoard st;
     board := board st; selectedCell := selectedCell st; message := message st;
     isWon := isWon st |}.
Definition setInitialBoard (v : Board) (st : State) : State :=
  {| isPlayingSudoku := isPlayingSudoku st; difficulty := difficulty st; initialBoard := v;
     board := board st; selectedCell := selectedCell st; message := message st;
     isWon := isWon st |}.
Definition setBoard (v : Board) (st : State) : State :=
  {| isPlayingSudoku := isPlayingSudoku st; difficulty := difficulty st;
     initialBoard := initialBoard st; board := v; selectedCell := selectedCell st;
     message := message st; isWon := isWon st |}.
Definition setSelectedCell (v : option (nat * nat)) (st : State) : State :=
  {| isPlayingSudoku := isPlayingSudoku st; difficulty := difficulty st;
     initialBoard := initialBoard st; board := board st; selectedCell := v;
     message := message st; isWon := isWon st |}.
Definition setMessage (v : string) (st : State) : State :=
  {| isPlayingSudoku := isPlayingSudoku st; difficulty := difficulty st;
     initialBoard := initialBoard st; board := board st; selectedCell := selectedCell st;
     message := v; isWon := isWon st |}.
Definition setIsWon (v : bool) (st : State) : State :=
  {| isPlayingSudoku := isPlayingSudoku st; difficulty := difficulty st;
     initialBoard := initialBoard st; board := board st; selectedCell := selectedCell st;
     message := message st; isWon := v |}.

(** What a handler leaves: the argument of [onUpdateStats] when it was
    called, and the next state. *)
Definition Outcome : Type := option UserStats * State.

(** [startGameSudoku()] *)
Definition startGameSudoku (stats : UserStats) (st : State) : Gen Outcome :=
  λ rs,
    if (points stats <? COST_TO_PLAY_SUDOKU)%Z then
      Some (Ok ((None, setMessage "Insufficient Points. Need 50." st), rs))
    else
      match generateSudoku (difficulty st) rs with
      | None => None
      | Some Throw => Some Throw
      | Some (Ok (inst, rs')) =>
          Some (Ok ((Some (withPoints stats (points stats - COST_TO_PLAY_SUDOKU)),
                     setSelectedCell None
                       (setMessage ""
                          (setIsWon false
                             (setIsPlayingSudoku true
                                (setBoard (puzzle inst)
                                   (setInitialBoard (deepCopy (puzzle inst)) st)))))),
                    rs'))
      end.

(** [board.map(row => [...row])] *)
Definition copyRows (b : Board) : Board := map (λ row : list value, row) b.

(** [difficulty === 'easy' ? 20 : difficulty === 'medium' ? 50 : 100] *)
Definition bonus (d : Difficulty) : Z :=
  match d with
  | easy => 20
  | medium => 50
  | hard => 100
  end.

(** [handleNumberInput(num)] *)
Definition handleNumberInput (stats : UserStats) (st : State) (num : Z) : res Outcome :=
  match selectedCell st with
  | None => Ok (None, st)
  | Some (r, c) =>
      if isWon st then Ok (None, st)
      else
        v ← rd (initialBoard st) r c;
        if negb (strict_eq v VNull) then Ok (None, st)
        else
          newBoard ← wr (copyRows (board st)) r c (VNum num);
          won ← checkWin newBoard;
          if (won : bool) then
            Ok (Some (withPoints stats
                        (points stats - COST_TO_PLAY_SUDOKU + bonus (difficulty st))),
                setMessage "Congratulations! Puzzle Solved!"
                  (setIsWon true (setBoard newBoard st)))
          else Ok (None, setBoard newBoard st)
  end.

(** [handleDelete()] *)
Definition handleDelete (st : State) : res Outcome :=
  match selectedCell st with
  | None => Ok (None, st)
  | Some (r, c) =>
      if isWon st then Ok (None, st)
      else
        v ← rd (initialBoard st) r c;
        if negb (strict_eq v VNull) then Ok (None, st)
        else
          newBoard ← wr (copyRows (board st)) r c VNull;
          Ok (None, setBoard newBoard st)
  end.

(** [handleKey(e)], the [keydown] listener; [parseInt] is the
    built-in, [None] standing for [NaN]. *)
Definition handleKey (parseInt : string → option Z) (stats : UserStats) (st : State)
    (key : string) : res Outcome :=
  if negb (isPlayingSudoku st) || isWon st then Ok (None, st)
  else
    match selectedCell st with
    | None => Ok (None, st)
    | Some (r, c) =>
        let isDigit :=
          match parseInt key with
          | Some num => (1 <=? num)%Z && (num <=? 9)%Z
          | None => false
          end in
        if isDigit then handleNumberInput stats st (default 0%Z (parseInt key))
        else if bool_decide (key = "Backspace") || bool_decide (key = "Delete")
        then handleDelete st
        else if bool_decide (key = "ArrowUp")
        then Ok (None, setSelectedCell (Some (Nat.max 0 (r - 1), c)) st)
        else if bool_decide (key = "ArrowDown")
        then Ok (None, setSelectedCell (Some (Nat.min 8 (r + 1), c)) st)
        else if bool_decide (key = "ArrowLeft")
        then Ok (None, setSelectedCell (Some (r, Nat.max 0 (c - 1))) st)
        else if bool_decide (key = "ArrowRight")
        then Ok (None, setSelectedCell (Some (r, Nat.min 8 (c + 1))) st)
        else Ok (None, st)
    end.

(** The red mark of the cell [(rIdx, cIdx)] in the rendered grid. *)
Definition isConflict (st : State) (rIdx cIdx : nat) : res bool :=
  cell ← rd (board st) rIdx cIdx;
  isInitial ←
    (if decide (0 < length (initialBoard st)) then
       v ← rd (initialBoard st) rIdx cIdx; Ok (negb (strict_eq v VNull))
     else Ok false);
  if negb (strict_eq cell VNull) && negb isInitial then
    temp ← wr (copyRows (board st)) rIdx cIdx VNull;
    safe ← isSafe temp rIdx cIdx cell;
    Ok (negb safe)
  else Ok false.

(** *** The component as a transition system *)

(** What the user can do: the controls of the rendered page and the
    keyboard. *)
Inductive event : Type :=
  | ClickStart
  | ClickDifficulty (d : Difficulty)
  | ClickCell (rIdx cIdx : nat)
  | ClickNumber (num : Z)
  | ClickClear
  | KeyDown (key : string)
  | ClickPlayAgain
  | ClickQuit (confirmed : bool).

(** Whether the control of the event is on the page in the state [st]:
    the start page is shown when no puzzle is played, the grid and
    the quit button when one is, the number pad until the puzzle is
    won and the play-again link afterwards. *)
Definition rendered (st : State) (e : event) : bool :=
  match e with
  | ClickStart | ClickDifficulty _ => negb (isPlayingSudoku st)
  | ClickCell rIdx cIdx =>
      isPlayingSudoku st
      && match board st !! rIdx with
         | Some row => bool_decide (cIdx < length row)
         | None => false
         end
  | ClickNumber num =>
      isPlayingSudoku st && negb (isWon st) && bool_decide (num ∈ digits)
  | ClickClear => isPlayingSudoku st && negb (isWon st)
  | KeyDown _ => true
  | ClickPlayAgain => isPlayingSudoku st && isWon st
  | ClickQuit _ => isPlayingSudoku st
  end.

(** The parent applies [onUpdateStats] ([updateStats] of [App]): the
    [stats] prop of the next render is the argument of the call. *)
Definition applyOutcome (stats : UserStats) (o : Outcome) : UserStats * State :=
  (default stats o.1, o.2).

(** One event: the handler wired to the control runs; an event whose
    control is not on the page does not happen and leaves the state. *)
Definition step (parseInt : string → option Z) (σ : UserStats * State) (e : event)
  : Gen (UserStats * State) :=
  λ rs,
    let '(stats, st) := σ in
    if negb (rendered st e) then Some (Ok (σ, rs))
    else
      match e with
      | ClickStart =>
          match startGameSudoku stats st rs with
          | None => None
          | Some Throw => Some Throw
          | Some (Ok (o, rs')) => Some (Ok (applyOutcome stats o, rs'))
          end
      | ClickDifficulty d => Some (Ok ((stats, setDifficulty d st), rs))
      | ClickCell rIdx cIdx => Some (Ok ((stats, setSelectedCell (Some (rIdx, cIdx)) st), rs))
      | ClickNumber num =>
          match handleNumberInput stats st num with
          | Throw => Some Throw
          | Ok o => Some (Ok (applyOutcome stats o, rs))
          end
      | ClickClear =>
          match handleDelete st with
          | Throw => Some Throw
          | Ok o => Some (Ok (applyOutcome stats o, rs))
          end
      | KeyDown key =>
          match handleKey parseInt stats st key with
          | Throw => Some Throw
          | Ok o => Some (Ok (applyOutcome stats o, rs))
          end
      | ClickPlayAgain => Some (Ok ((stats, setIsPlayingSudoku false st), rs))
      | ClickQuit confirmed =>
          Some (Ok ((stats, if confirmed then setIsPlayingSudoku false st else st), rs))
      end.

(** A sequence of events. *)
Fixpoint run (parseInt : string → option Z) (σ : UserStats * State) (es : list event)
  : Gen (UserStats * State) :=
  λ rs,
    match es with
    | [] => Some (Ok (σ, rs))
    | e :: es' =>
        match step parseInt σ e rs with
        | None => None
        | Some Throw => Some Throw
        | Some (Ok (σ', rs')) => run parseInt σ' es' rs'
        end
    end.

(** What holds of the state while a puzzle is played. *)
Definition playing (st : State) : Prop :=
  grid9 (board st) ∧ grid9 (initialBoard st) ∧ digitBoard (board st) ∧
  (∃ s, grid9 s ∧ validSolution s ∧ carvedFrom s (initialBoard st)) ∧
  (∀ i j, i < 9 → j < 9 → cell (initialBoard st) i j ≠ VNull →
          cell (board st) i j = cell (initialBoard st) i j) ∧
  (∀ r c, selectedCell st = Some (r, c) → r < 9 ∧ c < 9) ∧
  (isWon st = true → validSolution (board st)).

(** The only call of [onUpdateStats] by an edit of the board is the
    one of a win. *)
Definition paidOnWin (stats : UserStats) (st : State) (o : Outcome) : Prop :=
  match o.1 with
  | Some stats' =>
      isWon st = false ∧ isWon o.2 = true ∧
      stats' = withPoints stats (points stats - COST_TO_PLAY_SUDOKU + bonus (difficulty st))
  | None => isWon o.2 = isWon st
  end.

(** What holds of the points and the state after any sequence of
    events, [p0] being the points on entering the component. *)
Definition inv (p0 : Z) (σ : UserStats * State) : Prop :=
  (isPlayingSudoku σ.2 = true → playing σ.2) ∧
  (points σ.1 ≤ p0)%Z ∧
  (isPlayingSudoku σ.2 = true → isWon σ.2 = false →
   (points σ.1 ≤ p0 - COST_TO_PLAY_SUDOKU)%Z).

(** *** Concrete states *)

Definition stats0 : UserStats :=
  {| points := 120; papersRead := 2; minutesStudied := 12; quizzesTaken := 1 |}.

(** The state after a start with the draws [rs_easy]. *)
Definition game0 : State :=
  {| isPlayingSudoku := true; difficulty := easy; initialBoard := cleared 30;
     board := cleared 30; selectedCell := None; message := ""; isWon := false |}.


(** The first cell selected in the new game. *)
Definition game2 : State := setSelectedCell (Some (0, 0)) game0.

(** Start a game, then click each empty cell and the number that
    belongs there. *)
Definition events0 : list event :=
  ClickStart
  :: flat_map (λ k, [ClickCell (k / 9) (k mod 9);
                     ClickNumber (numAt solved0 (k / 9) (k mod 9))]) (seq 0 30).

(** The state that these events lead to. *)
Definition won0 : State :=
  {| isPlayingSudoku := true; difficulty := easy; initialBoard := cleared 30;
     board := solved0; selectedCell := Some (3, 2);
     message := "Congratulations! Puzzle Solved!"; isWon := true |}.

(** [parseInt] on the names of the keys used below. *)
Definition parseKey (key : string) : option Z :=
  if bool_decide (key = "1") then Some 1%Z
  else if bool_decide (key = "7") then Some 7%Z
  else None.

End GameCenter.

(** ** The entries kept in [localStorage]

    [localStorage] maps keys to strings: [getItem] is the lookup, with
    [null] for a missing key, [setItem] the insertion and [removeItem]
    the deletion. *)
Definition Store : Type := gmap string string.

(** [if (s)] for a string or [null]: the empty string counts as [null]. *)
Definition truthy (s : option string) : bool :=
  match s with
  | Some v => bool_decide (v ≠ "")
  | None => false
  end.

(** The keys and the stats entry of [App]. *)
Module AppStore.

(** ['scholarAi_currentUser'] *)
Definition currentUserKey : string := "scholarAi_currentUser".

(** [`scholarAi_${user}_stats`] *)
Definition statsKey (user : string) : string := "scholarAi_" +:+ user +:+ "_stats".

(** [`scholarAi_${user}_settings`] *)
Definition settingsKey (user : string) : string := "scholarAi_" +:+ user +:+ "_settings".

(** [updateStats(newStats)] with the [user] of the current render: the
    pair is the [stats] state and the store; [stringify] is
    [JSON.stringify]. *)
Definition updateStats (stringify : GameCenter.UserStats → string)
    (user : option string) (newStats : GameCenter.UserStats)
    (σ : GameCenter.UserStats * Store) : GameCenter.UserStats * Store :=
  (newStats,
   if truthy user
   then <[statsKey (default "" user) := stringify newStats]> σ.2
   else σ.2).

End AppStore.

Module Dashboard.

(** [getStorageKey(key)] with the props [username] and
    [settings.researchField]. *)
Definition getStorageKey (username researchField key : string) : string :=
  "scholarAi_" +:+ username +:+ "_" +:+ key +:+ "_" +:+ researchField.

End Dashboard.

Module ResearchChat.

(** [`scholarAi_${username}_chat_history`] *)
Definition storageKey (username : string) : string :=
  "scholarAi_" +:+ username +:+ "_chat_history".

End ResearchChat.

(** The history key and the quiz of [LitReview]. *)
Module LitReview.
Import GameCenter.

(** [`scholarAi_${username}_lit_review_history`] *)
Definition historyKey (username : string) : string :=
  "scholarAi_" +:+ username +:+ "_lit_review_history".

Record QuizQuestion : Type := {
  question : string;
  options : list string;
  correctAnswerIndex : Z;
  explanation : string
}.

(** The quiz part of the state of the component.  A slot of
    [quizAnswers] is a number or, in an array that an assignment has
    extended, empty ([None]) and read as [undefined]. *)
Record QuizState : Type := {
  quizQuestions : list QuizQuestion;
  quizAnswers : list (option Z);
  quizSubmitted : bool;
  pointsEarned : Z
}.

Definition setQuizAnswers (v : list (option Z)) (st : QuizState) : QuizState :=
  {| quizQuestions := quizQuestions st; quizAnswers := v;
     quizSubmitted := quizSubmitted st; pointsEarned := pointsEarned st |}.

(** The updates of [handleGenerateQuiz] once [generateQuiz] has
    answered with [questions]: [setQuizQuestions(questions)],
    [setQuizAnswers(new Array(questions.length).fill(-1))] and
    [setQuizSubmitted(false)]. *)
Definition quizGenerated (questions : list QuizQuestion) (st : QuizState) : QuizState :=
  {| quizQuestions := questions;
     quizAnswers := replicate (length questions) (Some (-1)%Z);
     quizSubmitted := false; pointsEarned := pointsEarned st |}.

(** [next[qIdx] = oIdx]: an index past the end extends the array. *)
Definition assign (next : list (option Z)) (qIdx : nat) (oIdx : Z) : list (option Z) :=
  if decide (qIdx < length next) then <[qIdx := Some oIdx]> next
  else next ++ replicate (qIdx - length next) None ++ [Some oIdx].

(** [onClick] of the option [oIdx] of the question [qIdx]. *)
Definition selectOption (st : QuizState) (qIdx oIdx : nat) : QuizState :=
  if negb (quizSubmitted st)
  then setQuizAnswers (assign (quizAnswers st) qIdx (Z.of_nat oIdx)) st
  else st.

(** The loop [quizQuestions.forEach((q, idx) => ...)] from the index
    [idx] on, with the counter [correctCount]. *)
Fixpoint forEachQuestion (questions : list QuizQuestion) (idx : nat)
    (answers : list (option Z)) (correctCount : Z) : Z :=
  match questions with
  | [] => correctCount
  | q :: questions' =>
      forEachQuestion questions' (S idx) answers
        (if bool_decide (answers !! idx = Some (Some (correctAnswerIndex q)))
         then (correctCount + 1)%Z else correctCount)
  end.

(** [handleQuizSubmit()] with the [userStats] prop: the argument of
    [onUpdateStats], if it was called, and the next state; the first
    case is the one of the alert. *)
Definition handleQuizSubmit (userStats : UserStats) (st : QuizState)
  : option UserStats * QuizState :=
  if bool_decide (Some (-1)%Z ∈ quizAnswers st) then (None, st)
  else
    let correctCount := forEachQuestion (quizQuestions st) 0 (quizAnswers st) 0%Z in
    let earned := (correctCount * 20)%Z in
    (Some {| points := points userStats + earned;
             papersRead := papersRead userStats;
             minutesStudied := minutesStudied userStats;
             quizzesTaken := quizzesTaken userStats + 1 |},
     {| quizQuestions := quizQuestions st; quizAnswers := quizAnswers st;
        quizSubmitted := true; pointsEarned := earned |}).

(** The option chosen for the question [i] by the clicks, [-1] for
    none: the last one counts. *)
Definition chosen (clicks : list (nat * nat)) (i : nat) : Z :=
  foldl (λ acc c, if decide (c.1 = i) then Z.of_nat c.2 else acc) (-1)%Z clicks.

(** The clicks on the options, in order. *)
Definition selectAll (st : QuizState) (clicks : list (nat * nat)) : QuizState :=
  foldl (λ s c, selectOption s c.1 c.2) st clicks.

(** The quiz state of the first render. *)
Definition initialQuiz : QuizState :=
  {| quizQuestions := []; quizAnswers := []; quizSubmitted := false; pointsEarned := 0 |}.

(** A quiz of two questions and three clicks, the last one a change of
    the first answer. *)
Definition quiz0 : list QuizQuestion :=
  [ {| question := "q1"; options := ["a"; "b"; "c"; "d"];
       correctAnswerIndex := 3; explanation := "" |};
    {| question := "q2"; options := ["a"; "b"; "c"; "d"];
       correctAnswerIndex := 0; explanation := "" |} ].

Definition clicks0 : list (nat * nat) := [(0, 1); (1, 2); (0, 3)].

End LitReview.

(** ** The [AuthScreen] component

    A handler is a function from the store and the state of the current
    render to the store, the state of the next render and the argument
    of [onLogin], if it was called.  [trim] is [String.prototype.trim]. *)
Module AuthScreen.

Record State : Type := {
  username : string;
  password : string;
  error : string;
  showRegisterPrompt : bool
}.

Definition initialState : State :=
  {| username := ""; password := ""; error := ""; showRegisterPrompt := false |}.

Definition setUsername (v : string) (st : State) : State :=
  {| username := v; password := password st; error := error st;
     showRegisterPrompt := showRegisterPrompt st |}.

Definition setPassword (v : string) (st : State) : State :=
  {| username := username st; password := v; error := error st;
     showRegisterPrompt := showRegisterPrompt st |}.

Definition setError (v : string) (st : State) : State :=
  {| username := username st; password := password st; error := v;
     showRegisterPrompt := showRegisterPrompt st |}.

Definition setShowRegisterPrompt (v : bool) (st : State) : State :=
  {| username := username st; password := password st; error := error st;
     showRegisterPrompt := v |}.

Definition Outcome : Type := Store * State * option string.

(** [`scholarAi_user_creds_${username.trim()}`] *)
Definition userKey (name : string) : string := "scholarAi_user_creds_" +:+ name.

Section Trim.

Variable trim : string → string.

Definition handleRegister (σ : Store) (st : State) : Outcome :=
  (<[userKey (trim (username st)) := password st]> σ, st, Some (trim (username st))).

Definition handleSubmit (σ : Store) (st : State) : Outcome :=
  let st1 := setError "" st in
  if showRegisterPrompt st then handleRegister σ st1
  else if negb (truthy (Some (trim (username st))))
          || negb (truthy (Some (trim (password st))))
  then (σ, setError "Please fill in all fields" st1, None)
  else
    let storedPassword := σ !! userKey (trim (username st)) in
    if truthy storedPassword then
      if bool_decide (storedPassword = Some (password st))
      then (σ, st1, Some (trim (username st)))
      else (σ, setShowRegisterPrompt false
                 (setError "Incorrect password. Please try again." st1), None)
    else (σ, setShowRegisterPrompt true st1, None).

(** What the user can do on the page. *)
Inductive event : Type :=
  | ChangeUsername (value : string)
  | ChangePassword (value : string)
  | Submit
  | ClickCancel
  | ClickCreate.

(** Whether the control of the event is usable in the state [st]: the
    two inputs are disabled while the prompt is shown, and the prompt
    has the buttons Cancel and Create.  [handleSubmit] is written for
    both cases, so the submission of the form is taken at any time. *)
Definition rendered (st : State) (e : event) : bool :=
  match e with
  | ChangeUsername _ | ChangePassword _ => negb (showRegisterPrompt st)
  | Submit => true
  | ClickCancel | ClickCreate => showRegisterPrompt st
  end.

(** One event; an event whose control is not usable does not happen. *)
Definition step (σ : Store) (st : State) (e : event) : Outcome :=
  if negb (rendered st e) then (σ, st, None)
  else
    match e with
    | ChangeUsername value =>
        (σ, setError "" (setShowRegisterPrompt false (setUsername value st)), None)
    | ChangePassword value =>
        (σ, setError "" (setShowRegisterPrompt false (setPassword value st)), None)
    | Submit => handleSubmit σ st
    | ClickCancel => (σ, setShowRegisterPrompt false st, None)
    | ClickCreate => handleRegister σ st
    end.

(** A sequence of events, up to the first call of [onLogin], after
    which [App] shows the application in place of this screen. *)
Fixpoint run (σ : Store) (st : State) (es : list event) : Outcome :=
  match es with
  | [] => (σ, st, None)
  | e :: es' =>
      match step σ st e with
      | (σ', st', None) => run σ' st' es'
      | o => o
      end
  end.

End Trim.

End AuthScreen.

(** * Proofs *)

Ltac Zify.zify_post_hook ::= Z.to_euclidean_division_equations.

(** * Verification *)

(** Let [lia] reason about division and remainder by a literal. *)

(** ** Loops with early exit *)

Lemma anyM_ok {A} (f : A → res bool) (g : A → bool) (l : list A) :
  (∀ x, x ∈ l → f x = Ok (g x)) → anyM f l = Ok (existsb g l).
Proof.
  induction l as [|x l IH]; intros Hf; simpl; [done|].
  rewrite (Hf x) by left. destruct (g x); simpl; [done|].
  apply IH. intros y Hy. apply Hf. by right.
Qed.

Lemma findM_ok {A} (f : A → res bool) (g : A → bool) (l : list A) :
  (∀ x, x ∈ l → f x = Ok (g x)) → findM f l = Ok (find g l).
Proof.
  induction l as [|x l IH]; intros Hf; simpl; [done|].
  rewrite (Hf x) by left. destruct (g x); simpl; [done|].
  apply IH. intros y Hy. apply Hf. by right.
Qed.

Lemma elem_of_grid_cells n i j : (i, j) ∈ grid_cells n ↔ i < n ∧ j < n.
Proof.
  unfold grid_cells. rewrite list_elem_of_bind. split.
  - intros (i' & Hin & Hi'). apply list_elem_of_bind in Hin as (j' & Hin & Hj').
    apply list_elem_of_singleton in Hin. inversion Hin; subst.
    apply elem_of_seq in Hi', Hj'. lia.
  - intros [Hi Hj]. exists i. split; [|apply elem_of_seq; lia].
    apply list_elem_of_bind. exists j. split; [by apply list_elem_of_singleton|].
    apply elem_of_seq; lia.
Qed.

Lemma strict_eq_true a b : strict_eq a b = true ↔ a = b.
Proof.
  destruct a, b; simpl; split; intros H; try done; try congruence.
  - apply Z.eqb_eq in H. by subst.
  - inversion H; subst. apply Z.eqb_refl.
Qed.

Lemma strict_eq_false a b : strict_eq a b = false ↔ a ≠ b.
Proof.
  rewrite <- strict_eq_true. destruct (strict_eq a b); split; congruence.
Qed.

Lemma strict_eq_refl a : strict_eq a a = true.
Proof. by apply strict_eq_true. Qed.

(** ** Reading and writing well-formed boards *)

Lemma grid9_lookup b i j :
  grid9 b → i < 9 → j < 9 →
  ∃ row v, b !! i = Some row ∧ row !! j = Some v ∧ length row = 9 ∧ v ≠ VUndef.
Proof.
  intros [Hlen Hrows] Hi Hj.
  destruct (lookup_lt_is_Some_2 b i) as [row Hrow]; [lia|].
  rewrite Forall_forall in Hrows.
  destruct (Hrows row) as [Hl Hv]; [by eapply list_elem_of_lookup_2|].
  destruct (lookup_lt_is_Some_2 row j) as [v Hv']; [lia|].
  exists row, v. repeat split; try done.
  rewrite Forall_forall in Hv. apply Hv. by eapply list_elem_of_lookup_2.
Qed.

Lemma rd_cell b i j : grid9 b → i < 9 → j < 9 → rd b i j = Ok (cell b i j).
Proof.
  intros Hg Hi Hj. destruct (grid9_lookup b i j) as (row & v & Hr & Hv & _); try done.
  unfold rd, cell. rewrite Hr. simpl. by rewrite Hv.
Qed.

Lemma cell_defined b i j : grid9 b → i < 9 → j < 9 → cell b i j ≠ VUndef.
Proof.
  intros Hg Hi Hj. destruct (grid9_lookup b i j) as (row & v & Hr & Hv & _ & Hne); try done.
  unfold cell. rewrite Hr. simpl. by rewrite Hv.
Qed.

Lemma wr_setCell b i j v :
  grid9 b → i < 9 → j < 9 → wr b i j v = Ok (setCell b i j v).
Proof.
  intros Hg Hi Hj. destruct (grid9_lookup b i j) as (row & w & Hr & Hw & Hl & _); try done.
  unfold wr, setCell. rewrite Hr. f_equal.
  unfold wr_row. rewrite decide_True by lia.
  apply list_eq. intros k. destruct (decide (k = i)) as [->|Hne].
  - rewrite list_lookup_insert_eq by (by eapply lookup_lt_Some).
    by rewrite list_lookup_alter_eq, Hr.
  - rewrite list_lookup_insert_ne by done. by rewrite list_lookup_alter_ne.
Qed.

Lemma grid9_setCell b i j v : grid9 b → v ≠ VUndef → grid9 (setCell b i j v).
Proof.
  intros [Hlen Hrows] Hv. unfold setCell. split; [by rewrite length_alter|].
  apply Forall_alter; [done|]. intros row Hrow [Hl Hvs].
  split; [by rewrite length_insert|].
  apply Forall_insert; done.
Qed.

Lemma cell_setCell_eq b i j v :
  grid9 b → i < 9 → j < 9 → cell (setCell b i j v) i j = v.
Proof.
  intros Hg Hi Hj. destruct (grid9_lookup b i j) as (row & w & Hr & Hw & Hl & _); try done.
  unfold cell, setCell. rewrite list_lookup_alter_eq, Hr. simpl.
  rewrite list_lookup_insert_eq by lia. done.
Qed.

Lemma cell_setCell_ne b i j v i' j' :
  (i', j') ≠ (i, j) → cell (setCell b i j v) i' j' = cell b i' j'.
Proof.
  intros Hne. unfold cell, setCell.
  destruct (decide (i' = i)) as [->|Hi].
  - rewrite list_lookup_alter_eq. destruct (b !! i) as [row|]; simpl; [|done].
    rewrite list_lookup_insert_ne; [done|]. congruence.
  - by rewrite list_lookup_alter_ne.
Qed.

Lemma board_ext b b' :
  grid9 b → grid9 b' →
  (∀ i j, i < 9 → j < 9 → cell b i j = cell b' i j) → b = b'.
Proof.
  intros [Hl Hrows] [Hl' Hrows'] Hc.
  rewrite Forall_forall in Hrows, Hrows'.
  apply (list_eq_same_length _ _ 9); [done|done|].
  intros i row row' Hi Hr Hr'.
  destruct (Hrows row) as [Hlr _]; [by eapply list_elem_of_lookup_2|].
  destruct (Hrows' row') as [Hlr' _]; [by eapply list_elem_of_lookup_2|].
  apply (list_eq_same_length _ _ 9); [done|done|].
  intros j v v' Hj Hv Hv'. specialize (Hc i j Hi Hj).
  unfold cell in Hc. rewrite Hr, Hr' in Hc. simpl in Hc.
  rewrite Hv, Hv' in Hc. done.
Qed.

Lemma setCell_same b i j :
  grid9 b → i < 9 → j < 9 → setCell b i j (cell b i j) = b.
Proof.
  intros Hg Hi Hj. apply board_ext; try done.
  - apply grid9_setCell; [done|]. by apply cell_defined.
  - intros i' j' Hi' Hj'. destruct (decide ((i', j') = (i, j))) as [Heq|Hne].
    + inversion Heq; subst. by apply cell_setCell_eq.
    + by apply cell_setCell_ne.
Qed.

Lemma setCell_setCell b i j v w :
  setCell (setCell b i j v) i j w = setCell b i j w.
Proof.
  unfold setCell. rewrite list_alter_alter_eq. apply list_alter_ext; [|done].
  intros row _. simpl. by rewrite list_insert_insert_eq.
Qed.

(** ** The legality check *)

Lemma box_start r : r - r mod 3 = 3 * (r / 3).
Proof. lia. Qed.

Lemma box_member r i : (i / 3 = r / 3) ↔ ∃ k, k < 3 ∧ i = k + (r - r mod 3).
Proof.
  split.
  - intros H. exists (i mod 3). lia.
  - intros (k & Hk & ->). lia.
Qed.

Lemma Ok_inj {A} (x y : A) : Ok x = Ok y → x = y.
Proof. by intros [=]. Qed.

Lemma bind_Ok {A B} (a : A) (f : A → res B) : (Ok a ≫= f) = f a.
Proof. done. Qed.

Lemma isSafe_eval b r c num :
  grid9 b → r < 9 → c < 9 → isSafe b r c num = Ok (negb (unitScan b r c num)).
Proof.
  intros Hg Hr Hc. unfold isSafe, unitScan.
  rewrite (anyM_ok _ (λ x, strict_eq (cell b r x) num || strict_eq (cell b x c) num)).
  2:{ intros x Hx. apply elem_of_seq in Hx.
      rewrite !rd_cell by (done || lia). rewrite bind_Ok.
      destruct (strict_eq (cell b r x) num); done. }
  rewrite bind_Ok.
  destruct (existsb (λ x, strict_eq (cell b r x) num || strict_eq (cell b x c) num) (seq 0 9));
    [done|].
  rewrite (anyM_ok _ (λ '(i, j), strict_eq (cell b (i + (r - r mod 3)) (j + (c - c mod 3))) num)).
  2:{ intros [i j] Hij. apply elem_of_grid_cells in Hij.
      rewrite rd_cell by (done || lia). done. }
  done.
Qed.

Lemma unitScan_true b r c num :
  r < 9 → c < 9 → unitScan b r c num = true ↔ occursInUnits b r c num.
Proof.
  intros Hr Hc. unfold unitScan, occursInUnits, sameUnit.
  rewrite orb_true_iff, !existsb_exists. split.
  - intros [(x & Hx & H)|([i j] & Hij & H)].
    + apply in_seq in Hx. apply orb_true_iff in H as [H|H]; apply strict_eq_true in H.
      * exists r, x. split_and!; [lia|lia|by left|done].
      * exists x, c. split_and!; [lia|lia|by right; left|done].
    + apply list_elem_of_In, elem_of_grid_cells in Hij. apply strict_eq_true in H.
      exists (i + (r - r mod 3)), (j + (c - c mod 3)).
      split_and!; [lia|lia| |done]. right; right. lia.
  - intros (i & j & Hi & Hj & [->|[->|[Hbi Hbj]]] & H); apply strict_eq_true in H.
    + left. exists j. split; [apply in_seq; lia|]. by rewrite H.
    + left. exists i. split; [apply in_seq; lia|]. rewrite H. apply orb_true_r.
    + right. apply box_member in Hbi as (k & Hk & ->).
      apply box_member in Hbj as (l & Hl & ->).
      exists (k, l). split; [|done]. apply list_elem_of_In, elem_of_grid_cells. done.
Qed.

Lemma isSafe_false_iff b r c num :
  grid9 b → r < 9 → c < 9 →
  isSafe b r c num = Ok false ↔ occursInUnits b r c num.
Proof.
  intros Hg Hr Hc. rewrite isSafe_eval by done.
  rewrite <- unitScan_true by done.
  destruct (unitScan b r c num); simpl; split; congruence.
Qed.

Lemma isSafe_true_iff b r c num :
  grid9 b → r < 9 → c < 9 →
  isSafe b r c num = Ok true ↔ ¬ occursInUnits b r c num.
Proof.
  intros Hg Hr Hc. rewrite isSafe_eval by done.
  rewrite <- unitScan_true by done.
  destruct (unitScan b r c num); simpl; split; congruence.
Qed.

Lemma isSafe_no_throw b r c num :
  grid9 b → r < 9 → c < 9 → isSafe b r c num ≠ Throw.
Proof. intros. by rewrite isSafe_eval. Qed.

Lemma sameUnit_refl r c : sameUnit r c r c.
Proof. by left. Qed.

Lemma occurs_units_peers b r c num :
  r < 9 → c < 9 → cell b r c ≠ num →
  occursInUnits b r c num ↔ occursInPeers b r c num.
Proof.
  intros Hr Hc Hne. split.
  - intros (i & j & Hi & Hj & Hu & H). exists i, j. repeat split; try done.
    intros Heq. inversion Heq; subst. done.
  - intros (i & j & Hi & Hj & _ & Hu & H). by exists i, j.
Qed.

(** ** Counting cells *)

Lemma count_insert {A} (P : A → Prop) `{!∀ x, Decision (P x)} (l : list A) j old v :
  l !! j = Some old →
  length (filter P (<[j := v]> l)) + (if decide (P old) then 1 else 0)
  = length (filter P l) + (if decide (P v) then 1 else 0).
Proof.
  revert j. induction l as [|x l IH]; intros [|j] Hj; simplify_eq/=.
  - rewrite !filter_cons. repeat case_decide; simpl; lia.
  - specialize (IH j Hj). rewrite !filter_cons. destruct (decide (P x)); simpl; lia.
Qed.

Lemma count_concat_alter {A} (P : A → Prop) `{!∀ x, Decision (P x)}
    (f : list A → list A) (b : list (list A)) i row :
  b !! i = Some row →
  length (filter P (concat (alter f i b))) + length (filter P row)
  = length (filter P (concat b)) + length (filter P (f row)).
Proof.
  revert i. induction b as [|r b IH]; intros [|i] Hi; simplify_eq/=.
  - rewrite !filter_app, !length_app. lia.
  - specialize (IH i Hi). rewrite !filter_app, !length_app. lia.
Qed.

Lemma count_setCell (P : value → Prop) `{!∀ x, Decision (P x)} b i j v :
  grid9 b → i < 9 → j < 9 →
  length (filter P (concat (setCell b i j v))) + (if decide (P (cell b i j)) then 1 else 0)
  = length (filter P (concat b)) + (if decide (P v) then 1 else 0).
Proof.
  intros Hg Hi Hj. destruct (grid9_lookup b i j) as (row & w & Hr & Hw & _); try done.
  unfold setCell, cell. rewrite Hr. simpl. rewrite Hw. simpl.
  pose proof (count_concat_alter P (λ row, <[j := v]> row) b i row Hr) as H1.
  pose proof (count_insert P row j w v Hw) as H2. simpl in H1. lia.
Qed.

Lemma countNull_place b i j n :
  grid9 b → i < 9 → j < 9 → cell b i j = VNull →
  S (countNull (setCell b i j (VNum n))) = countNull b.
Proof.
  intros Hg Hi Hj Hc. unfold countNull.
  pose proof (count_setCell (λ v, v = VNull) b i j (VNum n) Hg Hi Hj) as H.
  rewrite Hc in H. rewrite decide_True in H by done.
  rewrite decide_False in H by done. lia.
Qed.

Lemma count_split (b : Board) : countNull b + countClues b = length (concat b).
Proof.
  unfold countNull, countClues. induction (concat b) as [|x l IH]; [done|].
  rewrite !filter_cons. destruct (decide (x = VNull)); simpl.
  - rewrite decide_False by tauto. simpl. lia.
  - rewrite decide_True by done. simpl. lia.
Qed.

Lemma grid9_cells b : grid9 b → length (concat b) = 81.
Proof.
  intros [Hl Hrows].
  assert (∀ l : list (list value), Forall (λ row, length row = 9) l →
                                   length (concat l) = 9 * length l) as Hgen.
  { induction 1 as [|r l Hr _ IH]; simpl; [done|]. rewrite length_app. lia. }
  rewrite Hgen, Hl; [done|]. eapply Forall_impl; [done|]. by intros ? [? _].
Qed.

Lemma countNull_le_81 b : grid9 b → countNull b ≤ 81.
Proof. intros Hg. pose proof (count_split b). rewrite grid9_cells in H by done. lia. Qed.

(** ** The scan for the first empty cell *)

Lemma findEmpty_eval b :
  grid9 b →
  findEmpty b = Ok (find (λ '(i, j), strict_eq (cell b i j) VNull) (grid_cells 9)).
Proof.
  intros Hg. unfold findEmpty. apply findM_ok.
  intros [i j] Hij. apply elem_of_grid_cells in Hij.
  rewrite rd_cell by (done || lia). done.
Qed.

Lemma findEmpty_Some b r c :
  grid9 b → findEmpty b = Ok (Some (r, c)) → r < 9 ∧ c < 9 ∧ cell b r c = VNull.
Proof.
  intros Hg. rewrite findEmpty_eval by done. intros H. apply Ok_inj in H.
  apply find_some in H as [Hin H]. apply list_elem_of_In, elem_of_grid_cells in Hin.
  apply strict_eq_true in H. tauto.
Qed.

Lemma findEmpty_None b : grid9 b → findEmpty b = Ok None ↔ full b.
Proof.
  intros Hg. rewrite findEmpty_eval by done. split.
  - intros H i j Hi Hj. apply Ok_inj in H.
    pose proof (find_none _ _ H (i, j)) as Hn. cbv beta iota in Hn.
    rewrite <- list_elem_of_In, elem_of_grid_cells in Hn.
    specialize (Hn (conj Hi Hj)). apply strict_eq_false in Hn.
    pose proof (cell_defined b i j Hg Hi Hj).
    destruct (cell b i j); try done. by eexists.
  - intros Hf. f_equal.
    destruct (find _ _) as [[i j]|] eqn:H; [|done].
    apply find_some in H as [Hin H]. apply list_elem_of_In, elem_of_grid_cells in Hin.
    apply strict_eq_true in H. destruct (Hf i j) as [n Hn]; try tauto. congruence.
Qed.

Lemma findEmpty_no_throw b : grid9 b → findEmpty b ≠ Throw.
Proof. intros Hg. by rewrite findEmpty_eval. Qed.

Lemma filter_none {A} (P : A → Prop) `{!∀ x, Decision (P x)} (l : list A) :
  (∀ x, x ∈ l → ¬ P x) → filter P l = [].
Proof.
  induction l as [|x l IH]; intros Hall; [done|].
  rewrite filter_cons, decide_False by (apply Hall; left).
  apply IH. intros y Hy. apply Hall. by right.
Qed.

Lemma elem_of_board (b : Board) v :
  grid9 b → v ∈ concat b → ∃ i j, i < 9 ∧ j < 9 ∧ cell b i j = v.
Proof.
  intros [Hl Hrows] Hv.
  apply list_elem_of_In, in_concat in Hv as (row & Hrow & Hv).
  apply list_elem_of_In, list_elem_of_lookup in Hrow as [i Hi].
  apply list_elem_of_In, list_elem_of_lookup in Hv as [j Hj].
  rewrite Forall_forall in Hrows.
  destruct (Hrows row) as [Hlr _]; [by eapply list_elem_of_lookup_2|].
  exists i, j. split_and!.
  - apply lookup_lt_Some in Hi. lia.
  - apply lookup_lt_Some in Hj. lia.
  - unfold cell. rewrite Hi. simpl. by rewrite Hj.
Qed.

Lemma full_countNull b : grid9 b → full b → countNull b = 0.
Proof.
  intros Hg Hf. unfold countNull. rewrite filter_none; [done|].
  intros v Hv ->. apply elem_of_board in Hv as (i & j & Hi & Hj & Hc); [|done].
  destruct (Hf i j) as [n Hn]; congruence.
Qed.

(** ** The backtracking solver *)

Lemma sameUnit_sym r c i j : sameUnit r c i j → sameUnit i j r c.
Proof. unfold sameUnit. intuition congruence. Qed.

Lemma legal_place b r c num :
  grid9 b → r < 9 → c < 9 → legal b → cell b r c = VNull →
  ¬ occursInUnits b r c (VNum num) → legal (setCell b r c (VNum num)).
Proof.
  intros Hg Hr Hc Hleg Hnull Hfree i j i' j' n Hi Hj Hi' Hj' Hne Hu H1 H2.
  destruct (decide ((i, j) = (r, c))) as [E|E];
    destruct (decide ((i', j') = (r, c))) as [E'|E'].
  - congruence.
  - inversion E; subst. rewrite cell_setCell_eq in H1 by done.
    rewrite cell_setCell_ne in H2 by done. inversion H1; subst.
    apply Hfree. by exists i', j'.
  - inversion E'; subst. rewrite cell_setCell_eq in H2 by done.
    rewrite cell_setCell_ne in H1 by done. inversion H2; subst.
    apply Hfree. exists i, j. split_and!; try done. by apply sameUnit_sym.
  - rewrite cell_setCell_ne in H1, H2 by done.
    exact (Hleg i j i' j' n Hi Hj Hi' Hj' Hne Hu H1 H2).
Qed.

Lemma solvedFrom_refl b : grid9 b → full b → solvedFrom b b.
Proof.
  intros Hg Hf. split_and!; try done.
  intros i j Hi Hj Hn. destruct (Hf i j) as [n Hc]; congruence.
Qed.

Lemma solvedFrom_place b r c num b2 :
  grid9 b → r < 9 → c < 9 → cell b r c = VNull → (1 ≤ num ≤ 9)%Z →
  ¬ occursInUnits b r c (VNum num) →
  solvedFrom (setCell b r c (VNum num)) b2 → solvedFrom b b2.
Proof.
  intros Hg Hr Hc Hnull Hnum Hfree (Hg2 & Hf2 & Hext & Hdig & Hleg).
  split_and!; try done.
  - intros i j Hi Hj Hne. rewrite Hext by (try done; rewrite cell_setCell_ne; congruence).
    apply cell_setCell_ne. congruence.
  - intros i j Hi Hj Hn. destruct (decide ((i, j) = (r, c))) as [E|E].
    + inversion E; subst. exists num. split; [|done].
      rewrite Hext by (try done; by rewrite cell_setCell_eq).
      by apply cell_setCell_eq.
    + apply Hdig; try done. by rewrite cell_setCell_ne.
  - intros Hl. apply Hleg. by apply legal_place.
Qed.

Lemma setCell_undo b r c v :
  grid9 b → r < 9 → c < 9 → cell b r c = VNull →
  setCell (setCell b r c v) r c VNull = b.
Proof.
  intros Hg Hr Hc Hnull. rewrite setCell_setCell.
  transitivity (setCell b r c (cell b r c)); [by rewrite Hnull|].
  by apply setCell_same.
Qed.

Lemma tryNums_post rec n b r c nums :
  (∀ b1, grid9 b1 → countNull b1 ≤ n → solverPost b1 (rec b1)) →
  grid9 b → r < 9 → c < 9 → cell b r c = VNull → countNull b ≤ S n →
  (∀ d, d ∈ nums → (1 ≤ d ≤ 9)%Z) →
  solverPost b (tryNums rec r c nums b).
Proof.
  intros Hrec Hg Hr Hc Hnull Hcount.
  induction nums as [|num rest IH]; intros Hnums; simpl.
  - by exists false, b.
  - rewrite isSafe_eval by done.
    destruct (unitScan b r c (VNum num)) eqn:Hscan; simpl.
    { apply IH. intros d Hd. apply Hnums. by right. }
    assert (¬ occursInUnits b r c (VNum num)) as Hfree.
    { rewrite <- unitScan_true by done. congruence. }
    rewrite wr_setCell by done.
    pose proof (countNull_place b r c num Hg Hr Hc Hnull) as Hdec.
    assert (grid9 (setCell b r c (VNum num))) as Hg1 by (by apply grid9_setCell).
    destruct (Hrec (setCell b r c (VNum num)) Hg1) as (ok & b2 & -> & Hpost); [lia|].
    destruct ok.
    + exists true, b2. split; [done|].
      apply (solvedFrom_place b r c num b2); try done. apply Hnums. by left.
    + subst b2. rewrite wr_setCell by done.
      rewrite setCell_undo by done.
      apply IH. intros d Hd. apply Hnums. by right.
Qed.

Lemma digits_range d : d ∈ digits → (1 ≤ d ≤ 9)%Z.
Proof. unfold digits. rewrite !elem_of_cons, elem_of_nil. lia. Qed.

Lemma solveSudoku_0 b :
  solveSudoku 0 b =
  match findEmpty b with
  | Throw => Some Throw
  | Ok None => Some (Ok (true, b))
  | Ok (Some _) => None
  end.
Proof. simpl. by destruct (findEmpty b) as [[[r c]|]|]. Qed.

Lemma solveSudoku_S fuel b :
  solveSudoku (S fuel) b =
  match findEmpty b with
  | Throw => Some Throw
  | Ok None => Some (Ok (true, b))
  | Ok (Some (row, col)) => tryNums (solveSudoku fuel) row col digits b
  end.
Proof. done. Qed.

Lemma solveSudoku_post fuel b :
  grid9 b → countNull b ≤ fuel → solverPost b (solveSudoku fuel b).
Proof.
  revert b. induction fuel as [|fuel IH]; intros b Hg Hcount.
  - assert (find (λ '(i, j), strict_eq (cell b i j) VNull) (grid_cells 9) = None) as Hnone.
    { destruct (find _ _) as [[r c]|] eqn:Hf; [|done].
      apply find_some in Hf as [Hin Hf].
      apply list_elem_of_In, elem_of_grid_cells in Hin as [Hr Hc].
      apply strict_eq_true in Hf.
      pose proof (countNull_place b r c 0 Hg Hr Hc Hf). lia. }
    rewrite solveSudoku_0, findEmpty_eval, Hnone by done.
    exists true, b. split; [done|]. apply solvedFrom_refl; [done|].
    apply findEmpty_None; [done|]. by rewrite findEmpty_eval, Hnone.
  - rewrite solveSudoku_S. destruct (findEmpty b) as [[[r c]|]|] eqn:Hfind.
    + apply findEmpty_Some in Hfind as (Hr & Hc & Hnull); [|done].
      apply (tryNums_post _ fuel); try done. apply digits_range.
    + exists true, b. split; [done|]. apply solvedFrom_refl; [done|].
      by apply findEmpty_None.
    + by apply findEmpty_no_throw in Hfind.
Qed.

(** More fuel never changes an answer. *)
Lemma tryNums_mono (rec rec' : Board → option (res (bool * Board))) r c nums b out :
  (∀ b1 o, rec b1 = Some o → rec' b1 = Some o) →
  tryNums rec r c nums b = Some out → tryNums rec' r c nums b = Some out.
Proof.
  intros Hrec. revert b. induction nums as [|num rest IH]; intros b; simpl; [done|].
  destruct (isSafe b r c (VNum num)) as [[|]|]; try done; [|apply IH].
  destruct (wr b r c (VNum num)) as [b1|]; [|done].
  destruct (rec b1) as [o|] eqn:Hr; [|done].
  rewrite (Hrec _ _ Hr). destruct o as [[[|] b2]|]; try done.
  destruct (wr b2 r c VNull); [apply IH|done].
Qed.

Lemma solveSudoku_mono fuel fuel' b out :
  fuel ≤ fuel' → solveSudoku fuel b = Some out → solveSudoku fuel' b = Some out.
Proof.
  revert fuel' b out. induction fuel as [|fuel IH]; intros fuel' b out Hle.
  - rewrite solveSudoku_0. destruct fuel'; [by rewrite solveSudoku_0|].
    rewrite solveSudoku_S. destruct (findEmpty b) as [[[r c]|]|]; done.
  - destruct fuel' as [|fuel']; [lia|]. rewrite !solveSudoku_S.
    destruct (findEmpty b) as [[[r c]|]|]; try done.
    apply tryNums_mono. intros b1 o. apply IH. lia.
Qed.

Lemma solveSudoku_returns fuel b out :
  grid9 b → solveSudoku fuel b = Some out → solverPost b (Some out).
Proof.
  intros Hg Hout.
  pose proof (solveSudoku_post (fuel `max` 81) b Hg) as Hpost.
  rewrite (solveSudoku_mono fuel (fuel `max` 81) b out) in Hpost; [|lia|done].
  apply Hpost. pose proof (countNull_le_81 b Hg). lia.
Qed.

(** If the filled cells of [b] are part of a valid assignment, the
    search finds a completion. *)
Lemma tryNums_complete sol rec n b r c nums :
  validAssign sol →
  (∀ b1, grid9 b1 → countNull b1 ≤ n → solverPost b1 (rec b1)) →
  (∀ b1, grid9 b1 → countNull b1 ≤ n → agrees sol b1 →
     ∃ b2, rec b1 = Some (Ok (true, b2))) →
  grid9 b → agrees sol b → r < 9 → c < 9 → cell b r c = VNull →
  countNull b ≤ S n → sol r c ∈ nums →
  ∃ b2, tryNums rec r c nums b = Some (Ok (true, b2)).
Proof.
  intros [Hrange Hdiff] Hpost Hrec Hg Hag Hr Hc Hnull Hcount.
  induction nums as [|num rest IH]; intros Hin; [by apply elem_of_nil in Hin|].
  simpl. rewrite isSafe_eval by done.
  pose proof (countNull_place b r c num Hg Hr Hc Hnull) as Hdec.
  assert (grid9 (setCell b r c (VNum num))) as Hg1 by (by apply grid9_setCell).
  destruct (decide (num = sol r c)) as [->|Hne].
  - assert (unitScan b r c (VNum (sol r c)) = false) as ->.
    { apply not_true_is_false. rewrite unitScan_true by done.
      intros (i & j & Hi & Hj & Hu & Hcell).
      destruct (decide ((i, j) = (r, c))) as [E|E]; [inversion E; subst; congruence|].
      destruct (Hag i j Hi Hj) as [Hn|Hn]; [congruence|].
      rewrite Hn in Hcell. inversion Hcell as [Heq].
      apply (Hdiff r c i j); try done; congruence. }
    simpl. rewrite wr_setCell by done.
    destruct (Hrec (setCell b r c (VNum (sol r c)))) as [b2 ->]; try done; [lia| |by eexists].
    intros i j Hi Hj. destruct (decide ((i, j) = (r, c))) as [E|E].
    + inversion E; subst. right. by apply cell_setCell_eq.
    + rewrite cell_setCell_ne by done. by apply Hag.
  - apply elem_of_cons in Hin as [Hin|Hin]; [congruence|].
    destruct (unitScan b r c (VNum num)); simpl; [by apply IH|].
    rewrite wr_setCell by done.
    destruct (Hpost (setCell b r c (VNum num)) Hg1) as (ok & b2 & -> & Hp); [lia|].
    destruct ok; [by eexists|]. subst b2. rewrite wr_setCell by done.
    rewrite setCell_undo by done.
    by apply IH.
Qed.

Lemma digits_all d : (1 ≤ d ≤ 9)%Z → d ∈ digits.
Proof.
  intros Hd. unfold digits. rewrite !elem_of_cons.
  assert (d = 1 ∨ d = 2 ∨ d = 3 ∨ d = 4 ∨ d = 5 ∨ d = 6 ∨ d = 7 ∨ d = 8 ∨ d = 9)%Z
    by lia.
  tauto.
Qed.

Lemma solveSudoku_complete sol fuel b :
  validAssign sol → grid9 b → agrees sol b → countNull b ≤ fuel →
  ∃ b2, solveSudoku fuel b = Some (Ok (true, b2)).
Proof.
  intros Hsol. revert b. induction fuel as [|fuel IH]; intros b Hg Hag Hcount.
  - destruct (solveSudoku_post 0 b Hg Hcount) as (ok & b2 & Heq & Hp).
    rewrite solveSudoku_0 in *. destruct (findEmpty b) as [[[r c]|]|]; try done.
    inversion Heq; subst. by eexists.
  - rewrite solveSudoku_S. destruct (findEmpty b) as [[[r c]|]|] eqn:Hfind.
    + apply findEmpty_Some in Hfind as (Hr & Hc & Hnull); [|done].
      apply (tryNums_complete sol _ fuel); try done.
      * intros b1 Hg1 Hc1. by apply solveSudoku_post.
      * intros b1 Hg1 Hc1 Hag1. by apply IH.
      * apply digits_all. by apply Hsol.
    + by eexists.
    + by apply findEmpty_no_throw in Hfind.
Qed.

(** ** The win check *)

Lemma checkWin_eval b :
  grid9 b → checkWin b = Ok (negb (existsb (cellLost b) (grid_cells 9))).
Proof.
  intros Hg. unfold checkWin. rewrite (anyM_ok _ (cellLost b)); [done|].
  intros [i j] Hij. apply elem_of_grid_cells in Hij as [Hi Hj].
  rewrite rd_cell by done. rewrite bind_Ok. unfold cellLost.
  destruct (strict_eq (cell b i j) VNull); [done|].
  rewrite wr_setCell by done. rewrite bind_Ok.
  rewrite isSafe_eval by (done || by apply grid9_setCell).
  rewrite bind_Ok. by rewrite negb_involutive.
Qed.

Lemma emptied_peers b i j v :
  grid9 b → i < 9 → j < 9 →
  occursInUnits (setCell b i j VNull) i j v ↔
  (v = VNull ∨ occursInPeers (setCell b i j VNull) i j v).
Proof.
  intros Hg Hi Hj. split.
  - intros (i' & j' & Hi' & Hj' & Hu & Hc).
    destruct (decide ((i', j') = (i, j))) as [E|E].
    + inversion E; subst. rewrite cell_setCell_eq by done. by left.
    + right. by exists i', j'.
  - intros [->|(i' & j' & Hi' & Hj' & _ & Hu & Hc)].
    + exists i, j. split_and!; try done; [apply sameUnit_refl|].
      by apply cell_setCell_eq.
    + by exists i', j'.
Qed.

Lemma cellLost_false b i j :
  grid9 b → i < 9 → j < 9 →
  cellLost b (i, j) = false ↔
  cell b i j ≠ VNull ∧ ¬ occursInPeers (setCell b i j VNull) i j (cell b i j).
Proof.
  intros Hg Hi Hj. unfold cellLost. rewrite orb_false_iff, strict_eq_false.
  rewrite <- not_true_iff_false, unitScan_true by done.
  rewrite emptied_peers by done. tauto.
Qed.

(** ** The store model: what [isSafe] and [checkWin] leave behind *)

Lemma res_bind_inv {A B} (m : res A) (f : A → res B) (y : B) :
  m ≫= f = Ok y → ∃ x, m = Ok x ∧ f x = Ok y.
Proof. destruct m as [x|]; [|done]. intros H. by exists x. Qed.

Lemma heap_isSafe_pure b row col num σ ans σ' :
  Heap.isSafe b row col num σ = Ok (ans, σ') → σ' = σ.
Proof.
  unfold Heap.isSafe. intros H.
  apply res_bind_inv in H as (inLine & _ & H). destruct inLine.
  - by inversion H.
  - apply res_bind_inv in H as (inBox & _ & H). by inversion H.
Qed.

Lemma preserved_refl σ : Heap.preserved σ σ.
Proof. by intros l _. Qed.

Lemma preserved_trans σ1 σ2 σ3 :
  Heap.preserved σ1 σ2 → Heap.preserved σ2 σ3 → Heap.preserved σ1 σ3.
Proof.
  intros H12 H23 l Hl. rewrite <- (H12 l Hl). apply H23.
  apply elem_of_dom. rewrite (H12 l Hl). by apply elem_of_dom.
Qed.

Lemma preserved_insert_fresh σ σ' l (arr : list Heap.hval) :
  Heap.preserved σ σ' → l ∉ dom σ → Heap.preserved σ (<[l := arr]> σ').
Proof.
  intros Hp Hl k Hk. rewrite lookup_insert_ne; [by apply Hp|]. by intros ->.
Qed.

Lemma spread_inv σ a r σ' :
  Heap.spread σ a = Ok (r, σ') →
  ∃ l arr, a = Heap.HRef l ∧ σ !! l = Some arr ∧
           r = Heap.HRef (fresh (dom σ)) ∧ σ' = <[fresh (dom σ) := arr]> σ.
Proof.
  unfold Heap.spread. destruct a as [| | |l]; try done.
  destruct (σ !! l) as [arr|] eqn:E; [|done]. intros [= <- <-]. by exists l, arr.
Qed.

Lemma set_inv σ a i v σ' :
  Heap.set σ a i v = Ok σ' →
  ∃ l arr, a = Heap.HRef l ∧ σ !! l = Some arr ∧ σ' = <[l := Heap.set_slot arr i v]> σ.
Proof.
  unfold Heap.set. destruct a as [| | |l]; try done.
  destruct (σ !! l) as [arr|] eqn:E; [|done]. intros [= <-]. by exists l, arr.
Qed.

Lemma set_slot_lookup (arr : list Heap.hval) i v : Heap.set_slot arr i v !! i = Some v.
Proof.
  unfold Heap.set_slot. case_decide.
  - by apply list_lookup_insert_eq.
  - rewrite lookup_app_r by lia. rewrite lookup_app_r by (rewrite length_replicate; lia).
    rewrite length_replicate. by replace (i - length arr - (i - length arr)) with 0 by lia.
Qed.

Lemma checkCell_preserved current i j σ o σ' :
  Heap.checkCell current i j σ = Ok (o, σ') → Heap.preserved σ σ'.
Proof.
  unfold Heap.checkCell. intros H.
  apply res_bind_inv in H as (v & _ & H).
  destruct (Heap.strict_eq v Heap.HNull).
  { inversion H; subst. apply preserved_refl. }
  apply res_bind_inv in H as ([temp σ1] & Hs1 & H).
  apply res_bind_inv in H as (row & _ & H).
  apply res_bind_inv in H as ([rowCopy σ2] & Hs2 & H).
  apply res_bind_inv in H as (σ3 & Hset3 & H).
  apply res_bind_inv in H as (tempRow & Hget & H).
  apply res_bind_inv in H as (σ4 & Hset4 & H).
  apply res_bind_inv in H as ([safe σ5] & Hsafe & H).
  apply heap_isSafe_pure in Hsafe as ->.
  assert (σ' = σ4) as -> by (destruct safe; by inversion H).
  apply spread_inv in Hs1 as (l0 & arr0 & -> & Hl0 & -> & ->).
  apply spread_inv in Hs2 as (l1 & arr1 & -> & Hl1 & -> & ->).
  set (t := fresh (dom σ)) in *.
  set (σ1 := <[t := arr0]> σ) in *.
  set (rc := fresh (dom σ1)) in *.
  assert (t ∉ dom σ) as Ht by apply is_fresh.
  assert (rc ∉ dom σ1) as Hrc by apply is_fresh.
  assert (rc ∉ dom σ) as Hrc'.
  { intros Hin. apply Hrc. unfold σ1. rewrite dom_insert. set_solver. }
  apply set_inv in Hset3 as (l3 & arr3 & [= <-] & Hl3 & ->).
  unfold Heap.get in Hget. rewrite lookup_insert_eq in Hget.
  rewrite set_slot_lookup in Hget. simpl in Hget. inversion Hget; subst tempRow.
  apply set_inv in Hset4 as (l4 & arr4 & [= <-] & Hl4 & ->).
  repeat apply preserved_insert_fresh; try done; apply preserved_refl.
Qed.

Lemma checkCells_preserved current cells σ ans σ' :
  Heap.checkCells current cells σ = Ok (ans, σ') → Heap.preserved σ σ'.
Proof.
  revert σ. induction cells as [|[i j] cells IH]; intros σ; simpl.
  - intros [= <- <-]. apply preserved_refl.
  - destruct (Heap.checkCell current i j σ) as [[[a|] σ1]|] eqn:E; try done.
    + intros [= <- <-]. by eapply checkCell_preserved.
    + intros H. eapply preserved_trans; [by eapply checkCell_preserved|by apply IH].
Qed.

Lemma mapM_ext_in {A B} (f g : A → option B) (l : list A) :
  (∀ x, x ∈ l → f x = g x) → mapM f l = mapM g l.
Proof.
  induction l as [|x l IH]; intros H; [done|]. simpl.
  rewrite (H x) by left. rewrite IH; [done|]. intros y Hy. apply H. by right.
Qed.

Lemma boardAt_preserved σ σ' b g :
  Heap.preserved σ σ' → Heap.boardAt σ b = Some g → Heap.boardAt σ' b = Some g.
Proof.
  intros Hp. unfold Heap.boardAt. destruct b as [| | |l]; try done.
  destruct (σ !! l) as [outer|] eqn:Hl; [|done]. simpl.
  rewrite (Hp l) by (apply elem_of_dom; by rewrite Hl). rewrite Hl. simpl.
  intros Hm. rewrite <- Hm. apply mapM_ext_in. intros r Hr.
  destruct r as [| | |lr]; try done.
  destruct (σ !! lr) as [row|] eqn:Hlr.
  - rewrite (Hp lr) by (apply elem_of_dom; by rewrite Hlr). by rewrite Hlr.
  - exfalso. apply mapM_Some in Hm.
    apply list_elem_of_lookup in Hr as [k Hk].
    destruct (Forall2_lookup_l _ _ _ _ _ Hm Hk) as (y & _ & Hy).
    by rewrite Hlr in Hy.
Qed.

(** ** Completing the three diagonal boxes *)
Module CombFacts.
Import Comb.

(** *** The boolean checks mean what they say *)

Lemma anyb_true {A} (f : A → bool) l : anyb f l = true ↔ ∃ x, In x l ∧ f x = true.
Proof.
  induction l as [|x l IH]; simpl.
  - split; [done|]. by intros (? & [] & _).
  - destruct (f x) eqn:E.
    + split; [|done]. intros _. exists x. auto.
    + rewrite IH. split.
      * intros (y & Hy & Hf). exists y. auto.
      * intros (y & [->|Hy] & Hf); [congruence|]. by exists y.
Qed.

Lemma allb_true {A} (f : A → bool) l : allb f l = true ↔ ∀ x, In x l → f x = true.
Proof.
  induction l as [|x l IH]; simpl.
  - split; [|done]. by intros _ ? [].
  - destruct (f x) eqn:E.
    + rewrite IH. split.
      * intros H y [->|Hy]; auto.
      * intros H y Hy. apply H. auto.
    + split; [done|]. intros H. rewrite <- E. apply H. auto.
Qed.

Lemma allb_in {A} (f : A → bool) l x : allb f l = true → In x l → f x = true.
Proof. intros H. by apply allb_true. Qed.

Lemma anyb_ex {A} (f : A → bool) l : anyb f l = true → ∃ x, In x l ∧ f x = true.
Proof. apply anyb_true. Qed.

Lemma memb_true n l : memb n l = true ↔ In n l.
Proof.
  induction l as [|x l IH]; simpl; [done|].
  destruct (Nat.eqb_spec x n) as [->|Hne].
  - split; auto.
  - rewrite IH. split; [auto|]. by intros [?|?].
Qed.

Lemma nodupb_true l : nodupb l = true ↔ List.NoDup l.
Proof.
  induction l as [|x l IH]; simpl.
  - split; [constructor|done].
  - destruct (memb x l) eqn:E.
    + apply memb_true in E. split; [done|]. by inversion 1.
    + rewrite IH. split.
      * intros H. constructor; [|done]. rewrite <- memb_true. congruence.
      * by inversion 1.
Qed.

Lemma list_eqb_true l k : list_eqb l k = true ↔ l = k.
Proof.
  revert k. induction l as [|x l IH]; intros [|y k]; simpl; try done.
  destruct (Nat.eqb_spec x y) as [->|Hne].
  - rewrite IH. split; congruence.
  - split; congruence.
Qed.

Lemma codes_length u v n : length u = n → length v = n → length (codes u v) = n.
Proof.
  revert v n. induction u as [|a u IH]; intros [|b v] [|n] Hu Hv; simpl in *; try done.
  f_equal. apply IH; lia.
Qed.

Lemma codes_at u v d :
  d < length u → d < length v → at_ (codes u v) d = 3 * at_ u d + at_ v d.
Proof.
  unfold at_. revert v d. induction u as [|a u IH]; intros [|b v] [|d] Hu Hv;
    simpl in *; try lia.
  apply IH; lia.
Qed.

Lemma orthb_true u v :
  length u = 9 → length v = 9 → (∀ d, d < 9 → at_ v d < 3) →
  orthb u v = true ↔ orthP u v.
Proof.
  intros Hu Hv Hv3. unfold orthb, orthP. rewrite nodupb_true.
  rewrite (List.NoDup_nth (codes u v) 0). rewrite (codes_length u v 9) by done.
  split.
  - intros H d d' Hd Hd' Heu Hev. apply H; try done.
    pose proof (codes_at u v d) as E1. pose proof (codes_at u v d') as E2.
    unfold at_ in *. rewrite E1, E2 by lia. lia.
  - intros H d d' Hd Hd' Heq.
    pose proof (codes_at u v d) as E1. pose proof (codes_at u v d') as E2.
    unfold at_ in *. rewrite E1, E2 in Heq by lia.
    pose proof (Hv3 d Hd). pose proof (Hv3 d' Hd'). unfold at_ in *.
    apply H; try done; lia.
Qed.

Lemma sameBlockb_true a b u v :
  length u = length v →
  sameBlockb a b u v = true ↔ ∀ d, d < length u → (at_ u d = a ↔ at_ v d = b).
Proof.
  unfold at_. revert v. induction u as [|x u IH]; intros [|y v] Hl; simpl in *; try done.
  - split; [|done]. intros _ d Hd. lia.
  - destruct (Bool.eqb (x =? a) (y =? b)) eqn:E.
    + rewrite IH by lia. apply Bool.eqb_prop in E.
      split.
      * intros H [|d] Hd; [|apply H; lia].
        rewrite <- !Nat.eqb_eq. by rewrite E.
      * intros H d Hd. apply (H (S d)). lia.
    + split; [done|]. intros H. specialize (H 0 ltac:(lia)). simpl in H.
      rewrite <- !Nat.eqb_eq in H.
      destruct (x =? a), (y =? b); simpl in E; try done; intuition congruence.
Qed.

Lemma in_three a : In a three ↔ a < 3.
Proof. unfold three. simpl. lia. Qed.

Lemma sharesb_true u v :
  length u = 9 → length v = 9 → sharesb u v = true ↔ shareP u v.
Proof.
  intros Hu Hv. unfold sharesb, shareP. rewrite anyb_true. split.
  - intros (a & Ha & H). apply anyb_true in H as (b & Hb & H).
    apply in_three in Ha, Hb. rewrite sameBlockb_true in H by lia.
    rewrite Hu in H. by exists a, b.
  - intros (a & b & Ha & Hb & H). exists a. split; [by apply in_three|].
    apply anyb_true. exists b. split; [by apply in_three|].
    rewrite sameBlockb_true by lia. by rewrite Hu.
Qed.

(** *** Well-formed maps and their enumeration *)

Lemma forallb_lt3 u : forallb (λ x, x <? 3) u = true → ∀ d, at_ u d < 3.
Proof.
  intros H d. unfold at_. rewrite forallb_forall in H.
  destruct (Nat.lt_ge_cases d (length u)) as [Hd|Hd].
  - specialize (H (nth d u 0) (nth_In _ _ Hd)). by apply Nat.ltb_lt in H.
  - rewrite nth_overflow by done. lia.
Qed.

Lemma wfmapb_wf u : wfmapb u = true → wf u.
Proof.
  unfold wfmapb. rewrite !andb_true_iff. intros [[Hl Hv] _].
  split; [by apply Nat.eqb_eq|by apply forallb_lt3].
Qed.

Lemma all_maps_in n u :
  length u = n → Forall (λ x, x < 3) u → In u (all_maps n).
Proof.
  revert u. induction n as [|n IH]; intros [|a u] Hl Hu; simpl in *; try done; [auto|].
  inversion Hu as [|? ? Ha Hu']; subst. apply in_flat_map. exists u. split.
  - apply IH; [lia|done].
  - simpl. assert (a = 0 ∨ a = 1 ∨ a = 2) as [-> | [-> | ->]] by lia; auto.
Qed.

Lemma bals_eq : bals = List.filter balancedb (all_maps 9).
Proof. vm_compute. reflexivity. Qed.

Lemma wfmapb_bals u : wfmapb u = true → In u bals.
Proof.
  intros H. rewrite bals_eq. unfold wfmapb in H. rewrite !andb_true_iff in H.
  destruct H as [[Hl Hv] Hb]. apply filter_In.
  split; [|done]. apply all_maps_in; [by apply Nat.eqb_eq|].
  apply Forall_forall. intros x Hx. rewrite forallb_forall in Hv.
  apply Nat.ltb_lt, Hv. by apply list_elem_of_In.
Qed.

Lemma bals_wfmapb : allb wfmapb bals = true.
Proof. vm_compute. reflexivity. Qed.

Lemma parts_eq : parts = List.filter is_canonb bals.
Proof. vm_compute. reflexivity. Qed.

Lemma parts_wf u : In u parts → wf u.
Proof.
  rewrite parts_eq. intros H. apply filter_In in H as [H _].
  apply wfmapb_wf. by apply (allb_in _ _ _ bals_wfmapb).
Qed.

(** *** Renaming values and renaming digits *)

Lemma bool_eq_iff (b1 b2 : bool) : (b1 = true ↔ b2 = true) → b1 = b2.
Proof. destruct b1, b2; intuition congruence. Qed.

Lemma at_map (f : nat → nat) u d : d < length u → at_ (map f u) d = f (at_ u d).
Proof.
  unfold at_. revert d. induction u as [|a u IH]; intros d Hd; simpl in *; [lia|].
  destruct d as [|d]; [done|]. apply IH. lia.
Qed.

Lemma at_vmap τ u d : d < length u → at_ (vmap τ u) d = nth (at_ u d) τ 0.
Proof. intros Hd. unfold vmap. by rewrite at_map. Qed.

Lemma perms3_range τ a : In τ perms3 → a < 3 → nth a τ 0 < 3.
Proof.
  intros Hτ Ha. unfold perms3 in Hτ. simpl in Hτ.
  destruct Hτ as [<-|[<-|[<-|[<-|[<-|[<-|[]]]]]]];
    destruct a as [|[|[|a]]]; simpl; lia.
Qed.

Lemma perms3_inj τ a b : In τ perms3 → a < 3 → b < 3 → nth a τ 0 = nth b τ 0 → a = b.
Proof.
  intros Hτ Ha Hb. unfold perms3 in Hτ. simpl in Hτ.
  destruct Hτ as [<-|[<-|[<-|[<-|[<-|[<-|[]]]]]]];
    destruct a as [|[|[|a]]]; destruct b as [|[|[|b]]]; simpl; lia.
Qed.

Lemma perms3_surj τ a : In τ perms3 → a < 3 → ∃ a', a' < 3 ∧ nth a' τ 0 = a.
Proof.
  intros Hτ Ha. unfold perms3 in Hτ. simpl in Hτ.
  destruct Hτ as [<-|[<-|[<-|[<-|[<-|[<-|[]]]]]]];
    destruct a as [|[|[|a]]]; try lia;
    first [by exists 0; split; [lia|] | by exists 1; split; [lia|] | by exists 2; split; [lia|]].
Qed.

Lemma vmap_wf τ u : In τ perms3 → wf u → wf (vmap τ u).
Proof.
  intros Hτ [Hl Hv]. split; [unfold vmap; by rewrite length_map|].
  intros d. destruct (Nat.lt_ge_cases d 9) as [Hd|Hd].
  - rewrite at_vmap by lia. by apply perms3_range.
  - unfold at_. rewrite nth_overflow; [lia|]. unfold vmap. rewrite length_map. lia.
Qed.

Lemma orthP_vmap_l τ u v : In τ perms3 → wf u → orthP (vmap τ u) v ↔ orthP u v.
Proof.
  intros Hτ [Hl Hv]. unfold orthP. split; intros H d d' Hd Hd' Hu Hv'.
  - apply H; try done. rewrite !at_vmap by lia. by rewrite Hu.
  - apply H; try done. rewrite !at_vmap in Hu by lia. by eapply perms3_inj.
Qed.

Lemma orthP_sym u v : orthP u v → orthP v u.
Proof. intros H d d' Hd Hd' H1 H2. by apply H. Qed.

Lemma orthP_vmap_r τ u v : In τ perms3 → wf v → orthP u (vmap τ v) ↔ orthP u v.
Proof.
  intros Hτ Hv. split; intros H; apply orthP_sym.
  - apply (orthP_vmap_l τ); try done. by apply orthP_sym.
  - apply (orthP_vmap_l τ); try done. by apply orthP_sym.
Qed.

Lemma shareP_vmap_l τ u v : In τ perms3 → wf u → shareP (vmap τ u) v ↔ shareP u v.
Proof.
  intros Hτ [Hl Hv]. unfold shareP. split.
  - intros (a & b & Ha & Hb & H).
    destruct (perms3_surj τ a Hτ Ha) as (a' & Ha' & <-).
    exists a', b. split_and!; try done. intros d Hd. rewrite <- H by done.
    rewrite at_vmap by lia. split; [by intros ->|]. by apply perms3_inj.
  - intros (a & b & Ha & Hb & H). exists (nth a τ 0), b.
    split_and!; try done; [by apply perms3_range|].
    intros d Hd. rewrite <- H by done. rewrite at_vmap by lia.
    split; [by apply perms3_inj|by intros ->].
Qed.

Lemma r0_wf : wf r0.
Proof. split; [done|]. by apply forallb_lt3. Qed.

Lemma c0_wf : wf c0.
Proof. split; [done|]. by apply forallb_lt3. Qed.

Lemma orthb_vmap_l τ u v :
  In τ perms3 → wf u → wf v → orthb (vmap τ u) v = orthb u v.
Proof.
  intros Hτ Hu Hv. apply bool_eq_iff.
  pose proof (vmap_wf τ u Hτ Hu) as Hu'.
  rewrite !orthb_true; try apply Hu; try apply Hu'; try apply Hv;
    try (intros; apply Hv).
  by apply orthP_vmap_l.
Qed.

Lemma sharesb_vmap_l τ u v :
  In τ perms3 → wf u → wf v → sharesb (vmap τ u) v = sharesb u v.
Proof.
  intros Hτ Hu Hv. apply bool_eq_iff.
  pose proof (vmap_wf τ u Hτ Hu) as Hu'.
  rewrite !sharesb_true; try apply Hu; try apply Hu'; try apply Hv.
  by apply shareP_vmap_l.
Qed.

Lemma hubcond_vmap τ τ' r c :
  In τ perms3 → In τ' perms3 → wf r → wf c →
  hubcond (vmap τ r) (vmap τ' c) = hubcond r c.
Proof.
  intros Hτ Hτ' Hr Hc. unfold hubcond.
  rewrite !sharesb_vmap_l, !orthb_vmap_l; auto using r0_wf, c0_wf.
Qed.

Lemma compose_length u π : length (compose u π) = 9.
Proof. unfold compose. by rewrite length_map, length_seq. Qed.

Lemma at_compose u π i : i < 9 → at_ (compose u π) i = at_ u (at_ π i).
Proof.
  intros Hi. unfold compose, at_.
  rewrite (nth_indep _ 0 ((λ i, nth (nth i π 0) u 0) 0)) by (rewrite length_map, length_seq; lia).
  rewrite (map_nth (λ i, nth (nth i π 0) u 0)). by rewrite seq_nth.
Qed.

Lemma compose_wf u π : wf u → wf (compose u π).
Proof.
  intros [Hl Hv]. split; [apply compose_length|]. intros d.
  destruct (Nat.lt_ge_cases d 9) as [Hd|Hd].
  - rewrite at_compose by done. apply Hv.
  - unfold at_. rewrite nth_overflow; [lia|]. rewrite compose_length. lia.
Qed.

Lemma list9_ext (u v : list nat) :
  length u = 9 → length v = 9 → (∀ d, d < 9 → at_ u d = at_ v d) → u = v.
Proof.
  intros Hu Hv H. apply (nth_ext u v 0 0); [lia|]. intros d Hd. apply H. lia.
Qed.

Lemma compose_vmap τ u π :
  length u = 9 → (∀ i, i < 9 → at_ π i < 9) →
  compose (vmap τ u) π = vmap τ (compose u π).
Proof.
  intros Hl Hπ. apply list9_ext.
  - apply compose_length.
  - unfold vmap. rewrite length_map. apply compose_length.
  - intros d Hd. rewrite at_compose by done.
    rewrite !at_vmap by (rewrite ?compose_length, ?Hl; auto).
    by rewrite at_compose.
Qed.

(** *** Orthogonal mates force balance *)

Lemma count_sum u : Forall (λ x, x < 3) u → count 0 u + count 1 u + count 2 u = length u.
Proof.
  unfold count. induction 1 as [|a u Ha _ IH]; [done|]. simpl.
  assert (a = 0 ∨ a = 1 ∨ a = 2) as [-> | [-> | ->]] by lia; simpl; lia.
Qed.

Lemma list9_as_map (u : dmap) : length u = 9 → u = map (at_ u) (seq 0 9).
Proof.
  intros Hl. apply list9_ext; [done|by rewrite length_map, length_seq|].
  intros d Hd. unfold at_ at 2.
  rewrite (nth_indep _ 0 (at_ u 0)) by (rewrite length_map, length_seq; lia).
  rewrite (map_nth (at_ u)). by rewrite seq_nth.
Qed.

Lemma filter_map_comm {A B} (f : A → B) (p : B → bool) (l : list A) :
  List.filter p (map f l) = map f (List.filter (λ x, p (f x)) l).
Proof.
  induction l as [|x l IH]; [done|]. simpl. destruct (p (f x)); simpl; by rewrite IH.
Qed.

Lemma count_indices a u :
  length u = 9 → count a u = length (List.filter (λ d, at_ u d =? a) (seq 0 9)).
Proof.
  intros Hl. unfold count. rewrite (list9_as_map u Hl) at 1.
  rewrite filter_map_comm. by rewrite length_map.
Qed.

Lemma orth_block_small u v a :
  wf u → wf v → orthP u v → count a u ≤ 3.
Proof.
  intros [Hlu Hu] [Hlv Hv] Ho. rewrite count_indices by done.
  set (idx := List.filter (λ d, at_ u d =? a) (seq 0 9)).
  rewrite <- (length_map (at_ v) idx).
  change 3 with (length three).
  apply List.NoDup_incl_length.
  - apply Finite.Injective_map_NoDup_in.
    + intros d d' Hd Hd' Heq. unfold idx in Hd, Hd'.
      apply filter_In in Hd as [Hd Ha], Hd' as [Hd' Ha'].
      apply in_seq in Hd, Hd'. apply Nat.eqb_eq in Ha, Ha'.
      apply Ho; lia.
    + apply List.NoDup_filter, seq_NoDup.
  - intros x Hx. apply in_map_iff in Hx as (d & <- & _). apply in_three, Hv.
Qed.

Lemma balanced_wfmapb u : balanced u → wfmapb u = true.
Proof.
  intros [Hwf (v & Hv & Ho)]. pose proof Hwf as [Hl Hu].
  assert (Forall (λ x, x < 3) u) as Hall.
  { apply Forall_forall. intros x Hx. apply list_elem_of_In, (In_nth _ _ 0) in Hx as (d & _ & <-).
    apply Hu. }
  pose proof (count_sum u Hall) as Hsum.
  pose proof (orth_block_small u v 0 Hwf Hv Ho).
  pose proof (orth_block_small u v 1 Hwf Hv Ho).
  pose proof (orth_block_small u v 2 Hwf Hv Ho).
  unfold wfmapb, balancedb. rewrite !andb_true_iff, !Nat.eqb_eq.
  split_and!; try lia.
  apply forallb_forall. intros x Hx. apply Nat.ltb_lt.
  rewrite Forall_forall in Hall. apply Hall. by apply list_elem_of_In.
Qed.

Lemma compose_orth u v ρ π :
  (∀ d, d < 9 → at_ ρ d < 9) → (∀ d, d < 9 → at_ π (at_ ρ d) = d) →
  orthP u v → orthP (compose u ρ) (compose v ρ).
Proof.
  intros Hr Hinv Ho d d' Hd Hd' Hu Hv. rewrite !at_compose in Hu, Hv by done.
  assert (at_ ρ d = at_ ρ d') as Heq by (apply Ho; auto).
  rewrite <- (Hinv d Hd), <- (Hinv d' Hd'). by rewrite Heq.
Qed.

Lemma balanced_compose u ρ π :
  (∀ d, d < 9 → at_ ρ d < 9) → (∀ d, d < 9 → at_ π (at_ ρ d) = d) →
  balanced u → balanced (compose u ρ).
Proof.
  intros Hr Hinv [Hwf (v & Hv & Ho)]. split; [by apply compose_wf|].
  exists (compose v ρ). split; [by apply compose_wf|]. by eapply compose_orth.
Qed.

Lemma balanced_mate u v : wf u → wf v → orthP u v → balanced u ∧ balanced v.
Proof.
  intros Hu Hv Ho. split; split; try done; [by exists v|].
  exists u. split; [done|by apply orthP_sym].
Qed.

(** *** Normal forms *)

Lemma perm_pairs_eq : perm_pairs = list_prod perms3 perms3.
Proof. vm_compute. reflexivity. Qed.

Lemma norm_ok_true : allb (λ u, anyb (normalizes u) perm_pairs) bals = true.
Proof. vm_compute. reflexivity. Qed.

Lemma normal_form u :
  balanced u → ∃ τ n, In τ perms3 ∧ In n parts ∧ u = vmap τ n.
Proof.
  intros Hb. apply balanced_wfmapb, wfmapb_bals in Hb.
  pose proof (allb_in _ _ u norm_ok_true Hb) as H.
  apply anyb_ex in H as ([τ ρ] & Hin & H).
  rewrite perm_pairs_eq in Hin. apply in_prod_iff in Hin as [Hτ Hρ].
  unfold normalizes in H. simpl in H.
  destruct (is_canonb (vmap ρ u)) eqn:Hc; [|done].
  destruct (wfmapb (vmap ρ u)) eqn:Hw; [|done].
  apply list_eqb_true in H. exists τ, (vmap ρ u). split_and!; try done.
  rewrite parts_eq. apply filter_In. split; [|done].
  by apply wfmapb_bals.
Qed.

(** *** Siblings *)

Lemma sibP_wf r x x' : sibP r x x' → wf x ∧ wf x'.
Proof.
  intros (Hx & Hx' & H). split; split; try done; intros d;
    (destruct (Nat.lt_ge_cases d 9) as [Hd|Hd];
     [by apply H|unfold at_; rewrite nth_overflow; lia]).
Qed.

Lemma sibP_swap r x x' : sibP r x x' → sibP r x' x.
Proof.
  intros (Hx & Hx' & H). split_and!; try done. intros d Hd.
  destruct (H d Hd) as (? & ? & ? & ? & ?). split_and!; try done; congruence.
Qed.

Lemma sibP_vmap τ r x x' :
  In τ perms3 → wf r → sibP r x x' → sibP (vmap τ r) (vmap τ x) (vmap τ x').
Proof.
  intros Hτ [Hlr Hr] (Hx & Hx' & H).
  split_and!; try (unfold vmap; by rewrite length_map). intros d Hd.
  destruct (H d Hd) as (H1 & H2 & H3 & H4 & H5).
  rewrite !at_vmap by lia.
  split_and!; try (by apply perms3_range);
    intros E; apply perms3_inj in E; auto.
Qed.

Lemma sibP_compose r x x' ρ π :
  (∀ d, d < 9 → at_ ρ d < 9) → (∀ d, d < 9 → at_ π (at_ ρ d) = d) →
  sibP (compose r π) x x' → sibP r (compose x ρ) (compose x' ρ).
Proof.
  intros Hr Hinv (Hx & Hx' & H). split_and!; try apply compose_length.
  intros d Hd. rewrite !at_compose by done.
  destruct (H (at_ ρ d) (Hr d Hd)) as (H1 & H2 & H3 & H4 & H5).
  rewrite at_compose in H3, H4 by auto. rewrite Hinv in H3, H4 by done. done.
Qed.

Lemma thirds_length r x n : length r = n → length x = n → length (thirds r x) = n.
Proof.
  revert x n. induction r as [|a r IH]; intros [|b x] [|n] Hr Hx; simpl in *; try done.
  f_equal. apply IH; lia.
Qed.

Lemma thirds_at r x d :
  d < length r → d < length x → at_ (thirds r x) d = 3 - at_ r d - at_ x d.
Proof.
  unfold at_. revert x d. induction r as [|a r IH]; intros [|b x] [|d] Hr Hx;
    simpl in *; try lia.
  apply IH; lia.
Qed.

Lemma apartb_at r x d :
  apartb r x = true → d < length r → d < length x → at_ r d ≠ at_ x d.
Proof.
  unfold at_. revert x d. induction r as [|a r IH]; intros [|b x] d H Hr Hx;
    simpl in *; try lia.
  destruct (Nat.eqb_spec a b) as [->|Hne]; [done|].
  destruct d as [|d]; [done|]. apply IH; try done; lia.
Qed.

Lemma apartb_sibP r x : wf r → wf x → apartb r x = true → sibP r x (thirds r x).
Proof.
  intros [Hlr Hr] [Hlx Hx] Ha. split_and!; [done|by apply thirds_length|].
  intros d Hd. pose proof (apartb_at r x d Ha ltac:(lia) ltac:(lia)).
  rewrite thirds_at by lia. pose proof (Hr d). pose proof (Hx d).
  split_and!; lia.
Qed.

Lemma in_sibs base r x x' :
  In (x, x') (sibs base r) → In x base ∧ apartb r x = true ∧ x' = thirds r x.
Proof.
  unfold sibs. intros H. apply in_map_iff in H as (z & [= <- <-] & Hz).
  apply filter_In in Hz as [Hz Ha]. done.
Qed.

End CombFacts.

Module CoreFacts.
Import Comb CombFacts.

(** *** The hub lemma *)

Lemma hub_check_true : hubCheck orthC0 orthR0 parts parts = true.
Proof. vm_compute. reflexivity. Qed.

Lemma orthC0_ok_true : allb (orthWith c0) orthC0 = true.
Proof. vm_compute. reflexivity. Qed.

Lemma orthR0_ok_true : allb (orthWith r0) orthR0 = true.
Proof. vm_compute. reflexivity. Qed.

Lemma hubCheck_in bx bz rows cols r c :
  hubCheck bx bz rows cols = true → In r rows → In c cols →
  hubEntry (rowData bx r) (colData bz c) = true.
Proof.
  unfold hubCheck. intros H Hr Hc.
  pose proof (allb_in _ _ r H Hr) as H1. cbv beta zeta in H1.
  exact (allb_in _ _ _ H1 (in_map (colData bz) _ _ Hc)).
Qed.

Lemma hubcond_bools r c :
  negb (sharesb r c0) && negb (sharesb c r0) && negb (orthb r r0 && orthb c c0)
  = hubcond r c.
Proof.
  unfold hubcond.
  by destruct (sharesb r c0), (sharesb c r0), (orthb r r0), (orthb c c0).
Qed.

Lemma sibs_orth v base r x x' :
  allb (orthWith v) base = true → wf v → wf r →
  In (x, x') (sibs base r) → sibP r x x' ∧ orthP x v.
Proof.
  intros Hall Hv Hr Hin. apply in_sibs in Hin as (Hx & Ha & ->).
  pose proof (allb_in _ _ x Hall Hx) as H. unfold orthWith in H.
  destruct (orthb x v) eqn:Ho; [|done].
  apply wfmapb_wf in H. split; [by apply apartb_sibP|].
  apply orthb_true in Ho; try done; try apply H; try apply Hv.
  intros; apply Hv.
Qed.

Lemma hub_generic bx bz rows cols r c :
  hubCheck bx bz rows cols = true →
  allb (orthWith c0) bx = true → allb (orthWith r0) bz = true →
  In r rows → In c cols → wf r → wf c →
  hubcond r c = true → hubWitness r0 c0 r c.
Proof.
  intros Hchk Hbx Hbz Hr Hc Hwr Hwc Hcond.
  pose proof (hubCheck_in _ _ _ _ r c Hchk Hr Hc) as H'.
  unfold hubEntry, rowData, colData in H'.
  rewrite hubcond_bools, Hcond in H'. unfold hubFind in H'.
  apply anyb_ex in H' as ([x x'] & Hx & H).
  apply anyb_ex in H as ([y y'] & Hy & H). cbn [snd] in H.
  apply (sibs_orth c0) in Hx as [Hsx Hox]; [|done|apply c0_wf|done].
  apply (sibs_orth r0) in Hy as [Hsy Hoy]; [|done|apply r0_wf|done].
  exists x, x', y, y'. split_and!; try done.
  destruct (sibP_wf _ _ _ Hsx) as [_ Hwx']. destruct (sibP_wf _ _ _ Hsy) as [_ Hwy'].
  apply orthb_true in H; try done; try apply Hwx'; try apply Hwy'.
  intros; apply Hwy'.
Qed.

Lemma hub_parts r c :
  In r parts → In c parts → hubcond r c = true → hubWitness r0 c0 r c.
Proof.
  intros Hr Hc.
  exact (hub_generic orthC0 orthR0 parts parts r c hub_check_true
           orthC0_ok_true orthR0_ok_true Hr Hc (parts_wf r Hr) (parts_wf c Hc)).
Qed.

Lemma hub_balanced r c :
  balanced r → balanced c → hubcond r c = true → hubWitness r0 c0 r c.
Proof.
  intros Hr Hc Hcond.
  destruct (normal_form r Hr) as (τ & n & Hτ & Hn & ->).
  destruct (normal_form c Hc) as (τ' & m & Hτ' & Hm & ->).
  pose proof (parts_wf n Hn) as Hwn. pose proof (parts_wf m Hm) as Hwm.
  rewrite hubcond_vmap in Hcond by done.
  destruct (hub_parts n m Hn Hm Hcond) as (x & x' & y & y' & Hsx & Hsy & Hox & Hoy & Ho).
  destruct (sibP_wf _ _ _ Hsx) as [Hwx Hwx']. destruct (sibP_wf _ _ _ Hsy) as [Hwy Hwy'].
  exists (vmap τ x), (vmap τ x'), (vmap τ' y), (vmap τ' y').
  split_and!.
  - by apply sibP_vmap.
  - by apply sibP_vmap.
  - by apply orthP_vmap_l.
  - by apply orthP_vmap_l.
  - apply orthP_vmap_l; try done. by apply orthP_vmap_r.
Qed.

(** *** Frames *)

Lemma frames_ok_true : allb frame_okb frameList = true.
Proof. vm_compute. reflexivity. Qed.

Lemma apart3b_sibP r x x' : apart3b r x x' = true → length r = 9 → sibP r x x'.
Proof.
  unfold apart3b. rewrite !andb_true_iff, !Nat.eqb_eq.
  intros [[[[[[Hx Hx'] Hvx] Hvx'] H1] H2] H3] Hr.
  split_and!; try done. intros d Hd.
  pose proof (forallb_lt3 x Hvx d). pose proof (forallb_lt3 x' Hvx' d).
  pose proof (apartb_at r x d H1 ltac:(lia) ltac:(lia)).
  pose proof (apartb_at r x' d H2 ltac:(lia) ltac:(lia)).
  pose proof (apartb_at x x' d H3 ltac:(lia) ltac:(lia)).
  done.
Qed.

Lemma permPairb_true ρ π :
  permPairb ρ π = true →
  (∀ d, d < 9 → at_ ρ d < 9) ∧ (∀ d, d < 9 → at_ π (at_ ρ d) = d).
Proof.
  unfold permPairb. rewrite forallb_forall. intros H.
  split; intros d Hd; specialize (H d ltac:(apply in_seq; lia));
    apply andb_true_iff in H as [H1 H2].
  - by apply Nat.ltb_lt.
  - by apply Nat.eqb_eq.
Qed.

Lemma frame_facts f : In f frameList → frameFacts f.
Proof.
  intros Hf. pose proof (allb_in _ _ f frames_ok_true Hf) as H.
  unfold frame_okb in H.
  rewrite !andb_true_iff in H.
  destruct H as [[[[[[[[[H1 H2] H3] H4] H5] H6] H7] H8] H9] H10].
  apply permPairb_true in H3 as [? ?], H4 as [? ?], H5 as [? ?], H6 as [? ?].
  apply list_eqb_true in H7, H8, H9, H10.
  constructor; try done.
  - by apply apart3b_sibP.
  - by apply apart3b_sibP.
Qed.

(** The hub lemma seen from a frame: rename the digits by their cell in
    the frame, apply the lemma, rename back. *)
Lemma hub_renamed ρ π r c :
  (∀ d, d < 9 → at_ ρ d < 9) → (∀ d, d < 9 → at_ π (at_ ρ d) = d) →
  (∀ d, d < 9 → at_ π d < 9) → (∀ d, d < 9 → at_ ρ (at_ π d) = d) →
  balanced r → balanced c →
  hubcond (compose r π) (compose c π) = true →
  hubWitness (compose r0 ρ) (compose c0 ρ) r c.
Proof.
  intros Hρ Hπρ Hπ Hρπ Hr Hc Hcond.
  destruct (hub_balanced (compose r π) (compose c π))
    as (x & x' & y & y' & Hsx & Hsy & Hox & Hoy & Ho); try done.
  { by apply (balanced_compose _ π ρ). }
  { by apply (balanced_compose _ π ρ). }
  exists (compose x ρ), (compose x' ρ), (compose y ρ), (compose y' ρ).
  split_and!.
  - by apply (sibP_compose _ _ _ ρ π).
  - by apply (sibP_compose _ _ _ ρ π).
  - by apply (compose_orth _ _ ρ π).
  - by apply (compose_orth _ _ ρ π).
  - by apply (compose_orth _ _ ρ π).
Qed.

End CoreFacts.

Module CoverFacts.
Import Comb CombFacts CoreFacts.

(** *** The set of masks *)

Lemma tinsert_elem k tr : In k (telems (tinsert k tr)).
Proof.
  revert tr. induction k as [|b k IH]; intros tr.
  - destruct tr; simpl; auto.
  - destruct tr as [|m f t]; destruct b; simpl;
      rewrite ?in_app_iff, ?in_map_iff; eauto 8.
Qed.

Lemma tinsert_mono k k' tr : In k (telems tr) → In k (telems (tinsert k' tr)).
Proof.
  revert k tr. induction k' as [|b k' IH]; intros k tr.
  - destruct tr as [|m f t]; simpl; [done|].
    rewrite !in_app_iff. intros [H|H]; [|auto].
    destruct m; [|done]. destruct H as [H|[]]. by left.
  - destruct tr as [|m f t]; [done|].
    destruct b; simpl; rewrite !in_app_iff, !in_map_iff;
      intros [H|[(k0 & <- & H)|(k0 & <- & H)]]; eauto 7.
Qed.

Lemma fold_insert_mono {A} (g : A → list bool) l tr k :
  In k (telems tr) → In k (telems (fold_left (λ tr t, tinsert (g t) tr) l tr)).
Proof.
  revert tr. induction l as [|a l IH]; intros tr H; simpl; [done|].
  apply IH. by apply tinsert_mono.
Qed.

Lemma fold_insert_elem {A} (g : A → list bool) l tr t :
  In t l → In (g t) (telems (fold_left (λ tr t, tinsert (g t) tr) l tr)).
Proof.
  revert tr. induction l as [|a l IH]; intros tr H; simpl; [done|].
  destruct H as [->|H]; [|by apply IH].
  apply fold_insert_mono, tinsert_elem.
Qed.

Lemma maskSet_elem π fl rows cols r c :
  In r rows → In c cols →
  In (sigMask (rowSig π fl r) (colSig π fl c)) (telems (maskSet π fl rows cols)).
Proof.
  unfold maskSet. cbv zeta. intros Hr Hc.
  generalize TLeaf. induction rows as [|a rows IH]; intros tr; simpl; [done|].
  destruct Hr as [->|Hr]; [|by apply IH].
  set (tr1 := fold_left _ (map (colSig π fl) cols) tr).
  assert (In (sigMask (rowSig π fl r) (colSig π fl c)) (telems tr1)) as H1.
  { apply (fold_insert_elem (λ t, sigMask (rowSig π fl r) t)). by apply in_map. }
  clearbody tr1. clear IH. revert tr1 H1.
  induction rows as [|a rows IH]; intros tr1 H1; simpl; [done|].
  apply IH. by apply (fold_insert_mono (λ t, sigMask (rowSig π fl a) t)).
Qed.

Lemma sigMask_hubAt π fl r c :
  sigMask (rowSig π fl r) (colSig π fl c) = map (hubAt π r c) fl.
Proof.
  unfold rowSig, colSig, hubAt. induction fl as [|f fl IH]; simpl; [done|].
  f_equal; [|done]. apply hubcond_bools.
Qed.

Lemma meetb_map {A} (g h : A → bool) l :
  meetb (map g l) (map h l) = true → ∃ f, In f l ∧ g f = true ∧ h f = true.
Proof.
  induction l as [|a l IH]; simpl; [done|].
  destruct (g a) eqn:Hg, (h a) eqn:Hh; simpl; eauto;
    intros H; destruct (IH H) as (f & ? & ? & ?); eauto.
Qed.

Lemma coverCheck_in la lb a b :
  coverCheck la lb = true → In a la → In b lb → meetb a b = true.
Proof.
  unfold coverCheck. intros H Ha Hb.
  pose proof (allb_in _ _ a H Ha) as H1. cbv beta in H1.
  exact (allb_in _ _ b H1 Hb).
Qed.

Lemma cover_generic fl rows cols rows' cols' r1 c2 r2 c1 :
  coverCheck (telems (maskSet πA fl rows cols))
             (telems (maskSet πB fl rows' cols')) = true →
  In r1 rows → In c2 cols → In r2 rows' → In c1 cols' →
  ∃ f, In f fl ∧ hubAt πA r1 c2 f = true ∧ hubAt πB r2 c1 f = true.
Proof.
  intros H H1 H2 H3 H4. apply meetb_map.
  rewrite <- !sigMask_hubAt.
  apply (coverCheck_in _ _ _ _ H); by apply maskSet_elem.
Qed.

Lemma cover_true :
  coverCheck (telems (maskSet πA frameList parts parts))
             (telems (maskSet πB frameList parts parts)) = true.
Proof. vm_compute. reflexivity. Qed.

Lemma cover_parts r1 c2 r2 c1 :
  In r1 parts → In c2 parts → In r2 parts → In c1 parts →
  ∃ f, In f frameList ∧ hubAt πA r1 c2 f = true ∧ hubAt πB r2 c1 f = true.
Proof. exact (cover_generic frameList parts parts parts parts r1 c2 r2 c1 cover_true). Qed.

Lemma hubAt_vmap π τ τ' r c f :
  In τ perms3 → In τ' perms3 → wf r → wf c → (∀ i, i < 9 → at_ (π f) i < 9) →
  hubAt π (vmap τ r) (vmap τ' c) f = hubAt π r c f.
Proof.
  intros Hτ Hτ' Hr Hc Hπ. unfold hubAt.
  rewrite !compose_vmap by (done || apply Hr || apply Hc).
  apply hubcond_vmap; try done; by apply compose_wf.
Qed.

(** Some frame serves both halves of any seed. *)
Lemma cover_balanced r1 c2 r2 c1 :
  balanced r1 → balanced c2 → balanced r2 → balanced c1 →
  ∃ f, In f frameList ∧ hubAt πA r1 c2 f = true ∧ hubAt πB r2 c1 f = true.
Proof.
  intros H1 H2 H3 H4.
  destruct (normal_form _ H1) as (τ1 & n1 & Hτ1 & Hn1 & ->).
  destruct (normal_form _ H2) as (τ2 & n2 & Hτ2 & Hn2 & ->).
  destruct (normal_form _ H3) as (τ3 & n3 & Hτ3 & Hn3 & ->).
  destruct (normal_form _ H4) as (τ4 & n4 & Hτ4 & Hn4 & ->).
  destruct (cover_parts n1 n2 n3 n4) as (f & Hf & HA & HB); try done.
  exists f. pose proof (frame_facts f Hf) as FF.
  split; [done|].
  rewrite !hubAt_vmap; try done; try (by apply parts_wf); apply FF.
Qed.

(** *** The nine boxes

    For any balanced data of boxes 1 and 2 there are row and column
    maps for the six other boxes: siblings along each band and stack,
    and orthogonal in each box. *)
Lemma completion r1 c1 r2 c2 :
  balanced r1 → balanced c1 → balanced r2 → balanced c2 →
  ∃ x0 x0' y0 y0' x1 x1' y1 y1' x2 x2' y2 y2',
    sibP r0 x0 x0' ∧ sibP c0 y0 y0' ∧
    sibP r1 x1 x1' ∧ sibP c1 y1 y1' ∧
    sibP r2 x2 x2' ∧ sibP c2 y2 y2' ∧
    orthP x0 y1' ∧ orthP x0' y2 ∧
    orthP x1' y0 ∧ orthP x1 y2' ∧
    orthP x2 y0' ∧ orthP x2' y1.
Proof.
  intros H1 Hc1 H2 Hc2.
  destruct (cover_balanced r1 c2 r2 c1) as (f & Hf & HA & HB); try done.
  pose proof (frame_facts f Hf) as FF. unfold hubAt in HA, HB.
  destruct (hub_renamed (ρA f) (πA f) r1 c2) as (xa & xa' & ya & ya' & A1 & A2 & A3 & A4 & A5);
    try done; try apply FF.
  destruct (hub_renamed (ρB f) (πB f) r2 c1) as (xb & xb' & yb & yb' & B1 & B2 & B3 & B4 & B5);
    try done; try apply FF.
  rewrite (ff_rA f FF), (ff_cA f FF) in *.
  rewrite (ff_rB f FF), (ff_cB f FF) in *.
  (* half A: r1, c2 against (fx', fy); half B: r2, c1 against (fx, fy') *)
  exists (fx f), (fx' f), (fy f), (fy' f), xa', xa, yb', yb, xb, xb', ya, ya'.
  split_and!; try done; try apply FF.
  - by apply sibP_swap.
  - by apply sibP_swap.
  - by apply orthP_sym.
  - by apply orthP_sym.
Qed.

End CoverFacts.

Module LayoutFacts.
Import Comb CombFacts CoreFacts CoverFacts.

(** *** Permutations of 0–8 given as lists *)

Lemma index_of_In e l : In e l → index_of e l < length l ∧ nth (index_of e l) l 0 = e.
Proof.
  induction l as [|x l IH]; simpl; [done|].
  destruct (Nat.eqb_spec x e) as [->|Hne]; [intros _; split; [lia|done]|].
  intros [?|H]; [done|]. destruct (IH H). split; [lia|done].
Qed.

Lemma index_of_nth l d :
  List.NoDup l → d < length l → index_of (nth d l 0) l = d.
Proof.
  intros Hnd Hd.
  destruct (index_of_In (nth d l 0) l) as [H1 H2]; [by apply nth_In|].
  by apply (proj1 (NoDup_nth l 0) Hnd).
Qed.

Lemma perm9_facts ρ :
  length ρ = 9 → (∀ d, d < 9 → at_ ρ d < 9) →
  (∀ d d', d < 9 → d' < 9 → at_ ρ d = at_ ρ d' → d = d') →
  (∀ d, d < 9 → index_of (at_ ρ d) ρ = d) ∧
  (∀ e, e < 9 → index_of e ρ < 9 ∧ at_ ρ (index_of e ρ) = e).
Proof.
  intros Hl Hr Hinj.
  assert (List.NoDup ρ) as Hnd.
  { apply (NoDup_nth ρ 0). intros i j Hi Hj. apply Hinj; lia. }
  split.
  - intros d Hd. apply index_of_nth; [done|lia].
  - intros e He.
    assert (In e ρ) as Hin.
    { apply (NoDup_length_incl Hnd (l' := seq 0 9)).
      - rewrite length_seq. lia.
      - intros x Hx. apply (In_nth _ _ 0) in Hx as (d & Hd & <-).
        apply in_seq. specialize (Hr d ltac:(lia)). unfold at_ in Hr. lia.
      - apply in_seq. lia. }
    destruct (index_of_In e ρ Hin) as [H1 H2]. split; [lia|done].
Qed.

Lemma codes_perm R C :
  wf R → wf C → orthP R C →
  length (codes R C) = 9 ∧ (∀ d, d < 9 → at_ (codes R C) d < 9) ∧
  (∀ d d', d < 9 → d' < 9 → at_ (codes R C) d = at_ (codes R C) d' → d = d').
Proof.
  intros [HlR HR] [HlC HC] Ho. split_and!.
  - by apply codes_length.
  - intros d Hd. rewrite codes_at by lia. specialize (HR d). specialize (HC d). lia.
  - intros d d' Hd Hd'. rewrite !codes_at by lia.
    pose proof (HR d). pose proof (HC d). pose proof (HR d'). pose proof (HC d').
    intros He. apply Ho; try done; lia.
Qed.

(** The digit that sits in cell [(a, c)] of a box. *)
Lemma digit_at R C a c :
  wf R → wf C → orthP R C → a < 3 → c < 3 →
  let d := index_of (3 * a + c) (codes R C) in
  d < 9 ∧ at_ R d = a ∧ at_ C d = c.
Proof.
  intros HR HC Ho Ha Hc d.
  destruct (codes_perm R C HR HC Ho) as (Hl & Hr & Hinj).
  destruct (perm9_facts _ Hl Hr Hinj) as [_ H].
  destruct (H (3 * a + c) ltac:(lia)) as [Hd He]. fold d in Hd, He.
  rewrite codes_at in He by (destruct HR, HC; lia).
  pose proof (proj2 HR d). pose proof (proj2 HC d). lia.
Qed.

Lemma digit_at_unique R C d :
  wf R → wf C → orthP R C → d < 9 →
  index_of (3 * at_ R d + at_ C d) (codes R C) = d.
Proof.
  intros HR HC Ho Hd.
  destruct (codes_perm R C HR HC Ho) as (Hl & Hr & Hinj).
  destruct (perm9_facts _ Hl Hr Hinj) as [H _].
  rewrite <- (codes_at R C d) by (destruct HR, HC; lia). by apply H.
Qed.

(** *** A good layout is a valid grid *)

Lemma layout_valid lay : goodLayout lay → validAssign (solOf lay).
Proof.
  intros (Hbox & Hband & Hstack). split.
  - intros i j Hi Hj. unfold solOf, numOf.
    destruct (Hbox (i / 3) (j / 3)) as (HR & HC & Ho); [lia..|].
    destruct (digit_at _ _ (i mod 3) (j mod 3) HR HC Ho) as (Hd & _); lia.
  - intros i j i' j' Hi Hj Hi' Hj' Hne Hunit. unfold solOf, numOf.
    destruct (Hbox (i / 3) (j / 3)) as (HR & HC & Ho); [lia..|].
    destruct (Hbox (i' / 3) (j' / 3)) as (HR' & HC' & Ho'); [lia..|].
    destruct (digit_at _ _ (i mod 3) (j mod 3) HR HC Ho) as (Hd & H1 & H2); [lia..|].
    destruct (digit_at _ _ (i' mod 3) (j' mod 3) HR' HC' Ho') as (Hd' & H1' & H2'); [lia..|].
    cbv zeta in Hd, H1, H2, Hd', H1', H2'.
    remember (index_of (3 * (i mod 3) + j mod 3) _) as d eqn:Ed.
    remember (index_of (3 * (i' mod 3) + j' mod 3) _) as d' eqn:Ed'.
    clear Ed Ed'. intros Heq. assert (d' = d) as -> by lia. clear Heq.
    destruct (decide (i / 3 = i' / 3)) as [Hp|Hp];
      destruct (decide (j / 3 = j' / 3)) as [Hq|Hq].
    + rewrite <- Hp, <- Hq in *. apply Hne. f_equal; lia.
    + destruct Hunit as [->|[->|[_ ?]]]; [|done..].
      apply (Hband (i / 3) (j / 3) (j' / 3) d); try lia.
    + destruct Hunit as [->|[->|[? _]]]; [done| |done].
      apply (Hstack (i / 3) (i' / 3) (j / 3) d); try lia.
    + destruct Hunit as [->|[->|[? _]]]; done.
Qed.

(** *** Any top-left box

    The completion was found for the top-left box holding the digits
    in order; renaming the digits by their cell gives it for any box. *)

Lemma at_r0 n : n < 9 → at_ r0 n = n / 3.
Proof. intros H. do 9 (destruct n as [|n]; [reflexivity|]). lia. Qed.

Lemma at_c0 n : n < 9 → at_ c0 n = n mod 3.
Proof. intros H. do 9 (destruct n as [|n]; [reflexivity|]). lia. Qed.

Lemma at_invperm ρ e : e < 9 → at_ (invperm ρ) e = index_of e ρ.
Proof.
  intros He. unfold invperm, at_.
  rewrite (nth_indep _ 0 ((λ i, index_of i ρ) 0)) by (rewrite length_map, length_seq; lia).
  rewrite (map_nth (λ i, index_of i ρ)). by rewrite seq_nth.
Qed.

Lemma sibP_compose_all r x x' ρ :
  (∀ d, d < 9 → at_ ρ d < 9) →
  sibP r x x' → sibP (compose r ρ) (compose x ρ) (compose x' ρ).
Proof.
  intros Hρ (Hx & Hx' & H). split_and!; try apply compose_length.
  intros d Hd. rewrite !at_compose by done. by apply H, Hρ.
Qed.

Lemma completion_any ra ca r1 c1 r2 c2 :
  wf ra → wf ca → orthP ra ca →
  balanced r1 → balanced c1 → balanced r2 → balanced c2 →
  ∃ x0 x0' y0 y0' x1 x1' y1 y1' x2 x2' y2 y2',
    sibP ra x0 x0' ∧ sibP ca y0 y0' ∧
    sibP r1 x1 x1' ∧ sibP c1 y1 y1' ∧
    sibP r2 x2 x2' ∧ sibP c2 y2 y2' ∧
    orthP x0 y1' ∧ orthP x0' y2 ∧
    orthP x1' y0 ∧ orthP x1 y2' ∧
    orthP x2 y0' ∧ orthP x2' y1.
Proof.
  intros Hra Hca Hoa H1 Hc1 H2 Hc2.
  destruct (codes_perm ra ca Hra Hca Hoa) as (Hl & Hr & Hinj).
  destruct (perm9_facts _ Hl Hr Hinj) as [Hleft Hright].
  set (ρ := codes ra ca) in *. set (π := invperm ρ).
  assert (∀ d, d < 9 → at_ π d < 9) as Hπ.
  { intros d Hd. unfold π. rewrite at_invperm by done. by apply Hright. }
  assert (∀ d, d < 9 → at_ ρ (at_ π d) = d) as Hρπ.
  { intros d Hd. unfold π. rewrite at_invperm by done. by apply Hright. }
  assert (∀ d, d < 9 → at_ π (at_ ρ d) = d) as Hπρ.
  { intros d Hd. unfold π. rewrite at_invperm by (by apply Hr). by apply Hleft. }
  assert (compose r0 ρ = ra) as Era.
  { apply list9_ext; [apply compose_length|apply Hra|]. intros d Hd.
    rewrite at_compose, at_r0 by (done || by apply Hr).
    unfold ρ. rewrite codes_at by (destruct Hra, Hca; lia).
    pose proof (proj2 Hca d). lia. }
  assert (compose c0 ρ = ca) as Eca.
  { apply list9_ext; [apply compose_length|apply Hca|]. intros d Hd.
    rewrite at_compose, at_c0 by (done || by apply Hr).
    unfold ρ. rewrite codes_at by (destruct Hra, Hca; lia).
    pose proof (proj2 Hca d). lia. }
  destruct (completion (compose r1 π) (compose c1 π) (compose r2 π) (compose c2 π))
    as (x0 & x0' & y0 & y0' & x1 & x1' & y1 & y1' & x2 & x2' & y2 & y2' &
        S0 & T0 & S1 & T1 & S2 & T2 & O1 & O2 & O3 & O4 & O5 & O6);
    try (by apply (balanced_compose _ π ρ)).
  exists (compose x0 ρ), (compose x0' ρ), (compose y0 ρ), (compose y0' ρ),
         (compose x1 ρ), (compose x1' ρ), (compose y1 ρ), (compose y1' ρ),
         (compose x2 ρ), (compose x2' ρ), (compose y2 ρ), (compose y2' ρ).
  split_and!;
    try (by apply (sibP_compose _ _ _ ρ π));
    try (by apply (compose_orth _ _ ρ π)).
  - rewrite <- Era. by apply sibP_compose_all.
  - rewrite <- Eca. by apply sibP_compose_all.
Qed.

(** *** The maps of a seeded box *)

Lemma posOf_elem v (l : list value) :
  v ∈ l → posOf v l < length l ∧ l !! posOf v l = Some v.
Proof.
  induction l as [|x l IH]; simpl; [by intros ?%elem_of_nil|].
  destruct (decide (x = v)) as [->|Hne]; [intros _; split; [lia|done]|].
  intros [?|H]%elem_of_cons; [done|]. destruct (IH H). split; [lia|done].
Qed.

Lemma posOf_lookup v (l : list value) k :
  NoDup l → l !! k = Some v → posOf v l = k.
Proof.
  intros Hnd Hk.
  destruct (posOf_elem v l) as [_ H]; [by eapply list_elem_of_lookup_2|].
  by eapply NoDup_lookup.
Qed.

Lemma grid_cells_3_lookup a c :
  a < 3 → c < 3 → grid_cells 3 !! (3 * a + c) = Some (a, c).
Proof.
  intros Ha Hc.
  destruct a as [|[|[|a]]]; [| | |lia]; (destruct c as [|[|[|c]]]; [| | |lia]); reflexivity.
Qed.

Lemma boxOf_lookup b p q a c :
  a < 3 → c < 3 → boxOf b p q !! (3 * a + c) = Some (cell b (3 * p + a) (3 * q + c)).
Proof.
  intros Ha Hc. unfold boxOf. rewrite list_lookup_fmap.
  by rewrite grid_cells_3_lookup.
Qed.

Lemma digitValues_elem v : v ∈ digitValues ↔ ∃ d, d < 9 ∧ v = VNum (numOf d).
Proof.
  unfold digitValues, digits, numOf. cbn [map].
  rewrite !elem_of_cons, elem_of_nil. split.
  - intros H.
    repeat (destruct H as [->|H];
      [first [by exists 0; split; [lia|]|by exists 1; split; [lia|]
             |by exists 2; split; [lia|]|by exists 3; split; [lia|]
             |by exists 4; split; [lia|]|by exists 5; split; [lia|]
             |by exists 6; split; [lia|]|by exists 7; split; [lia|]
             |by exists 8; split; [lia|]]|]).
    done.
  - intros (d & Hd & ->).
    do 9 (destruct d as [|d]; [simpl; auto 12|]). lia.
Qed.

Lemma digitValues_NoDup : NoDup digitValues.
Proof. apply (bool_decide_unpack _). reflexivity. Qed.

Section seeded_box.
Context (b : Board) (p : nat).
Hypothesis Hperm : boxOf b p p ≡ₚ digitValues.

Lemma box_pos d :
  d < 9 → posOf (VNum (numOf d)) (boxOf b p p) < 9 ∧
  boxOf b p p !! posOf (VNum (numOf d)) (boxOf b p p) = Some (VNum (numOf d)).
Proof.
  intros Hd.
  destruct (posOf_elem (VNum (numOf d)) (boxOf b p p)) as [H1 H2].
  { rewrite Hperm. apply digitValues_elem. eauto. }
  split; [|done]. pose proof (Permutation_length Hperm) as Hlen.
  change (length digitValues) with 9 in Hlen. lia.
Qed.

Lemma at_rowMap d :
  d < 9 → at_ (rowMap b p) d = posOf (VNum (numOf d)) (boxOf b p p) / 3.
Proof.
  intros Hd. unfold rowMap, at_.
  rewrite (nth_indep _ 0 ((λ d, posOf (VNum (numOf d)) (boxOf b p p) / 3) 0))
    by (rewrite length_map, length_seq; lia).
  rewrite (map_nth (λ d, posOf (VNum (numOf d)) (boxOf b p p) / 3)).
  by rewrite seq_nth.
Qed.

Lemma at_colMap d :
  d < 9 → at_ (colMap b p) d = posOf (VNum (numOf d)) (boxOf b p p) mod 3.
Proof.
  intros Hd. unfold colMap, at_.
  rewrite (nth_indep _ 0 ((λ d, posOf (VNum (numOf d)) (boxOf b p p) mod 3) 0))
    by (rewrite length_map, length_seq; lia).
  rewrite (map_nth (λ d, posOf (VNum (numOf d)) (boxOf b p p) mod 3)).
  by rewrite seq_nth.
Qed.

Lemma rowMap_wf : wf (rowMap b p).
Proof.
  split; [unfold rowMap; by rewrite length_map, length_seq|].
  intros d. destruct (Nat.lt_ge_cases d 9) as [Hd|Hd].
  - rewrite at_rowMap by done. destruct (box_pos d Hd). lia.
  - unfold at_. rewrite nth_overflow; [lia|].
    unfold rowMap. rewrite length_map, length_seq. lia.
Qed.

Lemma colMap_wf : wf (colMap b p).
Proof.
  split; [unfold colMap; by rewrite length_map, length_seq|].
  intros d. destruct (Nat.lt_ge_cases d 9) as [Hd|Hd].
  - rewrite at_colMap by done. lia.
  - unfold at_. rewrite nth_overflow; [lia|].
    unfold colMap. rewrite length_map, length_seq. lia.
Qed.

Lemma seed_orth : orthP (rowMap b p) (colMap b p).
Proof.
  intros d d' Hd Hd'. rewrite !at_rowMap, !at_colMap by done.
  destruct (box_pos d Hd) as [_ H1]. destruct (box_pos d' Hd') as [_ H2].
  intros Hq Hm.
  assert (posOf (VNum (numOf d)) (boxOf b p p)
          = posOf (VNum (numOf d')) (boxOf b p p)) as He by lia.
  rewrite He in H1. rewrite H1 in H2. unfold numOf in H2.
  injection H2. lia.
Qed.

(** The cells of the box hold what the two maps say. *)
Lemma seed_cell a c :
  a < 3 → c < 3 →
  cell b (3 * p + a) (3 * p + c)
  = VNum (numOf (index_of (3 * a + c) (codes (rowMap b p) (colMap b p)))).
Proof.
  intros Ha Hc.
  pose proof (boxOf_lookup b p p a c Ha Hc) as Hk.
  assert (cell b (3 * p + a) (3 * p + c) ∈ digitValues) as Hin.
  { rewrite <- Hperm. by eapply list_elem_of_lookup_2. }
  apply digitValues_elem in Hin as (d & Hd & Hv). rewrite Hv in *.
  assert (posOf (VNum (numOf d)) (boxOf b p p) = 3 * a + c) as Hpos.
  { apply posOf_lookup; [|done]. rewrite Hperm. apply digitValues_NoDup. }
  do 2 f_equal. symmetry.
  replace (3 * a + c) with (3 * at_ (rowMap b p) d + at_ (colMap b p) d)
    by (rewrite at_rowMap, at_colMap, Hpos by done; lia).
  apply digit_at_unique; [apply rowMap_wf|apply colMap_wf|apply seed_orth|done].
Qed.
End seeded_box.

(** *** Every seeded board has a completion *)

Lemma mkLayout_good ra ca r1 c1 r2 c2 x0 x0' y0 y0' x1 x1' y1 y1' x2 x2' y2 y2' :
  wf ra → wf ca → orthP ra ca →
  wf r1 → wf c1 → orthP r1 c1 →
  wf r2 → wf c2 → orthP r2 c2 →
  sibP ra x0 x0' → sibP ca y0 y0' →
  sibP r1 x1 x1' → sibP c1 y1 y1' →
  sibP r2 x2 x2' → sibP c2 y2 y2' →
  orthP x0 y1' → orthP x0' y2 →
  orthP x1' y0 → orthP x1 y2' →
  orthP x2 y0' → orthP x2' y1 →
  goodLayout (mkLayout (ra, ca) (x0, y1') (x0', y2)
                       (x1', y0) (r1, c1) (x1, y2')
                       (x2, y0') (x2', y1) (r2, c2)).
Proof.
  intros Wa Wca Oa W1 Wc1 O1 W2 Wc2 O2 S0 T0 S1 T1 S2 T2 P1 P2 P3 P4 P5 P6.
  destruct (sibP_wf _ _ _ S0), (sibP_wf _ _ _ T0), (sibP_wf _ _ _ S1),
    (sibP_wf _ _ _ T1), (sibP_wf _ _ _ S2), (sibP_wf _ _ _ T2).
  split_and!.
  - intros p q Hp Hq.
    destruct p as [|[|[|p]]]; [| | |lia]; (destruct q as [|[|[|q]]]; [| | |lia]);
      simpl; by split_and!.
  - intros p q q' d Hp Hq Hq' Hne Hd.
    destruct S0 as (_ & _ & S0), S1 as (_ & _ & S1), S2 as (_ & _ & S2).
    destruct (S0 d Hd) as (_ & _ & ? & ? & ?).
    destruct (S1 d Hd) as (_ & _ & ? & ? & ?).
    destruct (S2 d Hd) as (_ & _ & ? & ? & ?).
    destruct p as [|[|[|p]]]; [| | |lia]; (destruct q as [|[|[|q]]]; [| | |lia]);
      (destruct q' as [|[|[|q']]]; [| | |lia]); simpl; congruence.
  - intros p p' q d Hp Hp' Hq Hne Hd.
    destruct T0 as (_ & _ & T0), T1 as (_ & _ & T1), T2 as (_ & _ & T2).
    destruct (T0 d Hd) as (_ & _ & ? & ? & ?).
    destruct (T1 d Hd) as (_ & _ & ? & ? & ?).
    destruct (T2 d Hd) as (_ & _ & ? & ? & ?).
    destruct p as [|[|[|p]]]; [| | |lia]; (destruct p' as [|[|[|p']]]; [| | |lia]);
      (destruct q as [|[|[|q]]]; [| | |lia]); simpl; congruence.
Qed.

Lemma seeded_completion b :
  seeded b → ∃ sol, validAssign sol ∧ agrees sol b.
Proof.
  intros (Hg & Hbox & Hnull).
  pose proof (Hbox 0 ltac:(lia)) as B0. pose proof (Hbox 1 ltac:(lia)) as B1.
  pose proof (Hbox 2 ltac:(lia)) as B2.
  pose proof (rowMap_wf b 0 B0) as Wr0. pose proof (colMap_wf b 0) as Wc0.
  pose proof (seed_orth b 0 B0) as O0.
  pose proof (rowMap_wf b 1 B1) as Wr1. pose proof (colMap_wf b 1) as Wc1.
  pose proof (seed_orth b 1 B1) as O1.
  pose proof (rowMap_wf b 2 B2) as Wr2. pose proof (colMap_wf b 2) as Wc2.
  pose proof (seed_orth b 2 B2) as O2.
  destruct (balanced_mate _ _ Wr1 Wc1 O1) as [Br1 Bc1].
  destruct (balanced_mate _ _ Wr2 Wc2 O2) as [Br2 Bc2].
  destruct (completion_any (rowMap b 0) (colMap b 0) (rowMap b 1) (colMap b 1)
              (rowMap b 2) (colMap b 2))
    as (x0 & x0' & y0 & y0' & x1 & x1' & y1 & y1' & x2 & x2' & y2 & y2' &
        S0 & T0 & S1 & T1 & S2 & T2 & P1 & P2 & P3 & P4 & P5 & P6); try done.
  set (lay := mkLayout (rowMap b 0, colMap b 0) (x0, y1') (x0', y2)
                       (x1', y0) (rowMap b 1, colMap b 1) (x1, y2')
                       (x2, y0') (x2', y1) (rowMap b 2, colMap b 2)).
  exists (solOf lay). split.
  - apply layout_valid. by apply mkLayout_good.
  - intros i j Hi Hj.
    destruct (decide (i / 3 = j / 3)) as [Hp|Hp]; [right|left; by apply Hnull].
    assert (lay (i / 3) (j / 3) = (rowMap b (i / 3), colMap b (i / 3))) as Hlay.
    { rewrite <- Hp. assert (i / 3 < 3) as H3 by lia.
      revert H3. generalize (i / 3). intros [|[|[|p]]] H3; [done..|lia]. }
    unfold solOf. rewrite Hlay. cbn [fst snd].
    rewrite <- (seed_cell b (i / 3) (Hbox (i / 3) ltac:(lia)) (i mod 3) (j mod 3)) by lia.
    f_equal; lia.
Qed.

(** On a seeded board the solver answers [true], within the depth
    [depth_bound]. *)
Lemma seeded_solved b :
  seeded b → ∃ b', solveSudoku depth_bound b = Some (Ok (true, b')).
Proof.
  intros Hs. destruct (seeded_completion b Hs) as (sol & Hv & Ha).
  apply (solveSudoku_complete sol); try done; [apply Hs|].
  apply countNull_le_81, Hs.
Qed.

End LayoutFacts.

Module GenFacts.
Import LayoutFacts.

(** *** Filling a diagonal box *)

Lemma isSafeInBox_eval b s v :
  grid9 b → s + 3 ≤ 9 →
  isSafeInBox b s s v
  = Ok (negb (existsb (λ '(i, j), strict_eq (cell b (s + i) (s + j)) v) (grid_cells 3))).
Proof.
  intros Hg Hs. unfold isSafeInBox.
  rewrite (anyM_ok _ (λ '(i, j), strict_eq (cell b (s + i) (s + j)) v)).
  2:{ intros [i j] Hij. apply elem_of_grid_cells in Hij.
      rewrite rd_cell by (done || lia). done. }
  done.
Qed.

Lemma isSafeInBox_true b s v :
  grid9 b → s + 3 ≤ 9 → isSafeInBox b s s v = Ok true →
  ∀ a c, a < 3 → c < 3 → cell b (s + a) (s + c) ≠ v.
Proof.
  intros Hg Hs. rewrite isSafeInBox_eval by done.
  intros H%Ok_inj a c Ha Hc Hv. apply negb_true_iff in H.
  assert (existsb (λ '(i, j), strict_eq (cell b (s + i) (s + j)) v) (grid_cells 3) = true);
    [|congruence].
  apply existsb_exists. exists (a, c). split.
  - apply list_elem_of_In, elem_of_grid_cells. done.
  - by apply strict_eq_true.
Qed.

Lemma isSafeInBox_cases b s v :
  grid9 b → s + 3 ≤ 9 → isSafeInBox b s s v = Ok true ∨ isSafeInBox b s s v = Ok false.
Proof.
  intros Hg Hs. rewrite isSafeInBox_eval by done.
  destruct (existsb _ _); auto.
Qed.

Lemma drawFresh_spec b s rs out :
  grid9 b → s + 3 ≤ 9 → draws rs → drawFresh b s rs = Some out →
  ∃ d rs', out = Ok (numOf d, rs') ∧ d < 9 ∧ draws rs' ∧
           ∀ a c, a < 3 → c < 3 → cell b (s + a) (s + c) ≠ VNum (numOf d).
Proof.
  intros Hg Hs. induction rs as [|k rs IH]; intros Hrs; simpl; [done|].
  apply Forall_cons in Hrs as [Hk Hrs].
  destruct (isSafeInBox_cases b s (VNum (Z.of_nat k + 1)) Hg Hs) as [E|E]; rewrite E.
  - intros [= <-]. exists k, rs. split_and!; try done.
    by apply isSafeInBox_true.
  - by apply IH.
Qed.

Lemma fillCells_spec p cells b rs out :
  p < 3 → NoDup cells → fillState b p cells → draws rs →
  fillCells (3 * p) cells b rs = Some out →
  ∃ b' rs', out = Ok (b', rs') ∧ fillState b' p [] ∧ draws rs' ∧
    ∀ i j, i < 9 → j < 9 → ¬ (i / 3 = p ∧ j / 3 = p) → cell b' i j = cell b i j.
Proof.
  intros Hp. revert b rs.
  induction cells as [|[a0 c0] cells IH]; intros b rs Hnd Hst Hrs; cbn [fillCells].
  - intros [= <-]. by exists b, rs.
  - destruct Hst as (Hg & Hpend & Hfill & Hinj).
    apply NoDup_cons in Hnd as [Hnotin Hnd].
    destruct (Hpend a0 c0) as (Ha0 & Hc0 & Hnull); [apply elem_of_cons; by left|].
    destruct (drawFresh b (3 * p) rs) as [o|] eqn:Ed; [|done].
    destruct (drawFresh_spec b (3 * p) rs o Hg ltac:(lia) Hrs Ed)
      as (d & rs1 & -> & Hd & Hrs1 & Hfresh).
    rewrite wr_setCell by (done || lia).
    set (b1 := setCell b (3 * p + a0) (3 * p + c0) (VNum (numOf d))).
    assert (grid9 b1) as Hg1 by (by apply grid9_setCell).
    assert (∀ a c, (a, c) ≠ (a0, c0) →
              cell b1 (3 * p + a) (3 * p + c) = cell b (3 * p + a) (3 * p + c)) as Hother.
    { intros a c Hne. apply cell_setCell_ne. intros [= ? ?]. apply Hne. f_equal; lia. }
    assert (cell b1 (3 * p + a0) (3 * p + c0) = VNum (numOf d)) as Hnew.
    { apply cell_setCell_eq; (done || lia). }
    intros Hrun.
    destruct (IH b1 rs1 Hnd) as (b' & rs' & -> & Hst' & Hrs' & Hout); try done.
    { split_and!; [done| | |].
      - intros a c Hin. destruct (Hpend a c) as (? & ? & ?); [apply elem_of_cons; by right|].
        split_and!; try done. rewrite Hother; [done|]. by intros [= -> ->].
      - intros a c Ha Hc Hnin.
        destruct (decide ((a, c) = (a0, c0))) as [[= -> ->]|Hne]; [by exists d|].
        rewrite Hother by done. apply Hfill; try done.
        by intros [?|?]%elem_of_cons.
      - intros a c a' c' Ha Hc Ha' Hc' Hnin Hnin'.
        destruct (decide ((a, c) = (a0, c0))) as [[= -> ->]|Hne];
          destruct (decide ((a', c') = (a0, c0))) as [[= -> ->]|Hne']; [done| | |].
        + rewrite Hnew, Hother by done. intros H. by destruct (Hfresh a' c').
        + rewrite Hnew, Hother by done. intros H. by destruct (Hfresh a c).
        + rewrite !Hother by done. apply Hinj; try done; by intros [?|?]%elem_of_cons. }
    exists b', rs'. split_and!; try done.
    intros i j Hi Hj Hbox. rewrite Hout by done.
    apply cell_setCell_ne. intros [= -> ->]. apply Hbox. lia.
Qed.

Lemma grid_cells_3_NoDup : NoDup (grid_cells 3).
Proof. apply (bool_decide_unpack _). reflexivity. Qed.

Lemma fillState_perm b p : fillState b p [] → boxOf b p p ≡ₚ digitValues.
Proof.
  intros (Hg & _ & Hfill & Hinj). apply submseteq_length_Permutation.
  - apply NoDup_submseteq.
    + unfold boxOf. apply (NoDup_fmap_2_strong _ (grid_cells 3)); [|apply grid_cells_3_NoDup].
      intros [a c] [a' c'] H1%elem_of_grid_cells H2%elem_of_grid_cells.
      apply Hinj; try lia; apply not_elem_of_nil.
    + intros v Hv. unfold boxOf in Hv.
      apply (list_elem_of_fmap_1 _ _ v) in Hv as ([a c] & -> & Hin).
      apply elem_of_grid_cells in Hin.
      destruct (Hfill a c) as (d & Hd & ->); [lia|lia|apply not_elem_of_nil|].
      apply digitValues_elem. eauto.
  - unfold boxOf. by rewrite length_map.
Qed.

Lemma fillState_start b p :
  grid9 b → (∀ a c, a < 3 → c < 3 → cell b (3 * p + a) (3 * p + c) = VNull) →
  fillState b p (grid_cells 3).
Proof.
  intros Hg Hnull. split_and!; [done| | |].
  - intros a c Hin%elem_of_grid_cells. split_and!; try lia. apply Hnull; lia.
  - intros a c Ha Hc Hnin. destruct Hnin. by apply elem_of_grid_cells.
  - intros a c a' c' Ha Hc _ _ Hnin. destruct Hnin. by apply elem_of_grid_cells.
Qed.

Lemma boxOf_ext b b' p q :
  (∀ a c, a < 3 → c < 3 →
     cell b' (3 * p + a) (3 * q + c) = cell b (3 * p + a) (3 * q + c)) →
  boxOf b' p q = boxOf b p q.
Proof.
  intros H. unfold boxOf. apply map_ext_in. intros [a c] Hin.
  apply list_elem_of_In, elem_of_grid_cells in Hin. apply H; lia.
Qed.

(** One call of [fillDiagonalBox] on a box that is still empty. *)
Lemma fillDiagonalBox_spec p b rs out :
  p < 3 → grid9 b →
  (∀ a c, a < 3 → c < 3 → cell b (3 * p + a) (3 * p + c) = VNull) →
  draws rs → fillDiagonalBox b (3 * p) rs = Some out →
  ∃ b' rs', out = Ok (b', rs') ∧ grid9 b' ∧ draws rs' ∧
    boxOf b' p p ≡ₚ digitValues ∧
    ∀ i j, i < 9 → j < 9 → ¬ (i / 3 = p ∧ j / 3 = p) → cell b' i j = cell b i j.
Proof.
  intros Hp Hg Hnull Hrs Hrun. unfold fillDiagonalBox in Hrun.
  destruct (fillCells_spec p (grid_cells 3) b rs out)
    as (b' & rs' & -> & Hst & Hrs' & Hout); try done.
  { apply grid_cells_3_NoDup. }
  { by apply fillState_start. }
  exists b', rs'. split_and!; try done; [apply Hst|by apply fillState_perm].
Qed.

Lemma emptyBoard_grid9 : grid9 emptyBoard.
Proof.
  split; [done|]. unfold emptyBoard.
  apply Forall_replicate. split; [done|]. by apply Forall_replicate.
Qed.

Lemma emptyBoard_cell i j : i < 9 → j < 9 → cell emptyBoard i j = VNull.
Proof.
  intros Hi Hj.
  do 9 (destruct i as [|i]; [do 9 (destruct j as [|j]; [reflexivity|]); lia|]). lia.
Qed.

(** The three calls of the generator leave a seeded board. *)
Lemma fill_seeded rs b1 rs1 b2 rs2 b3 rs3 :
  draws rs →
  fillDiagonalBox emptyBoard 0 rs = Some (Ok (b1, rs1)) →
  fillDiagonalBox b1 3 rs1 = Some (Ok (b2, rs2)) →
  fillDiagonalBox b2 6 rs2 = Some (Ok (b3, rs3)) →
  seeded b3 ∧ draws rs3.
Proof.
  intros Hrs F1 F2 F3.
  assert (∀ a c, a < 3 → c < 3 → cell emptyBoard (3 * 0 + a) (3 * 0 + c) = VNull) as E0.
  { intros; apply emptyBoard_cell; lia. }
  destruct (fillDiagonalBox_spec 0 emptyBoard rs _ ltac:(lia) emptyBoard_grid9 E0 Hrs F1)
    as (? & ? & [= <- <-] & Hg1 & Hrs1 & P1 & U1).
  assert (∀ a c, a < 3 → c < 3 → cell b1 (3 * 1 + a) (3 * 1 + c) = VNull) as E1.
  { intros a c Ha Hc. rewrite U1 by lia. apply emptyBoard_cell; lia. }
  destruct (fillDiagonalBox_spec 1 b1 rs1 _ ltac:(lia) Hg1 E1 Hrs1 F2)
    as (? & ? & [= <- <-] & Hg2 & Hrs2 & P2 & U2).
  assert (∀ a c, a < 3 → c < 3 → cell b2 (3 * 2 + a) (3 * 2 + c) = VNull) as E2.
  { intros a c Ha Hc. rewrite U2, U1 by lia. apply emptyBoard_cell; lia. }
  destruct (fillDiagonalBox_spec 2 b2 rs2 _ ltac:(lia) Hg2 E2 Hrs2 F3)
    as (? & ? & [= <- <-] & Hg3 & Hrs3 & P3 & U3).
  split; [|done]. split_and!; [done| |].
  - intros p Hp. destruct p as [|[|[|p]]]; [| | |lia].
    + assert (boxOf b3 0 0 = boxOf b1 0 0) as ->; [|done].
      etrans; apply boxOf_ext; intros a c Ha Hc; [apply U3|apply U2]; lia.
    + assert (boxOf b3 1 1 = boxOf b2 1 1) as ->; [|done].
      apply boxOf_ext; intros a c Ha Hc; apply U3; lia.
    + done.
  - intros i j Hi Hj Hne. rewrite U3, U2, U1 by lia. by apply emptyBoard_cell.
Qed.

(** *** The solved board is a valid solution *)

Lemma seeded_legal b : seeded b → legal b.
Proof.
  intros (Hg & Hbox & Hnull) i j i' j' n Hi Hj Hi' Hj' Hne Hunit Hv Hv'.
  assert (i / 3 = j / 3) as Hd.
  { destruct (decide (i / 3 = j / 3)); [done|]. rewrite Hnull in Hv by done. done. }
  assert (i' / 3 = j' / 3) as Hd'.
  { destruct (decide (i' / 3 = j' / 3)); [done|]. rewrite Hnull in Hv' by done. done. }
  assert (i' / 3 = i / 3) as Hp by (destruct Hunit as [->|[->|[? ?]]]; lia).
  pose proof (Hbox (i / 3) ltac:(lia)) as Hperm.
  assert (NoDup (boxOf b (i / 3) (i / 3))) as Hnd.
  { rewrite Hperm. apply digitValues_NoDup. }
  pose proof (boxOf_lookup b (i / 3) (i / 3) (i mod 3) (j mod 3) ltac:(lia) ltac:(lia)) as L1.
  pose proof (boxOf_lookup b (i / 3) (i / 3) (i' mod 3) (j' mod 3) ltac:(lia) ltac:(lia)) as L2.
  replace (3 * (i / 3) + i mod 3) with i in L1 by lia.
  replace (3 * (i / 3) + j mod 3) with j in L1 by lia.
  replace (3 * (i / 3) + i' mod 3) with i' in L2 by lia.
  replace (3 * (i / 3) + j' mod 3) with j' in L2 by lia.
  rewrite Hv in L1. rewrite Hv' in L2.
  pose proof (NoDup_lookup _ _ _ _ Hnd L1 L2) as He.
  apply Hne. f_equal; lia.
Qed.

Lemma unit_perm {A} (b : Board) (l : list A) (g : A → nat * nat) :
  legal b →
  (∀ i j, i < 9 → j < 9 → cell b i j ∈ digitValues) →
  NoDup l → length l = 9 →
  (∀ x, x ∈ l → (g x).1 < 9 ∧ (g x).2 < 9) →
  (∀ x y, x ∈ l → y ∈ l → g x = g y → x = y) →
  (∀ x y, x ∈ l → y ∈ l → sameUnit (g x).1 (g x).2 (g y).1 (g y).2) →
  map (λ x, cell b (g x).1 (g x).2) l ≡ₚ digitValues.
Proof.
  intros Hleg Hdig Hnd Hlen Hrange Hinj Hunit.
  apply submseteq_length_Permutation.
  - apply NoDup_submseteq.
    + apply (NoDup_fmap_2_strong _ l); [|done].
      intros x y Hx Hy Heq. apply Hinj; try done.
      destruct (decide (g x = g y)) as [|Hne]; [done|exfalso].
      destruct (Hrange x Hx), (Hrange y Hy).
      destruct (proj1 (digitValues_elem _) (Hdig (g x).1 (g x).2 ltac:(done) ltac:(done)))
        as (d & _ & Hd).
      apply (Hleg (g x).1 (g x).2 (g y).1 (g y).2 (numOf d)); try done.
      * intros E. apply Hne. by apply injective_projections; [injection E|injection E].
      * by apply Hunit.
      * by rewrite <- Heq.
    + intros v Hv. apply (list_elem_of_fmap_1 _ _ v) in Hv as (x & -> & Hx).
      destruct (Hrange x Hx). by apply Hdig.
  - rewrite length_map, Hlen. done.
Qed.

Lemma legal_valid b :
  legal b → (∀ i j, i < 9 → j < 9 → cell b i j ∈ digitValues) → validSolution b.
Proof.
  intros Hleg Hdig. split_and!.
  - intros i Hi. unfold rowOf.
    apply (unit_perm b (seq 0 9) (λ j, (i, j))); try done.
    + apply NoDup_seq.
    + intros j Hj%elem_of_seq. simpl. lia.
    + by intros x y _ _ [= ?].
    + intros x y _ _. by left.
  - intros j Hj. unfold colOf.
    apply (unit_perm b (seq 0 9) (λ i, (i, j))); try done.
    + apply NoDup_seq.
    + intros i Hi%elem_of_seq. simpl. lia.
    + by intros x y _ _ [= ?].
    + intros x y _ _. right. by left.
  - intros p q Hp Hq. unfold boxOf.
    rewrite (map_ext _ (λ x, cell b ((λ '(i, j), (3 * p + i, 3 * q + j)) x).1
                                   ((λ '(i, j), (3 * p + i, 3 * q + j)) x).2))
      by (by intros [i j]).
    apply (unit_perm b (grid_cells 3) (λ '(i, j), (3 * p + i, 3 * q + j))); try done.
    + apply grid_cells_3_NoDup.
    + intros [i j] H%elem_of_grid_cells. cbn [fst snd]. lia.
    + intros [i j] [i' j'] _ _ [= ? ?]. f_equal; lia.
    + intros [i j] [i' j'] H%elem_of_grid_cells H'%elem_of_grid_cells.
      right; right. cbn [fst snd]. lia.
Qed.

(** What the solver leaves from a seeded board. *)
Lemma seeded_result b b' :
  seeded b → solvedFrom b b' → validSolution b' ∧ full b' ∧ grid9 b'.
Proof.
  intros Hs (Hg' & Hfull & Hext & Hplaced & Hleg). split_and!; try done.
  apply legal_valid; [by apply Hleg, seeded_legal|].
  intros i j Hi Hj.
  destruct (decide (cell b i j = VNull)) as [Hn|Hn].
  - destruct (Hplaced i j Hi Hj Hn) as (d & -> & Hd).
    apply digitValues_elem. exists (Z.to_nat (d - 1)). unfold numOf.
    split; [lia|]. f_equal. lia.
  - rewrite Hext by done.
    destruct Hs as (Hg & Hbox & Hnull).
    destruct (decide (i / 3 = j / 3)) as [Hd|Hd]; [|by rewrite Hnull in Hn].
    rewrite <- (Hbox (i / 3) ltac:(lia)).
    pose proof (boxOf_lookup b (i / 3) (i / 3) (i mod 3) (j mod 3) ltac:(lia) ltac:(lia)) as L.
    replace (3 * (i / 3) + i mod 3) with i in L by lia.
    replace (3 * (i / 3) + j mod 3) with j in L by lia.
    by eapply list_elem_of_lookup_2.
Qed.

(** *** Carving *)

Lemma deepCopy_id b : grid9 b → deepCopy b = b.
Proof.
  intros [_ Hrows]. unfold deepCopy.
  rewrite <- (map_id b) at 2. apply map_ext_in. intros row Hrow.
  apply list_elem_of_In in Hrow.
  destruct (proj1 (Forall_forall _ _) Hrows row Hrow) as [_ Hv].
  rewrite <- (map_id row) at 2. apply map_ext_in. intros v Hin.
  apply list_elem_of_In in Hin.
  pose proof (proj1 (Forall_forall _ _) Hv v Hin). by destruct v.
Qed.

Lemma countClues_clear b i j :
  grid9 b → i < 9 → j < 9 → cell b i j ≠ VNull →
  S (countClues (setCell b i j VNull)) = countClues b.
Proof.
  intros Hg Hi Hj Hne. unfold countClues.
  pose proof (count_setCell (λ v, v ≠ VNull) b i j VNull Hg Hi Hj) as H.
  destruct (decide (cell b i j ≠ VNull)); [|done].
  destruct (decide (VNull ≠ VNull)); [done|]. lia.
Qed.

Lemma carve_spec n rs count p out :
  length rs ≤ n → grid9 p → draws rs → carve count p rs = Some out →
  ∃ p' rs', out = Ok (p', rs') ∧ grid9 p' ∧ draws rs' ∧
            countClues p' + count = countClues p ∧ carvedFrom p p'.
Proof.
  revert rs count p. induction n as [|n IH]; intros rs count p Hlen Hg Hrs.
  - destruct rs; [|simpl in Hlen; lia].
    destruct count; [|done]. intros [= <-].
    exists p, []. split_and!; first [done|lia|intros i j _ _; by right].
  - destruct count as [|count].
    { destruct rs as [|k rs]; intros [= <-]; eexists p, _;
        split_and!; first [done|lia|intros i j _ _; by right]. }
    destruct rs as [|i [|j rs]]; [done..|].
    apply Forall_cons in Hrs as [Hi Hrs]. apply Forall_cons in Hrs as [Hj Hrs].
    cbn [carve]. rewrite rd_cell by done.
    destruct (strict_eq (cell p i j) VNull) eqn:E.
    + apply IH; try done. simpl in Hlen. lia.
    + apply strict_eq_false in E. rewrite wr_setCell by done.
      intros Hrun.
      destruct (IH rs count (setCell p i j VNull))
        as (p' & rs' & -> & Hg' & Hrs' & Hcount & Hsub); try done.
      { simpl in Hlen. lia. }
      { by apply grid9_setCell. }
      exists p', rs'. split_and!; try done.
      * pose proof (countClues_clear p i j Hg Hi Hj E). lia.
      * intros i' j' Hi' Hj'. destruct (Hsub i' j' Hi' Hj') as [?|Heq]; [by left|].
        rewrite Heq. destruct (decide ((i', j') = (i, j))) as [[= -> ->]|Hne].
        -- left. by apply cell_setCell_eq.
        -- right. by apply cell_setCell_ne.
Qed.

Lemma full_countClues b : grid9 b → full b → countClues b = 81.
Proof.
  intros Hg Hf. pose proof (count_split b). pose proof (grid9_cells b Hg).
  pose proof (full_countNull b Hg Hf). lia.
Qed.

(** *** The generator *)

Lemma generateSudoku_spec diff rs out :
  draws rs → generateSudoku diff rs = Some out →
  ∃ inst rs', out = Ok (inst, rs') ∧
    validSolution (solved inst) ∧ full (solved inst) ∧ grid9 (solved inst) ∧
    grid9 (puzzle inst) ∧ countClues (puzzle inst) + attempts diff = 81 ∧
    carvedFrom (solved inst) (puzzle inst).
Proof.
  intros Hrs. unfold generateSudoku.
  destruct (fillDiagonalBox emptyBoard 0 rs) as [o1|] eqn:F1; [|done].
  assert (∀ a c, a < 3 → c < 3 → cell emptyBoard (3 * 0 + a) (3 * 0 + c) = VNull) as E0.
  { intros; apply emptyBoard_cell; lia. }
  destruct (fillDiagonalBox_spec 0 emptyBoard rs _ ltac:(lia) emptyBoard_grid9 E0 Hrs F1)
    as (b1 & rs1 & -> & Hg1 & Hrs1 & P1 & U1).
  destruct (fillDiagonalBox b1 3 rs1) as [o2|] eqn:F2; [|done].
  assert (∀ a c, a < 3 → c < 3 → cell b1 (3 * 1 + a) (3 * 1 + c) = VNull) as E1.
  { intros a c Ha Hc. rewrite U1 by lia. apply emptyBoard_cell; lia. }
  destruct (fillDiagonalBox_spec 1 b1 rs1 _ ltac:(lia) Hg1 E1 Hrs1 F2)
    as (b2 & rs2 & -> & Hg2 & Hrs2 & P2 & U2).
  destruct (fillDiagonalBox b2 6 rs2) as [o3|] eqn:F3; [|done].
  assert (∀ a c, a < 3 → c < 3 → cell b2 (3 * 2 + a) (3 * 2 + c) = VNull) as E2.
  { intros a c Ha Hc. rewrite U2, U1 by lia. apply emptyBoard_cell; lia. }
  destruct (fillDiagonalBox_spec 2 b2 rs2 _ ltac:(lia) Hg2 E2 Hrs2 F3)
    as (b3 & rs3 & -> & Hg3 & Hrs3 & P3 & U3).
  destruct (fill_seeded rs b1 rs1 b2 rs2 b3 rs3 Hrs F1 F2 F3) as [Hseed _].
  destruct (seeded_solved b3 Hseed) as (b' & Hsolve). rewrite Hsolve.
  destruct (solveSudoku_returns _ _ _ Hg3 Hsolve) as (ok & b'' & [= <- <-] & Hpost).
  destruct (seeded_result b3 b' Hseed Hpost) as (Hvalid & Hfull & Hg').
  rewrite deepCopy_id by done.
  destruct (carve (attempts diff) b' rs3) as [o5|] eqn:C; [|done].
  destruct (carve_spec _ rs3 (attempts diff) b' o5 (Nat.le_refl _) Hg' Hrs3 C)
    as (p' & rs4 & -> & Hgp & Hrs4 & Hcount & Hsub).
  intros [= <-]. eexists _, rs4. split; [done|]. simpl.
  split_and!; try done. rewrite Hcount. by apply full_countClues.
Qed.

End GenFacts.

Import LayoutFacts GenFacts.

(** ** The engine's contract *)

Ltac by_eval := apply (bool_decide_unpack _); vm_compute; exact I.

(** *** Facts about the concrete boards *)

Lemma rs_easy_draws : draws rs_easy.
Proof. unfold draws. by_eval. Qed.

Lemma rs_hard_draws : draws rs_hard.
Proof. unfold draws. by_eval. Qed.

Lemma run_easy :
  generateSudoku easy rs_easy
  = Some (Ok ({| solved := solved0; puzzle := cleared 30 |}, [])).
Proof. vm_compute. reflexivity. Qed.

Lemma run_hard :
  generateSudoku hard rs_hard
  = Some (Ok ({| solved := solved0; puzzle := cleared 56 |}, [])).
Proof. vm_compute. reflexivity. Qed.

Lemma seed0_grid9 : grid9 seed0.
Proof. by_eval. Qed.

Lemma seed0_seeded : seeded seed0.
Proof.
  split_and!; [apply seed0_grid9| |].
  - intros p Hp. destruct p as [|[|[|p]]]; [reflexivity..|lia].
  - intros i j Hi Hj Hne.
    do 9 (destruct i as [|i];
          [do 9 (destruct j as [|j]; [first [reflexivity|by destruct Hne]|]); lia|]).
    lia.
Qed.

Lemma ones_full : full ones.
Proof.
  intros i j Hi Hj. exists 1%Z.
  do 9 (destruct i as [|i]; [do 9 (destruct j as [|j]; [reflexivity|]); lia|]). lia.
Qed.

Lemma ones_illegal : ¬ legal ones.
Proof.
  intros H. apply (H 0 0 0 1 1%Z); try lia; try done. by left.
Qed.

Lemma lone5_alone i j : i < 9 → j < 9 → (i, j) ≠ (0, 0) → cell lone5 i j = VNull.
Proof.
  intros Hi Hj Hne.
  do 9 (destruct i as [|i];
        [do 9 (destruct j as [|j]; [first [reflexivity|by destruct Hne]|]); lia|]).
  lia.
Qed.

Lemma heap_run_solved0 :
  ∃ σ', Heap.checkWin (Heap.HRef 0) (heapOf solved0) = Ok (true, σ').
Proof. eexists. vm_compute. reflexivity. Qed.

(** *** [checkWin] as a predicate *)

Lemma checkWin_true_char b :
  grid9 b →
  checkWin b = Ok true ↔
  ∀ i j, i < 9 → j < 9 →
    cell b i j ≠ VNull ∧ ¬ occursInPeers (setCell b i j VNull) i j (cell b i j).
Proof.
  intros Hg. rewrite checkWin_eval by done. split.
  - intros H%Ok_inj%negb_true_iff i j Hi Hj.
    apply cellLost_false; try done.
    destruct (cellLost b (i, j)) eqn:E; [|done].
    assert (existsb (cellLost b) (grid_cells 9) = true); [|congruence].
    apply existsb_exists. exists (i, j). split; [|done].
    by apply list_elem_of_In, elem_of_grid_cells.
  - intros H. f_equal. apply negb_true_iff, not_true_is_false.
    intros ([i j] & Hin & Hl)%existsb_exists.
    apply list_elem_of_In, elem_of_grid_cells in Hin as [Hi Hj].
    pose proof (proj2 (cellLost_false b i j Hg Hi Hj) (H i j Hi Hj)). congruence.
Qed.

Lemma checkWin_cases b : grid9 b → checkWin b = Ok true ∨ checkWin b = Ok false.
Proof.
  intros Hg. rewrite checkWin_eval by done.
  destruct (existsb _ _); auto.
Qed.

(** *** The generator never throws *)

Lemma generateSudoku_no_throw diff rs : draws rs → generateSudoku diff rs ≠ Some Throw.
Proof.
  intros Hrs H. by destruct (generateSudoku_spec diff rs _ Hrs H) as (? & ? & ? & _).
Qed.

(** C1.  Whatever the draws, the solved grid returned by
    [generateSudoku] is complete and every row, column and 3×3 box of
    it is a permutation of 1–9. *)
Theorem generateSudoku_solved_valid diff rs inst rs' :
  draws rs → generateSudoku diff rs = Some (Ok (inst, rs')) →
  validSolution (solved inst) ∧ full (solved inst).
Proof.
  intros Hrs Hrun.
  destruct (generateSudoku_spec diff rs _ Hrs Hrun) as (i & r & [= <- <-] & Hv & Hf & _).
  done.
Qed.

Lemma generateSudoku_solved_valid_witness : validSolution solved0 ∧ full solved0.
Proof.
  exact (generateSudoku_solved_valid easy rs_easy _ _ rs_easy_draws run_easy).
Defined.

(** C2.  On a board whose three diagonal boxes hold a permutation of
    1–9 each and whose other cells are empty, [solveSudoku] returns
    [true] within the recursion depth 81, leaving a complete valid
    grid that keeps the seeded cells. *)
Theorem solveSudoku_seeded_true b :
  seeded b →
  ∃ b', solveSudoku depth_bound b = Some (Ok (true, b')) ∧
        solvedFrom b b' ∧ validSolution b'.
Proof.
  intros Hs. destruct (seeded_solved b Hs) as (b' & Hrun). exists b'.
  destruct (solveSudoku_returns _ _ _ (proj1 Hs) Hrun) as (ok & b'' & [= <- <-] & Hpost).
  split_and!; try done. by destruct (seeded_result b b' Hs Hpost).
Qed.

Lemma solveSudoku_seeded_true_witness :
  ∃ b', solveSudoku depth_bound seed0 = Some (Ok (true, b')) ∧
        solvedFrom seed0 b' ∧ validSolution b'.
Proof. exact (solveSudoku_seeded_true seed0 seed0_seeded). Defined.

(** C3.  On a 9×9 board [solveSudoku] returns without throwing, and
    when it answers [false] the board is the one it was given; this
    holds for every call, whatever the depth allowed. *)
Theorem solveSudoku_false_restores b :
  grid9 b →
  (∃ ok b', solveSudoku depth_bound b = Some (Ok (ok, b')) ∧ (ok = false → b' = b)) ∧
  (∀ fuel out, solveSudoku fuel b = Some out →
     ∃ ok b', out = Ok (ok, b') ∧ (ok = false → b' = b)).
Proof.
  intros Hg. split.
  - destruct (solveSudoku_post depth_bound b Hg (countNull_le_81 b Hg))
      as (ok & b' & Hrun & Hpost).
    exists ok, b'. split; [done|]. by intros ->.
  - intros fuel out Hrun.
    destruct (solveSudoku_returns fuel b out Hg Hrun) as (ok & b' & [= ->] & Hpost).
    exists ok, b'. split; [done|]. by intros ->.
Qed.

Lemma solveSudoku_false_restores_witness :
  ∃ ok b', solveSudoku depth_bound stuck0 = Some (Ok (ok, b')) ∧ (ok = false → b' = stuck0).
Proof. exact (proj1 (solveSudoku_false_restores stuck0 ltac:(by_eval))). Defined.

(** C4.  On a 9×9 board [checkWin] answers [true] exactly when no cell
    is empty and no cell's number occurs in another cell of its row,
    column or box once the cell is emptied; it answers [false] when a
    cell is empty and when two cells of a row, column or box hold the
    same number; it never throws. *)
Theorem checkWin_true_iff b :
  grid9 b →
  (checkWin b = Ok true ↔
   ∀ i j, i < 9 → j < 9 →
     cell b i j ≠ VNull ∧ ¬ occursInPeers (setCell b i j VNull) i j (cell b i j)) ∧
  (checkWin b = Ok true ∨ checkWin b = Ok false) ∧
  ((∃ i j, i < 9 ∧ j < 9 ∧ cell b i j = VNull) → checkWin b = Ok false) ∧
  ((∃ i j i' j' n, i < 9 ∧ j < 9 ∧ i' < 9 ∧ j' < 9 ∧ (i, j) ≠ (i', j') ∧
                   sameUnit i j i' j' ∧ cell b i j = VNum n ∧ cell b i' j' = VNum n) →
   checkWin b = Ok false).
Proof.
  intros Hg. pose proof (checkWin_true_char b Hg) as Hchar.
  pose proof (checkWin_cases b Hg) as Hcases.
  split_and!; try done.
  - intros (i & j & Hi & Hj & Hnull).
    destruct Hcases as [Ht|]; [|done].
    by destruct (proj1 Hchar Ht i j Hi Hj) as [? _].
  - intros (i & j & i' & j' & n & Hi & Hj & Hi' & Hj' & Hne & Hunit & Hv & Hv').
    destruct Hcases as [Ht|]; [|done].
    destruct (proj1 Hchar Ht i j Hi Hj) as [_ Hpeer]. destruct Hpeer.
    assert ((i', j') ≠ (i, j)) as Hne' by (by intros [= -> ->]).
    exists i', j'. split_and!; try done.
    rewrite cell_setCell_ne by done. congruence.
Qed.

Lemma checkWin_true_iff_witness :
  checkWin solved0 = Ok true ↔
  ∀ i j, i < 9 → j < 9 →
    cell solved0 i j ≠ VNull ∧
    ¬ occursInPeers (setCell solved0 i j VNull) i j (cell solved0 i j).
Proof. exact (proj1 (checkWin_true_iff solved0 ltac:(by_eval))). Defined.

(** C5, as the code has it.  [isSafe] answers [false] exactly when the
    number occurs in some cell of the row, the column or the box — the
    cell [(r, c)] included; when the cell [(r, c)] does not hold the
    number this is the same as occurring in another cell.  The call
    changes nothing in the store. *)
Theorem isSafe_false_iff_occurs g r c d :
  grid9 g → r < 9 → c < 9 →
  (isSafe g r c (VNum d) = Ok false ↔ occursInUnits g r c (VNum d)) ∧
  (isSafe g r c (VNum d) = Ok true ↔ ¬ occursInUnits g r c (VNum d)) ∧
  (cell g r c ≠ VNum d →
   (isSafe g r c (VNum d) = Ok false ↔ occursInPeers g r c (VNum d))) ∧
  (∀ σ cur ans σ', Heap.isSafe cur r c (Heap.HNum d) σ = Ok (ans, σ') → σ' = σ).
Proof.
  intros Hg Hr Hc. split_and!.
  - by apply isSafe_false_iff.
  - by apply isSafe_true_iff.
  - intros Hne. rewrite isSafe_false_iff by done. by apply occurs_units_peers.
  - intros σ cur ans σ'. apply heap_isSafe_pure.
Qed.

Lemma isSafe_false_iff_occurs_witness :
  isSafe lone5 0 0 (VNum 5) = Ok false ↔ occursInUnits lone5 0 0 (VNum 5).
Proof.
  exact (proj1 (isSafe_false_iff_occurs lone5 0 0 5 ltac:(by_eval) ltac:(lia) ltac:(lia))).
Defined.

(** C5, as stated, fails: on the board whose only number is a 5 in
    the top-left cell, [isSafe(b, 0, 0, 5)] answers [false] although no
    other cell of the row, the column or the box holds a 5. *)
Lemma isSafe_counts_own_cell :
  grid9 lone5 ∧ isSafe lone5 0 0 (VNum 5) = Ok false ∧
  ¬ occursInPeers lone5 0 0 (VNum 5).
Proof.
  split_and!.
  - by_eval.
  - vm_compute. reflexivity.
  - intros (i & j & Hi & Hj & Hne & _ & Hv).
    by rewrite lone5_alone in Hv.
Qed.

(** C6.  The puzzle returned by [generateSudoku] has 81 minus the
    number of cells to clear non-empty cells, each of them holds the
    number of the solved grid, and the solved grid is still complete. *)
Theorem generateSudoku_puzzle_clues diff rs inst rs' :
  draws rs → generateSudoku diff rs = Some (Ok (inst, rs')) →
  countClues (puzzle inst) = 81 - attempts diff ∧
  (∀ i j, i < 9 → j < 9 → cell (puzzle inst) i j ≠ VNull →
     cell (puzzle inst) i j = cell (solved inst) i j) ∧
  full (solved inst) ∧ validSolution (solved inst).
Proof.
  intros Hrs Hrun.
  destruct (generateSudoku_spec diff rs _ Hrs Hrun)
    as (i & r & [= <- <-] & Hv & Hf & _ & _ & Hcount & Hsub).
  split_and!; try done; [lia|].
  intros a c Ha Hc Hne. by destruct (Hsub a c Ha Hc).
Qed.

Lemma generateSudoku_puzzle_clues_witness :
  countClues (cleared 56) = 81 - attempts hard ∧
  (∀ i j, i < 9 → j < 9 → cell (cleared 56) i j ≠ VNull →
     cell (cleared 56) i j = cell solved0 i j) ∧
  full solved0 ∧ validSolution solved0.
Proof.
  exact (generateSudoku_puzzle_clues hard rs_hard _ _ rs_hard_draws run_hard).
Defined.

(** C7.  The number of cells to clear is 30 for easy, 45 for medium
    and 56 for hard, so an easy puzzle has 51 clues and a hard one
    25. *)
Theorem attempts_clue_counts rs inst rs' :
  draws rs →
  (attempts easy = 30 ∧ attempts medium = 45 ∧ attempts hard = 56) ∧
  (generateSudoku easy rs = Some (Ok (inst, rs')) → countClues (puzzle inst) = 51) ∧
  (generateSudoku hard rs = Some (Ok (inst, rs')) → countClues (puzzle inst) = 25).
Proof.
  intros Hrs. split_and!; try done; intros Hrun;
    destruct (generateSudoku_spec _ rs _ Hrs Hrun)
      as (i & r & [= <- <-] & _ & _ & _ & _ & Hcount & _);
    simpl in Hcount; lia.
Qed.

Lemma attempts_clue_counts_witness : countClues (cleared 30) = 51.
Proof.
  exact (proj1 (proj2 (attempts_clue_counts rs_easy _ _ rs_easy_draws)) run_easy).
Defined.

(** C8.  On a 9×9 board [solveSudoku] returns, with a recursion depth
    of at most the number of empty cells, which is at most 81: a
    deeper allowance changes nothing, and the board handed to a
    recursive call has one empty cell less. *)
Theorem solveSudoku_terminates b :
  grid9 b →
  countNull b ≤ depth_bound ∧
  (∃ ok b', solveSudoku (countNull b) b = Some (Ok (ok, b'))) ∧
  (∀ fuel, countNull b ≤ fuel → solveSudoku fuel b = solveSudoku (countNull b) b) ∧
  (∀ r c n, findEmpty b = Ok (Some (r, c)) →
     wr b r c (VNum n) = Ok (setCell b r c (VNum n)) ∧
     S (countNull (setCell b r c (VNum n))) = countNull b).
Proof.
  intros Hg.
  destruct (solveSudoku_post (countNull b) b Hg (Nat.le_refl _))
    as (ok & b' & Hrun & _).
  split_and!.
  - by apply countNull_le_81.
  - by exists ok, b'.
  - intros fuel Hle. rewrite Hrun. by apply (solveSudoku_mono (countNull b)).
  - intros r c n Hfind. destruct (findEmpty_Some b r c Hg Hfind) as (Hr & Hc & Hnull).
    split; [by apply wr_setCell|by apply countNull_place].
Qed.

Lemma solveSudoku_terminates_witness :
  countNull seed0 ≤ depth_bound ∧
  ∃ ok b', solveSudoku (countNull seed0) seed0 = Some (Ok (ok, b')).
Proof.
  exact (match solveSudoku_terminates seed0 ltac:(by_eval) with
         | conj H1 (conj H2 _) => conj H1 H2
         end).
Defined.

(** C9.  On a board without empty cell [solveSudoku] returns [true] at
    once and hands the board back as it is, whether or not the board
    respects the constraints. *)
Theorem solveSudoku_full_unchecked b :
  grid9 b → full b → ∀ fuel, solveSudoku fuel b = Some (Ok (true, b)).
Proof.
  intros Hg Hf fuel. apply findEmpty_None in Hf; [|done].
  destruct fuel; [rewrite solveSudoku_0|rewrite solveSudoku_S]; by rewrite Hf.
Qed.

Lemma solveSudoku_full_unchecked_witness :
  ¬ legal ones ∧ ∀ fuel, solveSudoku fuel ones = Some (Ok (true, ones)).
Proof.
  exact (conj ones_illegal (solveSudoku_full_unchecked ones ltac:(by_eval) ones_full)).
Defined.

(** C10.  A call of [checkWin] that returns leaves every array that
    existed before the call as it was; in particular the board it was
    given denotes the same grid afterwards. *)
Theorem checkWin_preserves_store cur σ ans σ' :
  Heap.checkWin cur σ = Ok (ans, σ') →
  Heap.preserved σ σ' ∧
  ∀ g, Heap.boardAt σ cur = Some g → Heap.boardAt σ' cur = Some g.
Proof.
  intros Hrun. apply checkCells_preserved in Hrun. split; [done|].
  intros g. by apply boardAt_preserved.
Qed.

Lemma checkWin_preserves_store_witness :
  ∃ σ', Heap.checkWin (Heap.HRef 0) (heapOf solved0) = Ok (true, σ') ∧
        Heap.preserved (heapOf solved0) σ' ∧
        Heap.boardAt σ' (Heap.HRef 0) = Some solved0.
Proof.
  destruct heap_run_solved0 as [σ' Hrun]. exists σ'.
  destruct (checkWin_preserves_store _ _ _ _ Hrun) as [Hp Hb].
  split_and!; [exact Hrun|exact Hp|]. apply Hb. vm_compute. reflexivity.
Defined.

(** ** More about the engine *)

Module EngineFacts.
Import LayoutFacts GenFacts.

Lemma rowOf_lookup b i j : j < 9 → rowOf b i !! j = Some (cell b i j).
Proof.
  intros Hj. unfold rowOf. rewrite list_lookup_fmap, lookup_seq_lt by done. done.
Qed.

Lemma colOf_lookup b i j : i < 9 → colOf b j !! i = Some (cell b i j).
Proof.
  intros Hi. unfold colOf. rewrite list_lookup_fmap, lookup_seq_lt by done. done.
Qed.

Lemma validSolution_digits s i j :
  validSolution s → i < 9 → j < 9 → cell s i j ∈ digitValues.
Proof.
  intros (Hrow & _ & _) Hi Hj. rewrite <- (Hrow i Hi).
  eapply list_elem_of_lookup_2. by apply rowOf_lookup.
Qed.

Lemma validSolution_legal s : validSolution s → legal s.
Proof.
  intros (Hrow & Hcol & Hbox) i j i' j' n Hi Hj Hi' Hj' Hne Hunit Hv Hv'.
  destruct (decide (i' = i)) as [->|Hni]; [|destruct (decide (j' = j)) as [->|Hnj]].
  - assert (NoDup (rowOf s i)) as Hnd by (rewrite Hrow by done; apply digitValues_NoDup).
    pose proof (rowOf_lookup s i j Hj) as L1. pose proof (rowOf_lookup s i j' Hj') as L2.
    rewrite Hv in L1. rewrite Hv' in L2.
    pose proof (NoDup_lookup _ _ _ _ Hnd L1 L2). congruence.
  - assert (NoDup (colOf s j)) as Hnd by (rewrite Hcol by done; apply digitValues_NoDup).
    pose proof (colOf_lookup s i j Hi) as L1. pose proof (colOf_lookup s i' j Hi') as L2.
    rewrite Hv in L1. rewrite Hv' in L2.
    pose proof (NoDup_lookup _ _ _ _ Hnd L1 L2). congruence.
  - destruct Hunit as [?|[?|[Hp Hq]]]; [done..|].
    assert (NoDup (boxOf s (i / 3) (j / 3))) as Hnd.
    { rewrite Hbox by lia. apply digitValues_NoDup. }
    pose proof (boxOf_lookup s (i / 3) (j / 3) (i mod 3) (j mod 3) ltac:(lia) ltac:(lia)) as L1.
    pose proof (boxOf_lookup s (i / 3) (j / 3) (i' mod 3) (j' mod 3) ltac:(lia) ltac:(lia)) as L2.
    replace (3 * (i / 3) + i mod 3) with i in L1 by lia.
    replace (3 * (j / 3) + j mod 3) with j in L1 by lia.
    replace (3 * (i / 3) + i' mod 3) with i' in L2 by lia.
    replace (3 * (j / 3) + j' mod 3) with j' in L2 by lia.
    rewrite Hv in L1. rewrite Hv' in L2.
    pose proof (NoDup_lookup _ _ _ _ Hnd L1 L2). apply Hne. f_equal; lia.
Qed.

Lemma validSolution_full s : validSolution s → full s.
Proof.
  intros Hv i j Hi Hj.
  destruct (proj1 (digitValues_elem _) (validSolution_digits s i j Hv Hi Hj)) as (d & _ & ->).
  eauto.
Qed.

Lemma cell_numAt s i j : cell s i j ∈ digitValues → cell s i j = VNum (numAt s i j).
Proof.
  intros (d & _ & H)%digitValues_elem. unfold numAt. by rewrite H.
Qed.

Lemma completion_assign b s :
  completionOf b s → validAssign (numAt s) ∧ agrees (numAt s) b.
Proof.
  intros (Hg & Hv & Hext). split; [split|].
  - intros i j Hi Hj.
    destruct (proj1 (digitValues_elem _) (validSolution_digits s i j Hv Hi Hj))
      as (d & Hd & E).
    unfold numAt. rewrite E. unfold numOf. lia.
  - intros i j i' j' Hi Hj Hi' Hj' Hne Hunit Heq.
    apply (validSolution_legal s Hv i j i' j' (numAt s i j)); try done.
    + by apply cell_numAt, validSolution_digits.
    + rewrite Heq. by apply cell_numAt, validSolution_digits.
  - intros i j Hi Hj.
    destruct (decide (cell b i j = VNull)) as [|Hn]; [by left|right].
    rewrite <- (Hext i j Hi Hj Hn). by apply cell_numAt, validSolution_digits.
Qed.

Lemma solved_completion b b' :
  legal b → digitBoard b → solvedFrom b b' → completionOf b b'.
Proof.
  intros Hleg Hdig (Hg' & Hfull & Hext & Hplaced & Hleg'). split_and!; try done.
  apply legal_valid; [by apply Hleg'|].
  intros i j Hi Hj. destruct (Hdig i j Hi Hj) as [Hn|Hd].
  - destruct (Hplaced i j Hi Hj Hn) as (d & -> & Hd).
    apply digitValues_elem. exists (Z.to_nat (d - 1)). unfold numOf.
    split; [lia|]. f_equal. lia.
  - destruct (decide (cell b i j = VNull)) as [Hn|Hn].
    + rewrite Hn in Hd. apply digitValues_elem in Hd as (? & _ & ?). done.
    + by rewrite Hext.
Qed.

Lemma carved_legal s p : carvedFrom s p → legal s → legal p.
Proof.
  intros Hsub Hleg i j i' j' n Hi Hj Hi' Hj' Hne Hunit Hv Hv'.
  destruct (Hsub i j Hi Hj) as [E|E]; [congruence|].
  destruct (Hsub i' j' Hi' Hj') as [E'|E']; [congruence|].
  apply (Hleg i j i' j' n); try done; congruence.
Qed.

Lemma anyM_false {A} (f : A → res bool) l :
  anyM f l = Ok false → ∀ x, x ∈ l → f x = Ok false.
Proof.
  induction l as [|a l IH]; simpl; [by intros _ x ?%elem_of_nil|].
  destruct (f a) as [[|]|] eqn:E; try done.
  intros H x [->|Hx]%elem_of_cons; [done|by apply IH].
Qed.

Lemma drawFresh_none b s rs :
  (∀ k, k < 9 → isSafeInBox b s s (VNum (numOf k)) = Ok false) →
  draws rs → drawFresh b s rs = None.
Proof.
  intros Hall. induction rs as [|k rs IH]; intros Hrs; simpl; [done|].
  apply Forall_cons in Hrs as [Hk Hrs].
  pose proof (Hall k Hk) as E. unfold numOf in E. rewrite E. by apply IH.
Qed.

Lemma seeded_digitBoard b : seeded b → digitBoard b.
Proof.
  intros (Hg & Hbox & Hnull) i j Hi Hj.
  destruct (decide (i / 3 = j / 3)) as [Hd|Hd]; [right|left; by apply Hnull].
  rewrite <- (Hbox (i / 3) ltac:(lia)).
  pose proof (boxOf_lookup b (i / 3) (i / 3) (i mod 3) (j mod 3) ltac:(lia) ltac:(lia)) as L.
  replace (3 * (i / 3) + i mod 3) with i in L by lia.
  replace (3 * (i / 3) + j mod 3) with j in L by lia.
  by eapply list_elem_of_lookup_2.
Qed.

End EngineFacts.

Import LayoutFacts GenFacts EngineFacts.

Lemma seed0_legal : legal seed0.
Proof. apply seeded_legal, seed0_seeded. Qed.

Lemma seed0_digitBoard : digitBoard seed0.
Proof. apply seeded_digitBoard, seed0_seeded. Qed.

Lemma solved0_grid9 : grid9 solved0.
Proof. by_eval. Qed.

Lemma solved0_valid : validSolution solved0.
Proof.
  by destruct (generateSudoku_spec easy rs_easy _ rs_easy_draws run_easy)
    as (i & r & [= <- <-] & Hv & _).
Qed.

(** X1.  On a 9×9 board without duplicate in any row, column or box
    and with entries 1–9, [solveSudoku] answers [true] exactly when the
    board can be completed to a valid grid, and then the board it
    leaves is such a completion; it answers [false], with the board
    unchanged, exactly when there is none. *)
Theorem solveSudoku_decides b :
  grid9 b → legal b → digitBoard b →
  (∀ b', solveSudoku depth_bound b = Some (Ok (true, b')) → completionOf b b') ∧
  ((∃ b', solveSudoku depth_bound b = Some (Ok (true, b'))) ↔ ∃ s, completionOf b s) ∧
  (solveSudoku depth_bound b = Some (Ok (false, b)) ↔ ¬ ∃ s, completionOf b s).
Proof.
  intros Hg Hleg Hdig.
  assert (∀ b', solveSudoku depth_bound b = Some (Ok (true, b')) → completionOf b b') as Hsound.
  { intros b' Hrun.
    destruct (solveSudoku_returns _ _ _ Hg Hrun) as (ok & b'' & [= <- <-] & Hpost).
    by apply solved_completion. }
  assert ((∃ s, completionOf b s) → ∃ b', solveSudoku depth_bound b = Some (Ok (true, b')))
    as Hcomplete.
  { intros (s & Hs). destruct (completion_assign b s Hs) as [Hva Hag].
    apply (solveSudoku_complete (numAt s)); try done. by apply countNull_le_81. }
  split_and!; [done|split; [|done]|split].
  - intros (b' & Hrun). exists b'. by apply Hsound.
  - intros Hrun Hex. destruct (Hcomplete Hex) as (b' & Hrun'). congruence.
  - intros Hnone.
    destruct (solveSudoku_post depth_bound b Hg (countNull_le_81 b Hg))
      as (ok & b' & Hrun & Hpost).
    destruct ok; [|by rewrite Hrun, Hpost].
    destruct Hnone. exists b'. by apply Hsound.
Qed.

Lemma solveSudoku_decides_witness :
  (∃ b', solveSudoku depth_bound seed0 = Some (Ok (true, b'))) ↔ ∃ s, completionOf seed0 s.
Proof.
  exact (proj1 (proj2 (solveSudoku_decides seed0 seed0_grid9 seed0_legal seed0_digitBoard))).
Defined.

(** X2.  On a 9×9 board whose entries are 1–9, [checkWin] answers
    [true] exactly when every row, column and box is a permutation of
    1–9. *)
Theorem checkWin_valid_iff b :
  grid9 b → digitBoard b → (checkWin b = Ok true ↔ validSolution b).
Proof.
  intros Hg Hdig. rewrite checkWin_true_char by done. split.
  - intros H. apply legal_valid.
    + intros i j i' j' n Hi Hj Hi' Hj' Hne Hunit Hv Hv'.
      destruct (H i j Hi Hj) as [_ Hpeer]. apply Hpeer.
      assert ((i', j') ≠ (i, j)) as Hne' by (by intros [= -> ->]).
      exists i', j'. split_and!; try done.
      rewrite cell_setCell_ne by done. congruence.
    + intros i j Hi Hj. destruct (H i j Hi Hj) as [Hn _].
      by destruct (Hdig i j Hi Hj).
  - intros Hv i j Hi Hj.
    destruct (validSolution_full b Hv i j Hi Hj) as (n & Hn). split; [congruence|].
    intros (i' & j' & Hi' & Hj' & Hne & Hunit & Hc).
    rewrite cell_setCell_ne in Hc by done.
    apply (validSolution_legal b Hv i j i' j' n); try done; congruence.
Qed.

Lemma checkWin_valid_iff_witness : checkWin solved0 = Ok true ↔ validSolution solved0.
Proof.
  apply (checkWin_valid_iff solved0 solved0_grid9).
  intros i j Hi Hj. right. apply validSolution_digits; [apply solved0_valid|done..].
Defined.

(** X3.  The solved grid that [generateSudoku] returns passes
    [checkWin], the puzzle does not, and [solveSudoku] run on the
    puzzle answers [true] and leaves a valid grid with the puzzle's
    clues. *)
Theorem generateSudoku_playable diff rs inst rs' :
  draws rs → generateSudoku diff rs = Some (Ok (inst, rs')) →
  checkWin (solved inst) = Ok true ∧ checkWin (puzzle inst) = Ok false ∧
  ∃ b', solveSudoku depth_bound (puzzle inst) = Some (Ok (true, b')) ∧
        completionOf (puzzle inst) b'.
Proof.
  intros Hrs Hrun.
  destruct (generateSudoku_spec diff rs _ Hrs Hrun)
    as (i & r & [= <- <-] & Hv & Hf & Hg & Hgp & Hcount & Hsub).
  assert (digitBoard (puzzle inst)) as Hdig.
  { intros a c Ha Hc. destruct (Hsub a c Ha Hc) as [|E]; [by left|right].
    rewrite E. by apply validSolution_digits. }
  assert (legal (puzzle inst)) as Hleg.
  { apply (carved_legal (solved inst)); [done|by apply validSolution_legal]. }
  assert (completionOf (puzzle inst) (solved inst)) as Hcomp.
  { split_and!; try done. intros a c Ha Hc Hn. by destruct (Hsub a c Ha Hc). }
  split_and!.
  - apply checkWin_valid_iff; try done.
    intros a c Ha Hc. right. by apply validSolution_digits.
  - destruct (checkWin_cases (puzzle inst) Hgp) as [Ht|]; [|done].
    apply checkWin_valid_iff in Ht; try done.
    pose proof (full_countClues _ Hgp (validSolution_full _ Ht)). destruct diff; simpl in *; lia.
  - destruct (solveSudoku_decides (puzzle inst) Hgp Hleg Hdig) as (Hsound & Hiff & _).
    destruct (proj2 Hiff (ex_intro _ _ Hcomp)) as (b' & Hb'). exists b'. split; [done|].
    by apply Hsound.
Qed.

Lemma generateSudoku_playable_witness :
  checkWin solved0 = Ok true ∧ checkWin (cleared 30) = Ok false ∧
  ∃ b', solveSudoku depth_bound (cleared 30) = Some (Ok (true, b')) ∧
        completionOf (cleared 30) b'.
Proof. exact (generateSudoku_playable easy rs_easy _ _ rs_easy_draws run_easy). Defined.

(** X4.  On an empty cell of a board without duplicates, [isSafe]
    answers [true] exactly when writing the number keeps the board
    without duplicates. *)
Theorem isSafe_iff_legal_after b r c n :
  grid9 b → r < 9 → c < 9 → legal b → cell b r c = VNull →
  (isSafe b r c (VNum n) = Ok true ↔ legal (setCell b r c (VNum n))).
Proof.
  intros Hg Hr Hc Hleg Hnull. rewrite isSafe_true_iff by done. split.
  - by apply legal_place.
  - intros Hleg' (i & j & Hi & Hj & Hunit & Hv).
    assert ((r, c) ≠ (i, j)) as Hne by (intros [= -> ->]; congruence).
    apply (Hleg' r c i j n); try done.
    + by apply cell_setCell_eq.
    + rewrite cell_setCell_ne by done. done.
Qed.

Lemma isSafe_iff_legal_after_witness :
  isSafe seed0 0 3 (VNum 4) = Ok true ↔ legal (setCell seed0 0 3 (VNum 4)).
Proof.
  exact (isSafe_iff_legal_after seed0 0 3 4 seed0_grid9 ltac:(lia) ltac:(lia)
           seed0_legal eq_refl).
Defined.

(** X5.  [fillDiagonalBox] on a diagonal box that is still empty
    returns, when the draws suffice, a board whose box is a
    permutation of 1–9 and whose other cells are untouched; it never
    throws. *)
Theorem fillDiagonalBox_fills p b rs out :
  p < 3 → grid9 b →
  (∀ a c, a < 3 → c < 3 → cell b (3 * p + a) (3 * p + c) = VNull) →
  draws rs → fillDiagonalBox b (3 * p) rs = Some out →
  ∃ b' rs', out = Ok (b', rs') ∧ grid9 b' ∧
    boxOf b' p p ≡ₚ digitValues ∧
    ∀ i j, i < 9 → j < 9 → ¬ (i / 3 = p ∧ j / 3 = p) → cell b' i j = cell b i j.
Proof.
  intros Hp Hg Hnull Hrs Hrun.
  destruct (fillDiagonalBox_spec p b rs out Hp Hg Hnull Hrs Hrun)
    as (b' & rs' & -> & Hg' & _ & Hperm & Hout).
  by exists b', rs'.
Qed.

Lemma fillDiagonalBox_fills_witness :
  ∃ b' rs', fillDiagonalBox emptyBoard (3 * 1) fillDraws = Some (Ok (b', rs')) ∧
    boxOf b' 1 1 ≡ₚ digitValues.
Proof.
  destruct (fillDiagonalBox emptyBoard (3 * 1) fillDraws) as [out|] eqn:E;
    [|vm_compute in E; discriminate].
  destruct (fillDiagonalBox_fills 1 emptyBoard fillDraws out) as (b' & rs' & -> & _ & Hp & _).
  - lia.
  - apply emptyBoard_grid9.
  - intros a c Ha Hc. apply emptyBoard_cell; lia.
  - unfold draws. by_eval.
  - exact E.
  - by exists b', rs'.
Defined.

(** X6.  [fillDiagonalBox] on a box that already holds the nine digits
    never returns: every draw is rejected, however long the sequence of
    draws. *)
Theorem fillDiagonalBox_full_box p b rs :
  p < 3 → grid9 b → boxOf b p p ≡ₚ digitValues → draws rs →
  fillDiagonalBox b (3 * p) rs = None.
Proof.
  intros Hp Hg Hperm Hrs. unfold fillDiagonalBox.
  change (grid_cells 3) with ((0, 0) :: tail (grid_cells 3)). cbn [fillCells].
  rewrite drawFresh_none; [done| |done].
  intros k Hk. rewrite isSafeInBox_eval by (done || lia). f_equal.
  apply negb_false_iff, existsb_exists.
  destruct (box_pos b p Hperm k Hk) as [Hpos Hlook].
  set (n := posOf (VNum (numOf k)) (boxOf b p p)) in *.
  exists (n / 3, n mod 3). split.
  - apply list_elem_of_In, elem_of_grid_cells. lia.
  - apply strict_eq_true.
    pose proof (boxOf_lookup b p p (n / 3) (n mod 3) ltac:(lia) ltac:(lia)) as L.
    replace (3 * (n / 3) + n mod 3) with n in L by lia. congruence.
Qed.

Lemma fillDiagonalBox_full_box_witness : fillDiagonalBox seed0 (3 * 0) rs_hard = None.
Proof.
  apply fillDiagonalBox_full_box; [lia|apply seed0_grid9|reflexivity|apply rs_hard_draws].
Defined.

(** X7.  On a board with fewer than nine rows [checkWin] never answers
    [true]: it answers [false] or throws a [TypeError]. *)
Theorem checkWin_short_board b :
  length b < 9 → checkWin b = Throw ∨ checkWin b = Ok false.
Proof.
  intros Hlen. unfold checkWin.
  destruct (anyM _ (grid_cells 9)) as [[|]|] eqn:E; [by right|exfalso|by left].
  pose proof (anyM_false _ _ E (length b, 0)) as H.
  rewrite elem_of_grid_cells in H. specialize (H ltac:(lia)).
  cbn beta iota in H. unfold rd in H.
  by rewrite lookup_ge_None_2 in H.
Qed.

Lemma checkWin_short_board_witness : checkWin [] = Throw ∨ checkWin [] = Ok false.
Proof. apply checkWin_short_board. simpl. lia. Defined.

(** ** The scholar level and the game component *)

Module GameFacts.
Import LayoutFacts GenFacts EngineFacts GameCenter.

Lemma copyRows_id b : copyRows b = b.
Proof. unfold copyRows. apply map_id. Qed.

Lemma wr_row_lookup_ne (row : list value) c v j :
  j ≠ c → default VUndef (wr_row row c v !! j) = default VUndef (row !! j).
Proof.
  intros Hne. unfold wr_row. destruct (decide (c < length row)) as [Hc|Hc].
  - by rewrite list_lookup_insert_ne.
  - destruct (decide (j < length row)) as [Hj|Hj].
    + by rewrite lookup_app_l.
    + rewrite lookup_app_r by lia. rewrite (lookup_ge_None_2 row j) by lia.
      destruct (decide (j - length row < c - length row)) as [Hlt|Hge].
      * rewrite lookup_app_l by (rewrite length_replicate; lia).
        by rewrite lookup_replicate_2.
      * rewrite lookup_app_r by (rewrite length_replicate; lia).
        rewrite length_replicate.
        rewrite lookup_ge_None_2; [done|]. simpl. lia.
Qed.

Lemma wr_cell_ne b r c v b' i j :
  wr b r c v = Ok b' → (i, j) ≠ (r, c) → cell b' i j = cell b i j.
Proof.
  unfold wr. destruct (b !! r) as [row|] eqn:Er; [|done].
  intros [= <-] Hne. unfold cell.
  destruct (decide (i = r)) as [->|Hi].
  - rewrite list_lookup_insert_eq by (by eapply lookup_lt_Some).
    rewrite Er. cbn. apply wr_row_lookup_ne. congruence.
  - by rewrite list_lookup_insert_ne.
Qed.

Lemma wr_row_lookup_eq (row : list value) c v : wr_row row c v !! c = Some v.
Proof.
  unfold wr_row. destruct (decide (c < length row)) as [Hc|Hc].
  - by rewrite list_lookup_insert_eq.
  - rewrite lookup_app_r by lia.
    rewrite lookup_app_r by (rewrite length_replicate; lia).
    rewrite length_replicate. by replace (c - length row - (c - length row)) with 0 by lia.
Qed.

Lemma wr_cell_eq b r c v b' : wr b r c v = Ok b' → cell b' r c = v.
Proof.
  unfold wr. destruct (b !! r) as [row|] eqn:Er; [|done].
  intros [= <-]. unfold cell.
  rewrite list_lookup_insert_eq by (by eapply lookup_lt_Some). cbn.
  by rewrite wr_row_lookup_eq.
Qed.

(** What an edit of the board by [handleNumberInput] or [handleDelete]
    amounts to. *)
Lemma handleNumberInput_cases stats st num o :
  handleNumberInput stats st num = Ok o →
  o = (None, st) ∨
  ∃ r c newBoard won,
    selectedCell st = Some (r, c) ∧ isWon st = false ∧
    rd (initialBoard st) r c = Ok VNull ∧
    wr (board st) r c (VNum num) = Ok newBoard ∧
    checkWin newBoard = Ok won ∧
    o = if (won : bool)
        then (Some (withPoints stats
                      (points stats - COST_TO_PLAY_SUDOKU + bonus (difficulty st))),
              setMessage "Congratulations! Puzzle Solved!"
                (setIsWon true (setBoard newBoard st)))
        else (None, setBoard newBoard st).
Proof.
  unfold handleNumberInput. rewrite copyRows_id.
  destruct (selectedCell st) as [[r c]|]; [|intros [= <-]; by left].
  destruct (isWon st); [intros [= <-]; by left|].
  destruct (rd (initialBoard st) r c) as [v|] eqn:Ev; [|done]. rewrite bind_Ok.
  destruct (strict_eq v VNull) eqn:E; [|intros [= <-]; by left].
  apply strict_eq_true in E as ->. cbn [negb].
  destruct (wr (board st) r c (VNum num)) as [nb|] eqn:Ew; [|done]. rewrite bind_Ok.
  destruct (checkWin nb) as [won|] eqn:Ec; [|done]. rewrite bind_Ok.
  intros H. right. exists r, c, nb, won. split_and!; try done.
  destruct won; congruence.
Qed.

Lemma handleDelete_cases st o :
  handleDelete st = Ok o →
  o = (None, st) ∨
  ∃ r c newBoard,
    selectedCell st = Some (r, c) ∧ isWon st = false ∧
    rd (initialBoard st) r c = Ok VNull ∧
    wr (board st) r c VNull = Ok newBoard ∧
    o = (None, setBoard newBoard st).
Proof.
  unfold handleDelete. rewrite copyRows_id.
  destruct (selectedCell st) as [[r c]|]; [|intros [= <-]; by left].
  destruct (isWon st); [intros [= <-]; by left|].
  destruct (rd (initialBoard st) r c) as [v|] eqn:Ev; [|done]. rewrite bind_Ok.
  destruct (strict_eq v VNull) eqn:E; [|intros [= <-]; by left].
  apply strict_eq_true in E as ->. cbn [negb].
  destruct (wr (board st) r c VNull) as [nb|] eqn:Ew; [|done]. rewrite bind_Ok.
  intros [= <-]. right. by exists r, c, nb.
Qed.

(** *** While a puzzle is played *)

Lemma playing_setBoard st nb won m :
  playing st → isWon st = false →
  grid9 nb → digitBoard nb →
  (∀ i j, i < 9 → j < 9 → cell (initialBoard st) i j ≠ VNull →
          cell nb i j = cell (initialBoard st) i j) →
  (won = true → validSolution nb) →
  playing (setBoard nb st) ∧ playing (setMessage m (setIsWon won (setBoard nb st))).
Proof.
  intros (Hg & Hgi & Hdig & Hsol & Hclue & Hsel & Hwon) Hnw Hgn Hdn Hcn Hv.
  split; split_and!; cbn; try done. by rewrite Hnw.
Qed.

Lemma playing_edit st r c v :
  playing st → selectedCell st = Some (r, c) →
  cell (initialBoard st) r c = VNull → (v = VNull ∨ v ∈ digitValues) →
  r < 9 ∧ c < 9 ∧ grid9 (setCell (board st) r c v) ∧ digitBoard (setCell (board st) r c v) ∧
  (∀ i j, i < 9 → j < 9 → cell (initialBoard st) i j ≠ VNull →
          cell (setCell (board st) r c v) i j = cell (initialBoard st) i j).
Proof.
  intros (Hg & Hgi & Hdig & Hsol & Hclue & Hsel & Hwon) Hs Hnull Hv.
  destruct (Hsel r c Hs) as [Hr Hc]. split_and!; try done.
  - apply grid9_setCell; [done|]. destruct Hv as [->|Hv]; [done|].
    apply digitValues_elem in Hv as (? & _ & ->). done.
  - intros i j Hi Hj. destruct (decide ((i, j) = (r, c))) as [[= -> ->]|Hne].
    + by rewrite cell_setCell_eq.
    + rewrite cell_setCell_ne by done. by apply Hdig.
  - intros i j Hi Hj Hn. rewrite cell_setCell_ne; [by apply Hclue|].
    intros [= -> ->]. done.
Qed.

Lemma digit_value num : (1 ≤ num ≤ 9)%Z → VNum num ∈ digitValues.
Proof.
  intros H. apply digitValues_elem. exists (Z.to_nat (num - 1)). unfold numOf.
  split; [lia|]. f_equal. lia.
Qed.

Lemma handleNumberInput_playing stats st num :
  playing st → (1 ≤ num ≤ 9)%Z →
  ∃ o, handleNumberInput stats st num = Ok o ∧ playing o.2 ∧
       isPlayingSudoku o.2 = isPlayingSudoku st ∧ paidOnWin stats st o.
Proof.
  intros Hp Hnum. unfold handleNumberInput. rewrite copyRows_id.
  destruct (selectedCell st) as [[r c]|] eqn:Hs; [|by exists (None, st)].
  destruct (isWon st) eqn:Hw; [by exists (None, st)|].
  pose proof Hp as (Hg & Hgi & _ & _ & _ & Hsel & _). destruct (Hsel r c Hs) as [Hr Hc].
  rewrite rd_cell, bind_Ok by done.
  destruct (strict_eq (cell (initialBoard st) r c) VNull) eqn:E; [|by exists (None, st)].
  apply strict_eq_true in E. cbn [negb].
  destruct (playing_edit st r c (VNum num) Hp Hs E) as (_ & _ & Hgn & Hdn & Hcn).
  { right. by apply digit_value. }
  rewrite wr_setCell, bind_Ok by done.
  destruct (checkWin_cases _ Hgn) as [Ec|Ec]; rewrite Ec, bind_Ok.
  - eexists. split; [done|]. cbn. split_and!; try done.
    eapply (playing_setBoard st _ true); try done.
    intros _. by apply checkWin_valid_iff.
  - eexists. split; [done|]. cbn. split_and!; try done.
    by eapply (playing_setBoard st _ false "").
Qed.

Lemma handleDelete_playing stats st :
  playing st →
  ∃ o, handleDelete st = Ok o ∧ playing o.2 ∧
       isPlayingSudoku o.2 = isPlayingSudoku st ∧ paidOnWin stats st o.
Proof.
  intros Hp. unfold handleDelete. rewrite copyRows_id.
  destruct (selectedCell st) as [[r c]|] eqn:Hs; [|by exists (None, st)].
  destruct (isWon st) eqn:Hw; [by exists (None, st)|].
  pose proof Hp as (Hg & Hgi & _ & _ & _ & Hsel & _). destruct (Hsel r c Hs) as [Hr Hc].
  rewrite rd_cell, bind_Ok by done.
  destruct (strict_eq (cell (initialBoard st) r c) VNull) eqn:E; [|by exists (None, st)].
  apply strict_eq_true in E. cbn [negb].
  destruct (playing_edit st r c VNull Hp Hs E) as (_ & _ & Hgn & Hdn & Hcn); [by left|].
  rewrite wr_setCell, bind_Ok by done.
  eexists. split; [done|]. cbn. split_and!; try done.
  by eapply (playing_setBoard st _ false "").
Qed.

Lemma playing_setSelectedCell st r c :
  playing st → r < 9 → c < 9 → playing (setSelectedCell (Some (r, c)) st).
Proof.
  intros (Hg & Hgi & Hdig & Hsol & Hclue & Hsel & Hwon) Hr Hc.
  split_and!; cbn; try done. by intros ?? [= <- <-].
Qed.

Lemma handleKey_playing parseInt stats st key :
  (isPlayingSudoku st = true → playing st) →
  ∃ o, handleKey parseInt stats st key = Ok o ∧
       (isPlayingSudoku st = true → playing o.2) ∧
       isPlayingSudoku o.2 = isPlayingSudoku st ∧ paidOnWin stats st o ∧
       (isPlayingSudoku st = false → o = (None, st)).
Proof.
  intros Hp. unfold handleKey.
  destruct (isPlayingSudoku st) eqn:Hplay; cbn [negb orb]; [|by exists (None, st)].
  specialize (Hp eq_refl).
  destruct (isWon st) eqn:Hw; [by exists (None, st)|].
  destruct (selectedCell st) as [[r c]|] eqn:Hs; [|by exists (None, st)].
  pose proof Hp as (_ & _ & _ & _ & _ & Hsel & _). destruct (Hsel r c Hs) as [Hr Hc].
  destruct (parseInt key) as [num|] eqn:En; cbn [default].
  { destruct ((1 <=? num)%Z && (num <=? 9)%Z) eqn:Ed.
    - apply andb_true_iff in Ed as [?%Z.leb_le ?%Z.leb_le].
      destruct (handleNumberInput_playing stats st num Hp ltac:(lia)) as (o & ? & ? & ? & ?).
      exists o. split_and!; try done. congruence.
    - clear Ed En. revert Hw. generalize 0%Z. intros _ Hw.
      destruct (bool_decide (key = "Backspace") || bool_decide (key = "Delete")).
      { destruct (handleDelete_playing stats st Hp) as (o & ? & ? & ? & ?).
        exists o. split_and!; try done. congruence. }
      repeat (destruct (bool_decide _);
        [eexists; split; [done|]; split_and!; try done;
         intros _; apply playing_setSelectedCell; (done || lia)|]).
      by exists (None, st). }
  destruct (bool_decide (key = "Backspace") || bool_decide (key = "Delete")).
  { destruct (handleDelete_playing stats st Hp) as (o & ? & ? & ? & ?).
    exists o. split_and!; try done. congruence. }
  repeat (destruct (bool_decide _);
    [eexists; split; [done|]; split_and!; try done;
     intros _; apply playing_setSelectedCell; (done || lia)|]).
  by exists (None, st).
Qed.

Lemma startGameSudoku_spec stats st rs out :
  draws rs → startGameSudoku stats st rs = Some out →
  ∃ upd st' rs', out = Ok ((upd, st'), rs') ∧ draws rs' ∧
    if (points stats <? COST_TO_PLAY_SUDOKU)%Z then
      upd = None ∧ rs' = rs ∧ st' = setMessage "Insufficient Points. Need 50." st
    else
      upd = Some (withPoints stats (points stats - COST_TO_PLAY_SUDOKU)) ∧
      isPlayingSudoku st' = true ∧ isWon st' = false ∧ selectedCell st' = None ∧
      difficulty st' = difficulty st ∧ initialBoard st' = board st' ∧
      countClues (board st') = 81 - attempts (difficulty st) ∧ playing st'.
Proof.
  intros Hrs. unfold startGameSudoku.
  destruct (points stats <? COST_TO_PLAY_SUDOKU)%Z.
  { intros [= <-]. by eexists _, _, _. }
  destruct (generateSudoku (difficulty st) rs) as [o|] eqn:Hgen; [|done].
  destruct (generateSudoku_spec _ rs o Hrs Hgen)
    as (inst & rs' & -> & Hv & Hf & Hg & Hgp & Hcount & Hsub).
  assert (draws rs') as Hrs'.
  { revert Hgen. unfold generateSudoku.
    destruct (fillDiagonalBox emptyBoard 0 rs) as [[[b1 rs1]|]|] eqn:F1; try done.
    destruct (fillDiagonalBox b1 3 rs1) as [[[b2 rs2]|]|] eqn:F2; try done.
    destruct (fillDiagonalBox b2 6 rs2) as [[[b3 rs3]|]|] eqn:F3; try done.
    destruct (fill_seeded rs b1 rs1 b2 rs2 b3 rs3 Hrs F1 F2 F3) as [Hseed Hrs3].
    destruct (solveSudoku depth_bound b3) as [[[ok nb]|]|] eqn:Hs; try done.
    destruct (solveSudoku_returns _ _ _ (proj1 Hseed) Hs) as (? & ? & [= <- <-] & Hpost).
    destruct (carve (attempts (difficulty st)) (deepCopy nb) rs3) as [[[pz rs4]|]|] eqn:C;
      try done.
    intros [= <- <-].
    assert (grid9 nb) as Hgnb by (destruct ok; [apply Hpost|by rewrite Hpost; apply Hseed]).
    rewrite deepCopy_id in C by done.
    by destruct (carve_spec _ rs3 _ nb _ (Nat.le_refl _) Hgnb Hrs3 C)
      as (? & ? & [= <- <-] & _ & ? & _). }
  intros [= <-]. eexists _, _, rs'. split; [done|]. split; [done|].
  rewrite deepCopy_id by done. split_and!; try done.
  { cbn [board setSelectedCell setMessage setIsWon setIsPlayingSudoku setBoard]. lia. }
  split_and!; cbn; try done.
  - intros i j Hi Hj. destruct (Hsub i j Hi Hj) as [|E]; [by left|right].
    rewrite E. by apply validSolution_digits.
  - by exists (solved inst).
Qed.

(** *** Any sequence of events *)

Lemma bonus_le d : (bonus d ≤ 100)%Z.
Proof. destruct d; simpl; lia. Qed.

Lemma outcome_inv p0 stats st (o : Outcome) :
  inv p0 (stats, st) → isPlayingSudoku st = true →
  playing o.2 → isPlayingSudoku o.2 = isPlayingSudoku st → paidOnWin stats st o →
  inv p0 (applyOutcome stats o).
Proof.
  intros (Hplay & Hle & Hpaid) Hp Hpl Hsame Hwin. cbn [fst snd] in *.
  destruct o as [[s'|] st']; unfold paidOnWin, applyOutcome in *; cbn [fst snd default] in *.
  - destruct Hwin as (Hw & Hw' & ->). specialize (Hpaid Hp Hw).
    pose proof (bonus_le (difficulty st)). unfold COST_TO_PLAY_SUDOKU in *.
    split_and!; cbn; try done; [lia|]. intros _. by rewrite Hw'.
  - split_and!; try done. cbn [fst snd]. intros _ H. apply Hpaid; [done|congruence].
Qed.

Lemma grid9_row b r row c :
  grid9 b → b !! r = Some row → c < length row → r < 9 ∧ c < 9.
Proof.
  intros [Hl Hrows] Hr Hc. split; [apply lookup_lt_Some in Hr; lia|].
  destruct (proj1 (Forall_forall _ _) Hrows row) as [Hlen _];
    [by eapply list_elem_of_lookup_2|lia].
Qed.

Lemma step_inv parseInt p0 σ e rs out :
  inv p0 σ → draws rs → step parseInt σ e rs = Some out →
  ∃ σ' rs', out = Ok (σ', rs') ∧ inv p0 σ' ∧ draws rs'.
Proof.
  destruct σ as [stats st]. intros Hinv Hrs. unfold step.
  destruct (rendered st e) eqn:Hrend; cbn [negb];
    [|intros [= <-]; by eexists _, _].
  pose proof Hinv as (Hplaying & Hle & Hpaid). cbn [fst snd] in *.
  destruct e as [|d|rIdx cIdx|num| |key| |confirmed]; cbn [rendered] in Hrend.
  - apply negb_true_iff in Hrend.
    destruct (startGameSudoku stats st rs) as [o|] eqn:Hstart; [|done].
    destruct (startGameSudoku_spec stats st rs o Hrs Hstart)
      as (upd & st' & rs' & -> & Hrs' & Hcase).
    intros [= <-]. eexists _, rs'. split; [done|]. split; [|done].
    unfold applyOutcome. cbn [fst snd].
    destruct (points stats <? COST_TO_PLAY_SUDOKU)%Z eqn:Hlt.
    + destruct Hcase as (-> & _ & ->). split_and!; cbn; try done; congruence.
    + destruct Hcase as (-> & Hp & Hw & _ & _ & _ & _ & Hpl).
      apply Z.ltb_ge in Hlt. split_and!; cbn; try done; unfold COST_TO_PLAY_SUDOKU in *; lia.
  - apply negb_true_iff in Hrend. intros [= <-]. eexists _, _. split; [done|].
    split; [|done]. split_and!; cbn; try done; congruence.
  - apply andb_true_iff in Hrend as [Hp Hrow].
    destruct (board st !! rIdx) as [row|] eqn:Er; [|done].
    apply bool_decide_eq_true in Hrow.
    specialize (Hplaying Hp).
    destruct (grid9_row _ _ _ _ (proj1 Hplaying) Er Hrow) as [Hr Hc].
    intros [= <-]. eexists _, _. split; [done|]. split; [|done].
    split_and!; cbn; try done. intros _. by apply playing_setSelectedCell.
  - apply andb_true_iff in Hrend as [[Hp Hw]%andb_true_iff Hnum].
    apply bool_decide_eq_true, digits_range in Hnum.
    destruct (handleNumberInput_playing stats st num (Hplaying Hp) Hnum)
      as (o & -> & Hpl & Hsame & Hwin).
    intros [= <-]. eexists _, _. split; [done|]. split; [|done].
    by apply (outcome_inv p0 stats st o).
  - apply andb_true_iff in Hrend as [Hp Hw].
    destruct (handleDelete_playing stats st (Hplaying Hp)) as (o & -> & Hpl & Hsame & Hwin).
    intros [= <-]. eexists _, _. split; [done|]. split; [|done].
    by apply (outcome_inv p0 stats st o).
  - destruct (handleKey_playing parseInt stats st key Hplaying)
      as (o & -> & Hpl & Hsame & Hwin & Hidle).
    intros [= <-]. eexists _, _. split; [done|]. split; [|done].
    destruct (decide (isPlayingSudoku st = true)) as [Hp|Hp%not_true_is_false].
    + apply (outcome_inv p0 stats st o); try done. by apply Hpl.
    + rewrite (Hidle Hp). unfold applyOutcome. cbn [fst snd default].
      split_and!; cbn; try done; congruence.
  - intros [= <-]. eexists _, _. split; [done|]. split; [|done].
    split_and!; cbn; try done.
  - intros [= <-]. eexists _, _. split; [done|]. split; [|done].
    destruct confirmed; [split_and!; cbn; try done|done].
Qed.

Lemma run_inv parseInt p0 es σ rs out :
  inv p0 σ → draws rs → run parseInt σ es rs = Some out →
  ∃ σ' rs', out = Ok (σ', rs') ∧ inv p0 σ' ∧ draws rs'.
Proof.
  revert σ rs. induction es as [|e es IH]; intros σ rs Hinv Hrs; cbn [run].
  - intros [= <-]. by eexists _, _.
  - destruct (step parseInt σ e rs) as [o|] eqn:Hstep; [|done].
    destruct (step_inv parseInt p0 σ e rs o Hinv Hrs Hstep) as (σ' & rs' & -> & Hinv' & Hrs').
    by apply IH.
Qed.

(** *** The red marks *)

Lemma peers_setCell b r c w v :
  occursInPeers (setCell b r c w) r c v ↔ occursInPeers b r c v.
Proof.
  split; intros (i & j & Hi & Hj & Hne & Hunit & Hv); exists i, j;
    split_and!; try done.
  - by rewrite cell_setCell_ne in Hv.
  - by rewrite cell_setCell_ne.
Qed.

Lemma isConflict_eval st r c :
  playing st → r < 9 → c < 9 →
  isConflict st r c =
  Ok (negb (strict_eq (cell (board st) r c) VNull)
      && strict_eq (cell (initialBoard st) r c) VNull
      && unitScan (setCell (board st) r c VNull) r c (cell (board st) r c)).
Proof.
  intros (Hg & Hgi & _) Hr Hc. unfold isConflict.
  rewrite rd_cell, bind_Ok by done.
  destruct (decide (0 < length (initialBoard st))) as [_|Hlen];
    [|destruct Hgi as [Hl _]; lia].
  rewrite rd_cell, !bind_Ok by done. rewrite negb_involutive.
  destruct (strict_eq (cell (board st) r c) VNull); cbn [negb andb]; [done|].
  destruct (strict_eq (cell (initialBoard st) r c) VNull); cbn [andb]; [|done].
  rewrite copyRows_id, wr_setCell, bind_Ok by done.
  rewrite isSafe_eval by (done || by apply grid9_setCell).
  rewrite bind_Ok. by rewrite negb_involutive.
Qed.

End GameFacts.

Import LayoutFacts GenFacts EngineFacts GameFacts GameCenter.

(** *** Facts about the concrete states *)

Lemma start_run0 :
  startGameSudoku stats0 initialState rs_easy
  = Some (Ok ((Some (withPoints stats0 70), game0), [])).
Proof. vm_compute. reflexivity. Qed.

Lemma game0_playing : playing game0.
Proof.
  destruct (startGameSudoku_spec stats0 initialState rs_easy _ rs_easy_draws start_run0)
    as (upd & st' & rs' & [= <- <- <-] & _ & H).
  change (points stats0 <? COST_TO_PLAY_SUDOKU)%Z with false in H. apply H.
Qed.

Lemma run_events0 :
  run parseKey (stats0, initialState) events0 rs_easy
  = Some (Ok ((withPoints stats0 40, won0), [])).
Proof. vm_compute. reflexivity. Qed.

Lemma inv_initial stats : inv (points stats) (stats, initialState).
Proof. split_and!; cbn; done. Qed.

Lemma won0_playing : playing won0.
Proof.
  destruct (run_inv parseKey (points stats0) events0 _ _ _ (inv_initial stats0)
              rs_easy_draws run_events0) as (σ' & rs' & [= <- <-] & (H & _) & _).
  by apply H.
Qed.

Lemma edit_run2 :
  handleNumberInput stats0 game2 5
  = Ok (None, setBoard (setCell (cleared 30) 0 0 (VNum 5)) game2).
Proof. vm_compute. reflexivity. Qed.






(** X10.  A call of [handleNumberInput] or [handleDelete] that returns
    leaves the initial board, the selection, the difficulty and the
    playing flag as they were, and changes no cell of the board but
    the selected one, and that one only when the game is not won and
    the initial board is empty there. *)
Theorem board_edit_frame stats st num o :
  handleNumberInput stats st num = Ok o ∨ handleDelete st = Ok o →
  initialBoard o.2 = initialBoard st ∧ selectedCell o.2 = selectedCell st ∧
  difficulty o.2 = difficulty st ∧ isPlayingSudoku o.2 = isPlayingSudoku st ∧
  ∀ i j, cell (board o.2) i j ≠ cell (board st) i j →
         selectedCell st = Some (i, j) ∧ isWon st = false ∧
         rd (initialBoard st) i j = Ok VNull.
Proof.
  assert (∀ r c v nb, selectedCell st = Some (r, c) → isWon st = false →
            rd (initialBoard st) r c = Ok VNull → wr (board st) r c v = Ok nb →
            ∀ i j, cell nb i j ≠ cell (board st) i j →
                   selectedCell st = Some (i, j) ∧ isWon st = false ∧
                   rd (initialBoard st) i j = Ok VNull) as Hframe.
  { intros r c v nb Hs Hw Hrd Hwr i j Hne.
    destruct (decide ((i, j) = (r, c))) as [[= -> ->]|Hd]; [done|].
    destruct Hne. by eapply wr_cell_ne. }
  intros [H|H].
  - apply handleNumberInput_cases in H as [->|(r & c & nb & won & Hs & Hw & Hrd & Hwr & _ & ->)];
      [by split_and!|].
    destruct won; cbn; split_and!; try done; by eapply Hframe.
  - apply handleDelete_cases in H as [->|(r & c & nb & Hs & Hw & Hrd & Hwr & ->)];
      [by split_and!|].
    cbn; split_and!; try done; by eapply Hframe.
Qed.

Lemma board_edit_frame_witness :
  isPlayingSudoku (setBoard (setCell (cleared 30) 0 0 (VNum 5)) game2)
  = isPlayingSudoku game2 ∧
  ∀ i j, cell (setCell (cleared 30) 0 0 (VNum 5)) i j ≠ cell (board game2) i j →
         selectedCell game2 = Some (i, j) ∧ isWon game2 = false ∧
         rd (initialBoard game2) i j = Ok VNull.
Proof.
  exact (proj2 (proj2 (proj2
    (board_edit_frame stats0 game2 5
       (None, setBoard (setCell (cleared 30) 0 0 (VNum 5)) game2)
       (or_introl edit_run2))))).
Defined.



(** X12.  [handleDelete] undoes an input: after [handleNumberInput]
    has written into a selected cell that was empty, without winning,
    [handleDelete] gives the state of before. *)
Theorem handleDelete_undoes_input stats st num st1 r c :
  grid9 (board st) → selectedCell st = Some (r, c) → r < 9 → c < 9 →
  cell (board st) r c = VNull →
  handleNumberInput stats st num = Ok (None, st1) →
  handleDelete st1 = Ok (None, st).
Proof.
  intros Hg Hs Hr Hc Hnull H. pose proof H as H0.
  apply handleNumberInput_cases in H
    as [[= ->]|(r' & c' & nb & won & Hs' & Hw & Hrd & Hwr & Hcw & H)].
  - unfold handleDelete. rewrite Hs, copyRows_id.
    destruct (isWon st) eqn:Hw; [done|].
    destruct (rd (initialBoard st) r c) as [v|] eqn:Ev.
    + rewrite bind_Ok. destruct (strict_eq v VNull) eqn:E; [|done]. cbn [negb].
      rewrite wr_setCell, bind_Ok by done.
      rewrite <- Hnull, setCell_same by done. by destruct st.
    + exfalso. revert H0. unfold handleNumberInput. by rewrite Hs, Hw, Ev.
  - rewrite Hs in Hs'. injection Hs' as <- <-.
    destruct won; [done|]. injection H as ->.
    rewrite wr_setCell in Hwr by done. injection Hwr as <-.
    unfold handleDelete. cbn. rewrite Hs, Hw, Hrd, bind_Ok. cbn [strict_eq negb].
    rewrite copyRows_id, wr_setCell, bind_Ok; [|by apply grid9_setCell|done..].
    rewrite setCell_undo by done. by destruct st.
Qed.

Lemma handleDelete_undoes_input_witness :
  handleDelete (setBoard (setCell (cleared 30) 0 0 (VNum 5)) game2) = Ok (None, game2).
Proof.
  apply (handleDelete_undoes_input stats0 game2 5 _ 0 0).
  - by_eval.
  - reflexivity.
  - lia.
  - lia.
  - reflexivity.
  - exact edit_run2.
Defined.

(** X13.  Whatever the user does from the first render on — start,
    clicks on cells, numbers, clear, keys, quit, play again — no
    handler throws, and while a puzzle is shown the board is a 9×9
    grid of empty cells and digits 1–9 that agrees with the initial
    board on every clue, the initial board has a valid completion, the
    selected cell lies in the grid, and the won flag is set only on a
    board whose rows, columns and boxes are permutations of 1–9. *)
Theorem game_invariant parseInt stats es rs out :
  draws rs → run parseInt (stats, initialState) es rs = Some out →
  ∃ stats' st' rs', out = Ok ((stats', st'), rs') ∧
    (isPlayingSudoku st' = true →
       grid9 (board st') ∧ digitBoard (board st') ∧
       (∀ i j, i < 9 → j < 9 → cell (initialBoard st') i j ≠ VNull →
               cell (board st') i j = cell (initialBoard st') i j) ∧
       (∃ s, completionOf (initialBoard st') s) ∧
       (∀ r c, selectedCell st' = Some (r, c) → r < 9 ∧ c < 9) ∧
       (isWon st' = true → validSolution (board st'))).
Proof.
  intros Hrs Hrun.
  destruct (run_inv parseInt (points stats) es _ rs out (inv_initial stats) Hrs Hrun)
    as ([stats' st'] & rs' & -> & (Hpl & _) & _).
  exists stats', st', rs'. split; [done|]. intros Hp.
  destruct (Hpl Hp) as (Hg & Hgi & Hdig & (s & Hgs & Hvs & Hsub) & Hclue & Hsel & Hwon).
  split_and!; try done. exists s. split_and!; try done.
  intros i j Hi Hj Hn. by destruct (Hsub i j Hi Hj).
Qed.

Lemma game_invariant_witness :
  ∃ stats' st' rs',
    Ok ((withPoints stats0 40, won0), @nil nat) = Ok ((stats', st'), rs') ∧
    (isPlayingSudoku st' = true →
       grid9 (board st') ∧ digitBoard (board st') ∧
       (∀ i j, i < 9 → j < 9 → cell (initialBoard st') i j ≠ VNull →
               cell (board st') i j = cell (initialBoard st') i j) ∧
       (∃ s, completionOf (initialBoard st') s) ∧
       (∀ r c, selectedCell st' = Some (r, c) → r < 9 ∧ c < 9) ∧
       (isWon st' = true → validSolution (board st'))).
Proof.
  exact (game_invariant parseKey stats0 events0 rs_easy _ rs_easy_draws run_events0).
Defined.



(** X15.  While a puzzle is shown, a cell of the grid is marked as a
    conflict exactly when it is filled, is not a clue, and its number
    occurs in another cell of its row, column or box. *)
Theorem isConflict_iff st r c :
  playing st → r < 9 → c < 9 →
  (isConflict st r c = Ok true ∨ isConflict st r c = Ok false) ∧
  (isConflict st r c = Ok true ↔
   cell (board st) r c ≠ VNull ∧ cell (initialBoard st) r c = VNull ∧
   occursInPeers (board st) r c (cell (board st) r c)).
Proof.
  intros Hp Hr Hc. rewrite isConflict_eval by done.
  pose proof Hp as (Hg & _).
  split; [destruct (_ && _); auto|].
  rewrite <- (peers_setCell (board st) r c VNull).
  split.
  - intros [= H]. apply andb_true_iff in H as [[H1 H2]%andb_true_iff H3].
    apply negb_true_iff, strict_eq_false in H1. apply strict_eq_true in H2.
    apply unitScan_true in H3; [|done..].
    apply emptied_peers in H3 as [?|?]; done.
  - intros (H1 & H2 & H3). f_equal. apply andb_true_iff. split; [apply andb_true_iff; split|].
    + by apply negb_true_iff, strict_eq_false.
    + by apply strict_eq_true.
    + apply unitScan_true; [done..|]. apply emptied_peers; [done..|]. by right.
Qed.

Lemma isConflict_iff_witness :
  isConflict game0 4 4 = Ok true ↔
  cell (board game0) 4 4 ≠ VNull ∧ cell (initialBoard game0) 4 4 = VNull ∧
  occursInPeers (board game0) 4 4 (cell (board game0) 4 4).
Proof.
  exact (proj2 (isConflict_iff game0 4 4 game0_playing ltac:(lia) ltac:(lia))).
Defined.

(** X16.  While a puzzle is shown and every cell is filled, the board
    passes [checkWin] exactly when no cell is marked as a conflict. *)
Theorem checkWin_iff_no_marks st :
  playing st → full (board st) →
  (checkWin (board st) = Ok true ↔
   ∀ r c, r < 9 → c < 9 → isConflict st r c = Ok false).
Proof.
  intros Hp Hfull.
  pose proof Hp as (Hg & Hgi & Hdig & (s & Hgs & Hvs & Hsub) & Hclue & _).
  rewrite checkWin_true_char by done.
  assert (∀ r c, r < 9 → c < 9 →
            isConflict st r c = Ok false ↔
            ¬ (cell (initialBoard st) r c = VNull ∧
               occursInPeers (board st) r c (cell (board st) r c))) as Hmark.
  { intros r c Hr Hc. destruct (isConflict_iff st r c Hp Hr Hc) as [Hcases Hiff].
    destruct (Hfull r c Hr Hc) as (n & Hn).
    split.
    - intros Hf (H1 & H2). assert (isConflict st r c = Ok true); [|congruence].
      apply Hiff. split_and!; try done. congruence.
    - intros Hneg. destruct Hcases as [Ht|]; [|done].
      destruct Hneg. by destruct (proj1 Hiff Ht) as (_ & ? & ?). }
  split.
  - intros H r c Hr Hc. apply Hmark; [done..|]. intros [_ Hpeer].
    destruct (H r c Hr Hc) as [_ Hno]. apply Hno. by apply peers_setCell.
  - intros H i j Hi Hj. destruct (Hfull i j Hi Hj) as (n & Hn).
    split; [congruence|]. rewrite peers_setCell.
    intros (i' & j' & Hi' & Hj' & Hne & Hunit & Hv).
    destruct (decide (cell (initialBoard st) i j = VNull)) as [E|E].
    { apply (proj1 (Hmark i j Hi Hj) (H i j Hi Hj)). split; [done|].
      by exists i', j'. }
    destruct (decide (cell (initialBoard st) i' j' = VNull)) as [E'|E'].
    { apply (proj1 (Hmark i' j' Hi' Hj') (H i' j' Hi' Hj')). split; [done|].
      exists i, j. split_and!; try done; first [by apply sameUnit_sym|congruence]. }
    assert (cell (board st) i j = cell s i j) as Es.
    { rewrite Hclue by done. by destruct (Hsub i j Hi Hj). }
    assert (cell (board st) i' j' = cell s i' j') as Es'.
    { rewrite Hclue by done. by destruct (Hsub i' j' Hi' Hj'). }
    apply (validSolution_legal s Hvs i j i' j' n); try done; congruence.
Qed.

Lemma checkWin_iff_no_marks_witness :
  checkWin (board won0) = Ok true ↔
  ∀ r c, r < 9 → c < 9 → isConflict won0 r c = Ok false.
Proof.
  apply (checkWin_iff_no_marks won0 won0_playing).
  apply validSolution_full. by destruct won0_playing as (_ & _ & _ & _ & _ & _ & H); apply H.
Defined.

(** ** Which completion the solver finds *)

Module LeastFacts.
Import LayoutFacts GenFacts EngineFacts.

Lemma find_first {A} (f : A → bool) l x :
  find f l = Some x →
  ∃ k, l !! k = Some x ∧ ∀ k' y, k' < k → l !! k' = Some y → f y = false.
Proof.
  induction l as [|a l IH]; simpl; [done|].
  destruct (f a) eqn:E.
  - intros [= <-]. exists 0. split; [done|]. intros; lia.
  - intros H. destruct (IH H) as (k & Hk & Hbefore). exists (S k). split; [done|].
    intros [|k'] y Hlt; simpl; [by intros [= <-]|]. apply Hbefore. lia.
Qed.

Lemma grid_cells_9_lookup i j :
  i < 9 → j < 9 → grid_cells 9 !! (9 * i + j) = Some (i, j).
Proof.
  intros Hi Hj.
  do 9 (destruct i as [|i]; [do 9 (destruct j as [|j]; [reflexivity|]); lia|]). lia.
Qed.

Lemma grid_cells_9_NoDup : NoDup (grid_cells 9).
Proof. apply (bool_decide_unpack _). vm_compute. exact I. Qed.

Lemma findEmpty_first b r c :
  grid9 b → findEmpty b = Ok (Some (r, c)) →
  ∀ i j, i < 9 → j < 9 → before i j r c → cell b i j ≠ VNull.
Proof.
  intros Hg Hfind i j Hi Hj Hbef.
  destruct (findEmpty_Some b r c Hg Hfind) as (Hr & Hc & _).
  rewrite findEmpty_eval in Hfind by done. apply Ok_inj, find_first in Hfind as (k & Hk & Hfirst).
  pose proof (NoDup_lookup _ _ _ _ grid_cells_9_NoDup Hk (grid_cells_9_lookup r c Hr Hc)) as ->.
  specialize (Hfirst (9 * i + j) (i, j)). cbv beta iota in Hfirst.
  apply strict_eq_false, Hfirst; [|by apply grid_cells_9_lookup].
  destruct Hbef as [?|[-> ?]]; lia.
Qed.

Lemma completion_place b s r c :
  grid9 b → r < 9 → c < 9 → completionOf b s →
  completionOf (setCell b r c (VNum (numAt s r c))) s.
Proof.
  intros Hg Hr Hc (Hgs & Hvs & Hext). split_and!; try done.
  intros i j Hi Hj. destruct (decide ((i, j) = (r, c))) as [[= -> ->]|Hne].
  - rewrite cell_setCell_eq by done. intros _.
    by apply cell_numAt, validSolution_digits.
  - rewrite cell_setCell_ne by done. by apply Hext.
Qed.

Lemma completion_avoids b s r c num :
  r < 9 → c < 9 → cell b r c = VNull → occursInUnits b r c (VNum num) →
  completionOf b s → numAt s r c ≠ num.
Proof.
  intros Hr Hc Hnull (i & j & Hi & Hj & Hunit & Hv) (Hgs & Hvs & Hext) Heq.
  assert ((r, c) ≠ (i, j)) as Hne by (intros [= -> ->]; congruence).
  apply (validSolution_legal s Hvs r c i j num); try done.
  - rewrite <- Heq. by apply cell_numAt, validSolution_digits.
  - rewrite Hext; [done..|congruence].
Qed.

Lemma completion_full b s :
  full b → completionOf b s → ∀ i j, i < 9 → j < 9 → cell b i j = cell s i j.
Proof.
  intros Hf (_ & _ & Hext) i j Hi Hj. symmetry. apply Hext; try done.
  destruct (Hf i j Hi Hj) as (n & ->). done.
Qed.

Lemma tryNums_least rec n b r c nums b' :
  (∀ b1, grid9 b1 → countNull b1 ≤ n → solverPost b1 (rec b1)) →
  (∀ b1 s, grid9 b1 → countNull b1 ≤ n → completionOf b1 s →
     ∃ b2, rec b1 = Some (Ok (true, b2))) →
  (∀ b1 b2 s, grid9 b1 → legal b1 → digitBoard b1 → countNull b1 ≤ n →
     rec b1 = Some (Ok (true, b2)) → completionOf b1 s → lexLe b2 s) →
  grid9 b → legal b → digitBoard b → r < 9 → c < 9 → cell b r c = VNull →
  countNull b ≤ S n →
  (∀ i j, i < 9 → j < 9 → before i j r c → cell b i j ≠ VNull) →
  (∀ k k' x y, k < k' → nums !! k = Some x → nums !! k' = Some y → (x < y)%Z) →
  (∀ d, d ∈ nums → (1 ≤ d ≤ 9)%Z) →
  tryNums rec r c nums b = Some (Ok (true, b')) →
  ∀ s, completionOf b s → numAt s r c ∈ nums → lexLe b' s.
Proof.
  intros Hpost Hcomp Hleast Hg Hleg Hdig Hr Hc Hnull Hcount Hfirst.
  induction nums as [|num rest IH]; intros Hsort Hrange; simpl; [done|].
  assert (∀ d, d ∈ rest → (num < d)%Z) as Hlt.
  { intros d (k & Hk)%list_elem_of_lookup_1. apply (Hsort 0 (S k)); [lia|done..]. }
  assert (∀ k k' x y, k < k' → rest !! k = Some x → rest !! k' = Some y → (x < y)%Z)
    as Hsort'.
  { intros k k' x y Hkk Hx Hy. apply (Hsort (S k) (S k')); [lia|done..]. }
  assert (∀ d, d ∈ rest → (1 ≤ d ≤ 9)%Z) as Hrange'.
  { intros d Hd. apply Hrange. by right. }
  rewrite isSafe_eval by done.
  destruct (unitScan b r c (VNum num)) eqn:Hscan; simpl.
  { intros Hrun s Hs Hin. apply IH; try done.
    apply elem_of_cons in Hin as [Heq|]; [|done].
    apply unitScan_true in Hscan; [|done..].
    by destruct (completion_avoids b s r c num Hr Hc Hnull Hscan Hs). }
  assert (¬ occursInUnits b r c (VNum num)) as Hfree.
  { rewrite <- unitScan_true by done. congruence. }
  rewrite wr_setCell by done.
  pose proof (countNull_place b r c num Hg Hr Hc Hnull) as Hdec.
  set (b1 := setCell b r c (VNum num)) in *.
  assert (grid9 b1) as Hg1 by (by apply grid9_setCell).
  destruct (Hpost b1 Hg1) as (ok & b2 & Hrec & Hp); [lia|]. rewrite Hrec.
  destruct ok.
  - intros [= <-] s Hs Hin.
    apply elem_of_cons in Hin as [Heq|Hin].
    + apply (Hleast b1 b2 s); try done; try lia.
      * by apply legal_place.
      * intros i j Hi Hj. destruct (decide ((i, j) = (r, c))) as [[= -> ->]|Hne].
        -- right. unfold b1. rewrite cell_setCell_eq by done.
           apply GameFacts.digit_value. apply Hrange. by left.
        -- unfold b1. rewrite cell_setCell_ne by done. by apply Hdig.
      * unfold b1. rewrite <- Heq. by apply completion_place.
    + right. exists r, c. split_and!; try done.
      * intros i j Hi Hj Hbef. destruct Hp as (_ & _ & Hext & _).
        destruct Hs as (_ & _ & Hexts).
        assert ((i, j) ≠ (r, c)) as Hne.
        { intros [= -> ->]. destruct Hbef as [?|[_ ?]]; lia. }
        rewrite Hext, Hexts; try done; unfold b1; rewrite ?cell_setCell_ne by done;
          try done; by apply Hfirst.
      * destruct Hp as (_ & _ & Hext & _).
        unfold numAt at 1. rewrite Hext; try done; unfold b1;
          rewrite cell_setCell_eq by done; [|done].
        by apply Hlt.
  - subst b2. rewrite wr_setCell by done. unfold b1. rewrite setCell_undo by done.
    intros Hrun s Hs Hin. apply IH; try done.
    apply elem_of_cons in Hin as [Heq|]; [|done]. exfalso.
    destruct (Hcomp b1 s Hg1) as (b3 & Hb3); [lia| |congruence].
    unfold b1. rewrite <- Heq. by apply completion_place.
Qed.

Lemma digits_sorted k k' x y :
  k < k' → digits !! k = Some x → digits !! k' = Some y → (x < y)%Z.
Proof.
  intros Hlt Hx Hy.
  assert (k' < 9) by (apply lookup_lt_Some in Hy; simpl in Hy; lia).
  do 9 (destruct k as [|k];
        [do 9 (destruct k' as [|k'];
               [try lia; cbn in Hx, Hy; injection Hx as <-; injection Hy as <-; lia|]);
         lia|]).
  lia.
Qed.

Lemma solveSudoku_least_fuel fuel b b' s :
  grid9 b → legal b → digitBoard b → countNull b ≤ fuel →
  solveSudoku fuel b = Some (Ok (true, b')) → completionOf b s → lexLe b' s.
Proof.
  revert b b' s. induction fuel as [|fuel IH]; intros b b' s Hg Hleg Hdig Hcount Hrun Hs.
  - rewrite solveSudoku_0 in Hrun.
    destruct (findEmpty b) as [[[r c]|]|] eqn:Hfind; try done.
    injection Hrun as <-. left. apply completion_full; [|done].
    by apply findEmpty_None.
  - rewrite solveSudoku_S in Hrun.
    destruct (findEmpty b) as [[[r c]|]|] eqn:Hfind; try done.
    + destruct (findEmpty_Some b r c Hg Hfind) as (Hr & Hc & Hnull).
      assert (∀ b1, grid9 b1 → countNull b1 ≤ fuel → solverPost b1 (solveSudoku fuel b1))
        as Hpost by (intros; by apply solveSudoku_post).
      assert (∀ b1 s1, grid9 b1 → countNull b1 ≤ fuel → completionOf b1 s1 →
                ∃ b2, solveSudoku fuel b1 = Some (Ok (true, b2))) as Hcomp.
      { intros b1 s1 Hg1 Hc1 Hs1. destruct (completion_assign b1 s1 Hs1) as [Hva Hag].
        by apply (solveSudoku_complete (numAt s1)). }
      assert (∀ b1 b2 s1, grid9 b1 → legal b1 → digitBoard b1 → countNull b1 ≤ fuel →
                solveSudoku fuel b1 = Some (Ok (true, b2)) → completionOf b1 s1 →
                lexLe b2 s1) as Hleast.
      { intros b1 b2 s1 Hg1 Hl1 Hd1 Hc1 Hrun1 Hs1. by apply (IH b1 b2 s1). }
      apply (tryNums_least _ fuel b r c digits b' Hpost Hcomp Hleast Hg Hleg Hdig Hr Hc
               Hnull Hcount (findEmpty_first b r c Hg Hfind) digits_sorted digits_range
               Hrun s Hs).
      destruct (completion_assign b s Hs) as [[Hrange _] _].
      apply digits_all. by apply Hrange.
    + injection Hrun as <-. left. apply completion_full; [|done].
      by apply findEmpty_None.
Qed.

End LeastFacts.

Import LayoutFacts GenFacts EngineFacts LeastFacts.

Lemma solve_seed0 : solveSudoku depth_bound seed0 = Some (Ok (true, solved0)).
Proof. vm_compute. reflexivity. Qed.

(** X17.  When [solveSudoku] answers [true] on a 9×9 board without
    duplicates and with entries 1–9, the grid it leaves is the first
    of all valid completions: any other completion holds a larger
    number in the first cell, in reading order, where the two
    differ. *)
Theorem solveSudoku_least b b' :
  grid9 b → legal b → digitBoard b →
  solveSudoku depth_bound b = Some (Ok (true, b')) →
  ∀ s, completionOf b s → lexLe b' s.
Proof.
  intros Hg Hleg Hdig Hrun s Hs.
  apply (solveSudoku_least_fuel depth_bound b b' s); try done.
  by apply countNull_le_81.
Qed.

Lemma solveSudoku_least_witness :
  legal seed0 ∧ ∀ s, completionOf seed0 s → lexLe solved0 s.
Proof.
  exact (conj seed0_legal
           (solveSudoku_least seed0 solved0 seed0_grid9 seed0_legal seed0_digitBoard
              solve_seed0)).
Defined.

(** ** Storage keys and the login screen *)
Module StoreFacts.
Import AppStore Dashboard ResearchChat LitReview AuthScreen.

Lemma append_cons (x : Ascii.ascii) (a b : string) :
  String x a +:+ b = String x (a +:+ b).
Proof. reflexivity. Qed.

Lemma append_length (a b : string) :
  String.length (a +:+ b) = String.length a + String.length b.
Proof.
  induction a as [|c a IH]; [done|].
  rewrite append_cons. simpl. by rewrite IH.
Qed.

Lemma append_assoc (a b c : string) : (a +:+ b) +:+ c = a +:+ (b +:+ c).
Proof.
  induction a as [|x a IH]; [done|].
  rewrite !append_cons. by rewrite IH.
Qed.

(** Two texts that end in tails of the same length are equal only if
    the tails and the rests are. *)
Lemma append_tail_inj (a b s t : string) :
  a +:+ s = b +:+ t → String.length s = String.length t → a = b ∧ s = t.
Proof.
  revert b. induction a as [|x a IH]; intros [|y b] H L;
    rewrite ?append_cons in H.
  - done.
  - exfalso. apply (f_equal String.length) in H. simpl in H.
    change (String.length ("" +:+ s)) with (String.length s) in H.
    rewrite append_length in H. lia.
  - exfalso. apply (f_equal String.length) in H. simpl in H.
    change (String.length ("" +:+ t)) with (String.length t) in H.
    rewrite append_length in H. lia.
  - injection H as -> H. destruct (IH _ H L) as [-> ->]. done.
Qed.

Lemma append_tail_ne (a b p s t : string) :
  String.length s = String.length t → s ≠ t → a +:+ s ≠ b +:+ p +:+ t.
Proof.
  intros L Hne H. rewrite <- append_assoc in H.
  by destruct (append_tail_inj _ _ _ _ H L).
Qed.

Lemma suffix_key_inj (s u u' : string) :
  "scholarAi_" +:+ u +:+ s = "scholarAi_" +:+ u' +:+ s → u = u'.
Proof.
  intros H. apply (String.app_inj "scholarAi_") in H.
  by destruct (append_tail_inj _ _ _ _ H eq_refl).
Qed.

Lemma suffix_key_ne (p s t u u' : string) :
  String.length s = String.length t → s ≠ t →
  "scholarAi_" +:+ u +:+ s ≠ "scholarAi_" +:+ u' +:+ p +:+ t.
Proof.
  intros L Hne H. apply (String.app_inj "scholarAi_") in H.
  by apply (append_tail_ne u u' p s t L Hne).
Qed.

Lemma current_key_ne (p s t u : string) :
  "currentUser" = p +:+ t → String.length s = String.length t → s ≠ t →
  currentUserKey ≠ "scholarAi_" +:+ u +:+ s.
Proof.
  intros Hp L Hne H. unfold currentUserKey in H.
  change "scholarAi_currentUser" with ("scholarAi_" +:+ "currentUser") in H.
  apply (String.app_inj "scholarAi_") in H. rewrite Hp in H.
  destruct (append_tail_inj _ _ _ _ H (eq_sym L)) as [_ ?]. by apply Hne.
Qed.

Lemma truthy_Some (v : string) : truthy (Some v) = true ↔ v ≠ "".
Proof. cbn. by rewrite bool_decide_eq_true. Qed.

Lemma truthy_false (o : option string) : truthy o = false ↔ o = None ∨ o = Some "".
Proof.
  destruct o as [v|]; cbn.
  - rewrite bool_decide_eq_false. split.
    + intros H. right. f_equal. by destruct (decide (v = "")).
    + intros [?|[= ->]]; [done|]. by intros ?.
  - split; [by left|done].
Qed.

Section Trim.

Variable trim : string → string.

(** What [handleSubmit] does, case by case. *)
Lemma handleSubmit_cases (σ : Store) (st : State) (o : Outcome) :
  handleSubmit trim σ st = o →
  (showRegisterPrompt st = true ∧ o = handleRegister trim σ (setError "" st))
  ∨ (showRegisterPrompt st = false ∧ o.1.1 = σ ∧ o.2 = None
     ∧ username o.1.2 = username st ∧ password o.1.2 = password st
     ∧ (showRegisterPrompt o.1.2 = true →
        trim (username st) ≠ "" ∧ trim (password st) ≠ ""
        ∧ truthy (σ !! userKey (trim (username st))) = false))
  ∨ (showRegisterPrompt st = false ∧ o = (σ, setError "" st, Some (trim (username st)))
     ∧ trim (username st) ≠ "" ∧ password st ≠ ""
     ∧ σ !! userKey (trim (username st)) = Some (password st)).
Proof.
  unfold handleSubmit. intros <-.
  destruct (showRegisterPrompt st) eqn:Hp; [by left|]. right.
  destruct (truthy (Some (trim (username st)))) eqn:Hu; cbn [negb orb].
  2:{ left. cbn. split_and!; try done. intros; congruence. }
  destruct (truthy (Some (trim (password st)))) eqn:Hw; cbn [negb orb].
  2:{ left. cbn. split_and!; try done. intros; congruence. }
  apply truthy_Some in Hu, Hw.
  destruct (truthy (σ !! userKey (trim (username st)))) eqn:Hs.
  - case_bool_decide as Hm.
    + right. split_and!; try done.
      rewrite Hm in Hs. by apply truthy_Some in Hs.
    + left. cbn. split_and!; try done.
  - left. cbn. split_and!; try done.
Qed.

(** The state kept between the events: the prompt is only shown for a
    name and a password that are not blank, and for a name without a
    stored password. *)
Definition prompted (σ : Store) (st : State) : Prop :=
  showRegisterPrompt st = true →
  trim (username st) ≠ "" ∧ trim (password st) ≠ ""
  ∧ truthy (σ !! userKey (trim (username st))) = false.

(** What one event may do to the store. *)
Definition grown (σ0 σ : Store) (login : option string) : Prop :=
  σ = σ0
  ∨ ∃ name pw, login = Some name ∧ truthy (σ0 !! userKey name) = false
      ∧ σ = <[userKey name := pw]> σ0.

Lemma step_spec (σ : Store) (st : State) (e : event) (σ' : Store) (st' : State)
    (login : option string) :
  prompted σ st →
  step trim σ st e = (σ', st', login) →
  grown σ σ' login
  ∧ (login = None → σ' = σ ∧ prompted σ' st')
  ∧ (∀ name, login = Some name →
       name = trim (username st') ∧ name ≠ ""
       ∧ σ' !! userKey name = Some (password st')
       ∧ (password st' ≠ "" ∨ trim (password st') ≠ "")).
Proof.
  intros Hinv. unfold step.
  destruct (rendered st e) eqn:Hr; cbn [negb].
  2:{ intros [= <- <- <-]. split_and!; [by left|done|done]. }
  destruct e; cbn in Hr.
  - intros [= <- <- <-]. split_and!; [by left| |done].
    intros _. split; [done|]. by intros ?.
  - intros [= <- <- <-]. split_and!; [by left| |done].
    intros _. split; [done|]. by intros ?.
  - intros H.
    destruct (handleSubmit_cases _ _ _ H)
      as [[Hp E]|[(Hp & E1 & E2 & E3 & E4 & E5)|(Hp & E & Hu & Hw & Hs)]]; clear H.
    + unfold handleRegister in E. cbn [username password setError] in E.
      injection E as -> -> ->.
      destruct (Hinv Hp) as (Hu & Hw & Hs).
      cbn [username password setError].
      split_and!.
      * right. by exists (trim (username st)), (password st).
      * done.
      * intros name [= <-]. split_and!; try done.
        -- apply lookup_insert_eq.
        -- by right.
    + cbn in E1, E2, E3, E4, E5. subst σ' login.
      split_and!; [by left| |done].
      intros _. split; [done|]. unfold prompted. by rewrite E3, E4.
    + injection E as -> -> ->. cbn [username password setError].
      split_and!; [by left|done|].
      intros name [= <-]. split_and!; try done. by left.
  - intros [= <- <- <-]. split_and!; [by left| |done].
    intros _. split; [done|]. by intros ?.
  - unfold handleRegister. intros [= <- <- <-].
    destruct (Hinv Hr) as (Hu & Hw & Hs).
    split_and!.
    + right. by exists (trim (username st)), (password st).
    + done.
    + intros name [= <-]. split_and!; try done.
      * apply lookup_insert_eq.
      * by right.
Qed.

Lemma run_spec (es : list event) (σ : Store) (st : State) (σ' : Store) (st' : State)
    (login : option string) :
  prompted σ st →
  run trim σ st es = (σ', st', login) →
  grown σ σ' login
  ∧ (∀ name, login = Some name →
       name = trim (username st') ∧ name ≠ ""
       ∧ σ' !! userKey name = Some (password st')
       ∧ (password st' ≠ "" ∨ trim (password st') ≠ "")).
Proof.
  revert σ st. induction es as [|e es IH]; intros σ st Hinv; cbn [run].
  - intros [= <- <- <-]. split; [by left|done].
  - destruct (step trim σ st e) as [[σ1 st1] l1] eqn:Hs.
    destruct (step_spec _ _ _ _ _ _ Hinv Hs) as (Hg & Hn & Hl).
    destruct l1 as [name|].
    + intros [= <- <- <-]. split; [done|]. exact Hl.
    + destruct (Hn eq_refl) as [-> Hinv1]. by apply IH.
Qed.

End Trim.

End StoreFacts.

Import AppStore Dashboard ResearchChat LitReview AuthScreen.

Ltac by_length H :=
  apply (f_equal String.length) in H;
  rewrite ?StoreFacts.append_length in H; simpl in H; lia.

(** X18: the keys under which [App], [ResearchChat] and [LitReview]
    keep the stats, the settings, the chat and the review history of a
    user are told apart: two of them are equal only if they are of the
    same kind and of the same user name, and none of them, nor a
    password key, is the key of the current user. *)
Theorem storage_keys_separate (u u' : string) :
  (statsKey u = statsKey u' → u = u')
  ∧ (settingsKey u = settingsKey u' → u = u')
  ∧ (storageKey u = storageKey u' → u = u')
  ∧ (historyKey u = historyKey u' → u = u')
  ∧ (userKey u = userKey u' → u = u')
  ∧ statsKey u ≠ settingsKey u'
  ∧ statsKey u ≠ storageKey u'
  ∧ statsKey u ≠ historyKey u'
  ∧ settingsKey u ≠ storageKey u'
  ∧ settingsKey u ≠ historyKey u'
  ∧ storageKey u ≠ historyKey u'
  ∧ currentUserKey ∉ [statsKey u; settingsKey u; storageKey u; historyKey u; userKey u].
Proof.
  split_and!.
  - apply StoreFacts.suffix_key_inj.
  - apply StoreFacts.suffix_key_inj.
  - apply StoreFacts.suffix_key_inj.
  - apply StoreFacts.suffix_key_inj.
  - apply (String.app_inj "scholarAi_user_creds_").
  - exact (StoreFacts.suffix_key_ne "_se" "_stats" "ttings" u u' eq_refl ltac:(done)).
  - exact (StoreFacts.suffix_key_ne "_chat_h" "_stats" "istory" u u' eq_refl ltac:(done)).
  - exact (StoreFacts.suffix_key_ne "_lit_review_h" "_stats" "istory" u u' eq_refl ltac:(done)).
  - exact (StoreFacts.suffix_key_ne "_cha" "_settings" "t_history" u u' eq_refl ltac:(done)).
  - exact (StoreFacts.suffix_key_ne "_lit_revie" "_settings" "w_history" u u' eq_refl ltac:(done)).
  - exact (StoreFacts.suffix_key_ne "_lit_r" "_chat_history" "eview_history" u u' eq_refl ltac:(done)).
  - rewrite !not_elem_of_cons. split_and!.
    + exact (StoreFacts.current_key_ne "curre" "_stats" "ntUser" u eq_refl eq_refl ltac:(done)).
    + exact (StoreFacts.current_key_ne "cu" "_settings" "rrentUser" u eq_refl eq_refl ltac:(done)).
    + intros H. apply (String.app_inj "scholarAi_" "currentUser") in H. by_length H.
    + intros H. apply (String.app_inj "scholarAi_" "currentUser") in H. by_length H.
    + intros H. apply (f_equal (String.get 10)) in H. cbv in H. discriminate H.
    + apply not_elem_of_nil.
Qed.

(** X19: the password keys of [AuthScreen] and the keys of [Dashboard]
    are not told apart from the others: for the user named
    [user_creds_w], the stats, settings, chat and review entries are
    the password entries of the names [w_stats], [w_settings],
    [w_chat_history] and [w_lit_review_history]; the bulletin of a user
    whose research field is [stats] is the stats entry of the name
    [u_bulletin]; and the bulletin for the field [date_f] is the
    bulletin date for the field [f]. *)
Theorem storage_keys_collide (w u f : string) :
  statsKey ("user_creds_" +:+ w) = userKey (w +:+ "_stats")
  ∧ settingsKey ("user_creds_" +:+ w) = userKey (w +:+ "_settings")
  ∧ storageKey ("user_creds_" +:+ w) = userKey (w +:+ "_chat_history")
  ∧ historyKey ("user_creds_" +:+ w) = userKey (w +:+ "_lit_review_history")
  ∧ getStorageKey u "stats" "bulletin" = statsKey (u +:+ "_bulletin")
  ∧ getStorageKey u ("date_" +:+ f) "bulletin" = getStorageKey u f "bulletin_date".
Proof.
  unfold statsKey, settingsKey, storageKey, historyKey, userKey, getStorageKey.
  split_and!; try reflexivity.
  - by rewrite StoreFacts.append_assoc.
Qed.

(** X20: once [updateStats] has saved the stats of the user named
    [user_creds_w], the saved text is the password of the name
    [w_stats]: whatever the store held before, [handleSubmit] with that
    name and that text calls [onLogin] for [w_stats]. *)
Theorem stats_entry_is_password (trim : string → string)
    (stringify : GameCenter.UserStats → string) (w : string)
    (s : GameCenter.UserStats) (σ : GameCenter.UserStats * Store) (st : State) :
  showRegisterPrompt st = false →
  trim (username st) = w +:+ "_stats" →
  password st = stringify s →
  password st ≠ "" →
  trim (password st) ≠ "" →
  handleSubmit trim (updateStats stringify (Some ("user_creds_" +:+ w)) s σ).2 st
  = ((updateStats stringify (Some ("user_creds_" +:+ w)) s σ).2,
     setError "" st, Some (w +:+ "_stats")).
Proof.
  intros Hp Hu Hw Hne Ht.
  assert (truthy (Some ("user_creds_" +:+ w)) = true) as Hus.
  { apply StoreFacts.truthy_Some. by rewrite StoreFacts.append_cons. }
  unfold updateStats. rewrite Hus. cbn [snd from_option]. unfold id.
  assert (w +:+ "_stats" ≠ "") as Hn.
  { intros H. by_length H. }
  unfold handleSubmit. rewrite Hp, Hu.
  rewrite (proj2 (StoreFacts.truthy_Some _) Hn), (proj2 (StoreFacts.truthy_Some _) Ht).
  cbn [negb orb].
  assert (<[statsKey ("user_creds_" +:+ w) := stringify s]> σ.2 !! userKey (w +:+ "_stats")
          = Some (password st)) as ->.
  { rewrite Hw. apply lookup_insert_eq. }
  rewrite (proj2 (StoreFacts.truthy_Some _) Hne).
  by rewrite bool_decide_eq_true_2.
Qed.

Lemma stats_entry_is_password_witness :
  handleSubmit (λ v, v)
    (updateStats (λ _, "{}") (Some ("user_creds_" +:+ "ada")) GameCenter.stats0
       (GameCenter.stats0, <[userKey "ada_stats" := "secret"]> ∅)).2
    {| username := "ada_stats"; password := "{}"; error := "";
       showRegisterPrompt := false |}
  = ((updateStats (λ _, "{}") (Some ("user_creds_" +:+ "ada")) GameCenter.stats0
        (GameCenter.stats0, <[userKey "ada_stats" := "secret"]> ∅)).2,
     setError "" {| username := "ada_stats"; password := "{}"; error := "";
                    showRegisterPrompt := false |},
     Some ("ada" +:+ "_stats")).
Proof.
  apply (stats_entry_is_password (λ v, v) (λ _, "{}") "ada"); first [reflexivity|done].
Defined.

(** X21: who has been let in by [AuthScreen] under a name, by logging
    in or by creating the account, is let in again from a fresh screen
    with the same name and password, and with any other password that
    is not blank the screen answers [Incorrect password. Please try
    again.], calls nothing and leaves the store. *)
Theorem login_again (trim : string → string) (σ0 σ : Store) (es : list event)
    (st : State) (name n' p' : string) :
  trim "" = "" →
  run trim σ0 initialState es = (σ, st, Some name) →
  trim n' = name →
  trim p' ≠ "" →
  ∃ st',
    run trim σ initialState [ChangeUsername n'; ChangePassword p'; Submit]
    = (σ, st', if bool_decide (p' = password st) then Some name else None)
    ∧ (p' ≠ password st → error st' = "Incorrect password. Please try again."
                          ∧ showRegisterPrompt st' = false).
Proof.
  intros Ht Hrun Hn Hp.
  assert (StoreFacts.prompted trim σ0 initialState) as Hinv by (by intros ?).
  destruct (StoreFacts.run_spec trim _ _ _ _ _ _ Hinv Hrun) as [_ Hl].
  destruct (Hl name eq_refl) as (Hname & Hne & Hs & Hpw).
  assert (password st ≠ "") as Hpw'.
  { destruct Hpw as [?|Hpw]; [done|]. intros E. apply Hpw. by rewrite E. }
  cbn [run]. unfold step at 1.
  cbn [rendered initialState showRegisterPrompt negb]. unfold step at 1.
  cbn [rendered showRegisterPrompt setError setShowRegisterPrompt setUsername negb].
  unfold step. cbn [rendered negb]. unfold handleSubmit.
  cbn [showRegisterPrompt username password setError setShowRegisterPrompt setUsername
       setPassword].
  rewrite Hn.
  rewrite (proj2 (StoreFacts.truthy_Some _) Hne), (proj2 (StoreFacts.truthy_Some _) Hp).
  cbn [negb orb]. rewrite Hs.
  rewrite (proj2 (StoreFacts.truthy_Some _) Hpw').
  case_bool_decide as E1; case_bool_decide as E2; try congruence.
  - eexists. split; [reflexivity|]. intros; congruence.
  - eexists. split; [reflexivity|]. done.
Qed.

Lemma auth_run0 :
  run (λ v, v) ∅ initialState
    [ChangeUsername "ada"; ChangePassword "pw"; Submit; ClickCreate]
  = (<[userKey "ada" := "pw"]> ∅,
     {| username := "ada"; password := "pw"; error := ""; showRegisterPrompt := true |},
     Some "ada").
Proof. vm_compute. reflexivity. Qed.

Lemma login_again_witness :
  ∃ st',
    run (λ v, v) (<[userKey "ada" := "pw"]> ∅) initialState
      [ChangeUsername "ada"; ChangePassword "other"; Submit]
    = (<[userKey "ada" := "pw"]> ∅, st',
       if bool_decide ("other" = "pw") then Some "ada" else None)
    ∧ ("other" ≠ "pw" → error st' = "Incorrect password. Please try again."
                        ∧ showRegisterPrompt st' = false).
Proof.
  exact (login_again (λ v, v) ∅ _ _ _ "ada" "ada" "other" eq_refl auth_run0 eq_refl
           ltac:(done)).
Defined.

(** X22: over any sequence of events on [AuthScreen], started on any
    store: [onLogin] is only called for a name that is not blank and
    whose stored password is the one typed; the store is changed by at
    most one entry, the password of that name, and only if the name had
    no password (or an empty one) before; so no stored password that is
    not empty is ever changed, and nothing is stored without a login. *)
Theorem AuthScreen_login_sound (trim : string → string) (σ0 σ : Store)
    (es : list event) (st : State) (login : option string) :
  run trim σ0 initialState es = (σ, st, login) →
  (∀ k v, σ0 !! k = Some v → v ≠ "" → σ !! k = Some v)
  ∧ (login = None → σ = σ0)
  ∧ (∀ name, login = Some name →
       name = trim (username st) ∧ name ≠ ""
       ∧ σ !! userKey name = Some (password st)
       ∧ (σ = σ0
          ∨ truthy (σ0 !! userKey name) = false
            ∧ σ = <[userKey name := password st]> σ0)).
Proof.
  intros Hrun.
  assert (StoreFacts.prompted trim σ0 initialState) as Hinv by (by intros ?).
  destruct (StoreFacts.run_spec trim _ _ _ _ _ _ Hinv Hrun) as [Hg Hl].
  split_and!.
  - intros k v Hk Hv. destruct Hg as [->|(name & pw & _ & Hf & ->)]; [done|].
    unfold Store in *. rewrite lookup_insert_ne; [done|]. intros <-.
    rewrite Hk in Hf. apply StoreFacts.truthy_false in Hf.
    destruct Hf as [|[= ->]]; done.
  - intros ->. destruct Hg as [->|(name & pw & ? & _)]; done.
  - intros name ->. destruct (Hl name eq_refl) as (Hname & Hne & Hs & _).
    split_and!; try done.
    destruct Hg as [->|(name' & pw & [= <-] & Hf & ->)]; [by left|].
    right. split; [done|]. f_equal.
    unfold Store in *. rewrite lookup_insert_eq in Hs. by injection Hs.
Qed.

Lemma AuthScreen_login_sound_witness :
  (∀ k v, (∅ : Store) !! k = Some v → v ≠ "" →
     (<[userKey "ada" := "pw"]> ∅ : Store) !! k = Some v)
  ∧ (Some "ada" = None → (<[userKey "ada" := "pw"]> ∅ : Store) = ∅)
  ∧ (∀ name, Some "ada" = Some name →
       name = "ada" ∧ name ≠ ""
       ∧ (<[userKey "ada" := "pw"]> ∅ : Store) !! userKey name = Some "pw"
       ∧ ((<[userKey "ada" := "pw"]> ∅ : Store) = ∅
          ∨ truthy ((∅ : Store) !! userKey name) = false
            ∧ (<[userKey "ada" := "pw"]> ∅ : Store) = <[userKey name := "pw"]> ∅)).
Proof.
  exact (AuthScreen_login_sound (λ v, v) ∅ _ _ _ _ auth_run0).
Defined.

(** ** The quiz of [LitReview] *)
Module QuizFacts.
Import GameCenter LitReview.

(** Whether the answer to the question [q], the [k]-th one, is right. *)
Definition right (answers : list (option Z)) (k : nat) (q : QuizQuestion) : Prop :=
  answers !! k = Some (Some (correctAnswerIndex q)).




(** The answers as a table of the chosen options. *)
Definition table (n : nat) (f : nat → Z) : list (option Z) :=
  map (λ i, Some (f i)) (seq 0 n).

Lemma table_lookup n f i : i < n → table n f !! i = Some (Some (f i)).
Proof.
  intros Hi. unfold table. rewrite list_lookup_fmap.
  by rewrite lookup_seq_lt.
Qed.

Lemma table_length n f : length (table n f) = n.
Proof. unfold table. by rewrite length_map, length_seq. Qed.

Lemma table_blank n : replicate n (Some (-1)%Z) = table n (λ _, (-1)%Z).
Proof.
  apply list_eq. intros i. destruct (decide (i < n)) as [Hi|Hi].
  - rewrite table_lookup by done. by apply lookup_replicate_2.
  - rewrite !lookup_ge_None_2; [done|rewrite table_length; lia|rewrite length_replicate; lia].
Qed.

Lemma table_assign n f q o :
  q < n →
  assign (table n f) q o = table n (λ i, if decide (q = i) then o else f i).
Proof.
  intros Hq. unfold assign. rewrite table_length.
  destruct (decide (q < n)); [|lia].
  apply list_eq. intros i. destruct (decide (i < n)) as [Hi|Hi].
  - rewrite (table_lookup n _ i) by done.
    destruct (decide (q = i)) as [->|Hne].
    + apply list_lookup_insert_eq. by rewrite table_length.
    + rewrite list_lookup_insert_ne by done. by apply table_lookup.
  - rewrite !lookup_ge_None_2; [done|rewrite table_length; lia|].
    rewrite length_insert, table_length. lia.
Qed.

Lemma selectAll_table clicks :
  ∀ st n f,
    quizSubmitted st = false →
    quizAnswers st = table n f →
    Forall (λ c, c.1 < n) clicks →
    quizQuestions (selectAll st clicks) = quizQuestions st
    ∧ quizSubmitted (selectAll st clicks) = false
    ∧ pointsEarned (selectAll st clicks) = pointsEarned st
    ∧ quizAnswers (selectAll st clicks)
      = table n (λ i, foldl (λ acc c, if decide (c.1 = i) then Z.of_nat c.2 else acc)
                        (f i) clicks).
Proof.
  induction clicks as [|[q o] clicks IH]; intros st n f Hs Ha Hc.
  - done.
  - apply Forall_cons in Hc as [Hq Hc]. cbn [fst] in Hq.
    unfold selectAll in *. cbn [foldl fst snd].
    assert (selectOption st q o
            = setQuizAnswers (assign (quizAnswers st) q (Z.of_nat o)) st) as ->.
    { unfold selectOption. by rewrite Hs. }
    assert (quizAnswers (setQuizAnswers (assign (quizAnswers st) q (Z.of_nat o)) st)
            = table n (λ i, if decide (q = i) then Z.of_nat o else f i)) as Ha'.
    { cbn. rewrite Ha. by apply table_assign. }
    destruct (IH (setQuizAnswers (assign (quizAnswers st) q (Z.of_nat o)) st) n _ Hs Ha' Hc)
      as (E1 & E2 & E3 & E4).
    split_and!; [exact E1|exact E2|exact E3|exact E4].
Qed.

Lemma chosen_none (clicks : list (nat * nat)) (i : nat) (acc : Z) :
  foldl (λ acc c, if decide (c.1 = i) then Z.of_nat c.2 else acc) acc clicks = (-1)%Z
  ↔ acc = (-1)%Z ∧ i ∉ clicks.*1.
Proof.
  revert acc. induction clicks as [|[q o] clicks IH]; intros acc; cbn [foldl fmap list_fmap fst snd].
  - split; [intros ->; split; [done|apply not_elem_of_nil]|by intros [? _]].
  - rewrite IH, not_elem_of_cons. destruct (decide (q = i)) as [->|Hne].
    + split; [lia|]. by intros (_ & ? & _).
    + split; [intros [? ?]; split_and!; [done|congruence|done]|by intros (? & _ & ?)].
Qed.

Lemma table_elem n f v : Some v ∈ table n f ↔ ∃ i, i < n ∧ f i = v.
Proof.
  unfold table. rewrite list_elem_of_fmap. split.
  - intros (i & [= ->] & Hi). apply elem_of_seq in Hi. exists i. split; [lia|done].
  - intros (i & Hi & <-). exists i. split; [done|]. apply elem_of_seq. lia.
Qed.

End QuizFacts.

Import GameCenter LitReview.


(** X24: after a quiz with [questions] has been generated, clicks on
    options of its questions leave one answer slot per question, the
    slot of a question holding the option clicked last for it, and
    [-1] if there was none; [handleQuizSubmit] then refuses exactly
    when some question has not been clicked. *)
Theorem quiz_answers_last_click (userStats : UserStats) (questions : list QuizQuestion)
    (st : QuizState) (clicks : list (nat * nat)) :
  Forall (λ c, c.1 < length questions) clicks →
  quizQuestions (selectAll (quizGenerated questions st) clicks) = questions
  ∧ length (quizAnswers (selectAll (quizGenerated questions st) clicks))
    = length questions
  ∧ (∀ i, i < length questions →
       quizAnswers (selectAll (quizGenerated questions st) clicks) !! i
       = Some (Some (chosen clicks i)))
  ∧ ((handleQuizSubmit userStats (selectAll (quizGenerated questions st) clicks)).1 = None
     ↔ ∃ i, i < length questions ∧ i ∉ clicks.*1).
Proof.
  intros Hc.
  destruct (QuizFacts.selectAll_table clicks (quizGenerated questions st)
              (length questions) (λ _, (-1)%Z) eq_refl
              (QuizFacts.table_blank _) Hc) as (E1 & E2 & E3 & E4).
  split_and!.
  - exact E1.
  - rewrite E4. apply QuizFacts.table_length.
  - intros i Hi. rewrite E4. by apply QuizFacts.table_lookup.
  - unfold handleQuizSubmit. rewrite E4. case_bool_decide as Hm; cbn [fst].
    + split; [intros _|done].
      apply QuizFacts.table_elem in Hm as (i & Hi & Hm).
      apply QuizFacts.chosen_none in Hm as [_ Hm]. by exists i.
    + split; [done|]. intros (i & Hi & Hn). destruct Hm.
      apply QuizFacts.table_elem. exists i. split; [done|].
      by apply QuizFacts.chosen_none.
Qed.

Lemma quiz_answers_last_click_witness :
  quizQuestions (selectAll (quizGenerated quiz0 initialQuiz) clicks0) = quiz0
  ∧ length (quizAnswers (selectAll (quizGenerated quiz0 initialQuiz) clicks0))
    = length quiz0
  ∧ (∀ i, i < length quiz0 →
       quizAnswers (selectAll (quizGenerated quiz0 initialQuiz) clicks0) !! i
       = Some (Some (chosen clicks0 i)))
  ∧ ((handleQuizSubmit stats0 (selectAll (quizGenerated quiz0 initialQuiz) clicks0)).1
     = None
     ↔ ∃ i, i < length quiz0 ∧ i ∉ clicks0.*1).
Proof.
  apply (quiz_answers_last_click stats0 quiz0 initialQuiz clicks0).
  repeat constructor.
Defined.

